(** * A chat request router: balancer, workers, bridge and supervisors

  Shallow embedding of the JavaScript sources of the repository:

  - [Balancer]        server/simple-balancer.js and the short balancer script
  - [Incoming]        the [close] event of a request, as Node emits it
  - [Worker]          server/worker.js with server/utils/shared.js
  - [Bridge]          server/openwebui-bridge.js (conversation history)
  - [ProcessManager]  server/process-manager.js
  - [Supervisor]      server/start.js and start-cluster.js
  - [Upload]          the upload routes of server/worker.js
  - [LockManager]     server/utils/shared.js
  - [BridgeStream]    server/openwebui-bridge.js (chat stream)
  - [MasterRun]       server/process-manager.js over time

  Node's event loop runs one callback at a time, so every handler is a
  function from a state to a state (explicit state passing) and a run of
  the program is a fold over the list of callbacks that fire. *)

From Stdlib Require Import Ascii String.
From stdpp Require Import gmap strings list fin_maps pretty.

Local Open Scope string_scope.

(** ** JavaScript helpers shared by the components *)

(** Truthiness of a value that is either [undefined] or a string:
  [undefined] and the empty string are falsy. *)
Definition truthy (v : option string) : bool :=
  match v with
  | Some s => negb (String.eqb s EmptyString)
  | None => false
  end.

(** [v || d] for such a value. *)
Definition or_default (v : option string) (d : string) : string :=
  if truthy v then default d v else d.

(** [s.trim()].  A text is the sequence of its UTF-8 bytes.  [trim]
    strips the white space and the line terminators of ECMAScript: the
    six of ASCII, and U+00A0, U+1680, U+2000 to U+200A, U+2028, U+2029,
    U+202F, U+205F, U+3000 and U+FEFF, which take two or three bytes. *)
Definition space2 (a b : ascii) : bool :=
  (nat_of_ascii a =? 194)%nat && (nat_of_ascii b =? 160)%nat.

Definition space3 (a b c : ascii) : bool :=
  let x := nat_of_ascii a in
  let y := nat_of_ascii b in
  let z := nat_of_ascii c in
  ((x =? 225) && (y =? 154) && (z =? 128))%nat
  || ((x =? 226) && (y =? 128)
      && ((128 <=? z) && (z <=? 138) || (z =? 168) || (z =? 169)
          || (z =? 175)))%nat
  || ((x =? 226) && (y =? 129) && (z =? 159))%nat
  || ((x =? 227) && (y =? 128) && (z =? 128))%nat
  || ((x =? 239) && (y =? 187) && (z =? 191))%nat.

(** The text without the white space at its head; [w2] and [w3] tell
    the white space of two and of three bytes. *)
Fixpoint strip (w2 : ascii → ascii → bool) (w3 : ascii → ascii → ascii → bool)
    (s : string) : string :=
  match s with
  | EmptyString => EmptyString
  | String a s1 =>
      if Ascii.is_space a then strip w2 w3 s1
      else match s1 with
           | String b s2 =>
               if w2 a b then strip w2 w3 s2
               else match s2 with
                    | String c s3 => if w3 a b c then strip w2 w3 s3 else s
                    | EmptyString => s
                    end
           | EmptyString => s
           end
  end.

Definition ltrim (s : string) : string := strip space2 space3 s.

(** The same from the end, on the reversed text, where the bytes of a
    character come in the opposite order. *)
Definition js_trim (s : string) : string :=
  String.rev
    (strip (λ a b, space2 b a) (λ a b c, space3 c b a)
       (String.rev (ltrim s))).

(** [hay.includes(needle)] *)
Fixpoint includes (needle hay : string) : bool :=
  String.prefix needle hay ||
  match hay with
  | String _ hay' => includes needle hay'
  | EmptyString => false
  end.

(** [s.slice(n)] for [n] within the string. *)
Fixpoint slice_from (n : nat) (s : string) : string :=
  match n, s with
  | S n', String _ s' => slice_from n' s'
  | _, _ => s
  end.

(** [s.split('\n')]: never empty, the last element is what follows the
    last line feed. *)
Fixpoint split_lf (s : string) : list string :=
  match s with
  | EmptyString => [EmptyString]
  | String a s' =>
      if Ascii.eqb a "010"%char then EmptyString :: split_lf s'
      else match split_lf s' with
           | l :: ls => String a l :: ls
           | [] => [String a EmptyString]
           end
  end.

(** [path.join] of path segments that need no normalisation. *)
Definition path_join (segments : list string) : string :=
  match segments with
  | [] => "."
  | s :: rest => foldl (λ acc x, acc +:+ "/" +:+ x) s rest
  end.

(** Number of elements of [l] equal to [i]. *)
Definition hits (i : nat) (l : list nat) : nat :=
  length (filter (λ j, j = i) l).

(** ** The load balancer *)

Module Balancer.

(** [const workers = [...]] of simple-balancer.js. *)
Definition workers : list string :=
  [ "http://localhost:3001"; "http://localhost:3002";
    "http://localhost:3003"; "http://localhost:3004" ].

(** [let current = 0; let requestCount = 0;] *)
Record state := mkState { current : nat; requestCount : nat }.

Definition init : state := {| current := 0; requestCount := 0 |}.

(** What [proxy.web] reports to its callback. *)
Inductive outcome :=
| Proxied
| ProxyError (message : string).

(** What the balancer itself writes when the proxy fails. *)
Record reply := mkReply {
  status : nat;
  contentType : string;
  details : string
}.

Section Pool.
Variable pool : list string.

(** The request handler of [http.createServer]: the target is read at
    the cursor, the cursor moves on, and only then is the request
    proxied; the error callback writes a 500 JSON reply. *)
Definition handle (st : state) (o : outcome)
  : state * option string * option reply :=
  let requestCount' := S (requestCount st) in
  let target := pool !! current st in
  let current' := (current st + 1) mod length pool in
  let st' := {| current := current'; requestCount := requestCount' |} in
  match o with
  | Proxied => (st', target, None)
  | ProxyError m =>
      (st', target,
       Some {| status := 500; contentType := "application/json"; details := m |})
  end.

(** The index of the worker a request is routed to. *)
Definition selected (st : state) : nat := current st.

(** A run of accepted requests; the result lists, in order, the target
    each request was handed to [proxy.web] with. *)
Fixpoint serve (os : list outcome) (st : state)
    : list (option string) * state :=
  match os with
  | [] => ([], st)
  | o :: os' =>
      let '(st', target, _) := handle st o in
      let '(targets, st'') := serve os' st' in
      (target :: targets, st'')
  end.

(** Number of requests, among those with these targets, that were
    proxied to [url]. *)
Definition sent (url : string) (targets : list (option string)) : nat :=
  length (List.filter (λ t, bool_decide (t = Some url)) targets).

(** [proxy.on('proxyRes', ...)]: the header is read from the global
    cursor at the time the upstream response arrives. *)
Definition on_proxyRes (st : state) : string * nat :=
  ("X-Worker-Hit", current st).

(** Events of the balancer's event loop. *)
Inductive event :=
| Accept (o : outcome)
| ProxyRes (request : nat).

(** Log of a run: for every accepted request the selected index and
    the target it was handed to [proxy.web] with, and for every upstream
    response the request it belongs to with the header value written on
    it. *)
Record log := mkLog {
  routed : list nat;
  proxied : list (option string);
  annotated : list (nat * nat)
}.

Definition step (sl : state * log) (e : event) : state * log :=
  let '(st, l) := sl in
  match e with
  | Accept o =>
      let '(st', target, _) := handle st o in
      (st', {| routed := routed l ++ [selected st];
               proxied := proxied l ++ [target];
               annotated := annotated l |})
  | ProxyRes k =>
      (st, {| routed := routed l;
              proxied := proxied l;
              annotated := annotated l ++ [(k, snd (on_proxyRes st))] |})
  end.

Definition run (es : list event) : state * log :=
  foldl step (init, {| routed := []; proxied := []; annotated := [] |}) es.

(** A header value identifies worker index [i] when it is that index,
    or the worker's ordinal [i + 1] (WORKER_ID counts from 1). *)
Definition identifies (header i : nat) : Prop :=
  header = i ∨ header = i + 1.
End Pool.

End Balancer.

(** ** The request object and its [close] event *)

Module Incoming.

(** The chat handlers listen for [close] on [req], the IncomingMessage
    of Node.  A request emits [close] once.  Since Node 16 it does so
    when it has been read to its end, or when its socket closes before
    that; up to Node 14 it does so when its socket closes. *)
Inductive Runtime :=
| Node16      (* Node 16 and later *)
| Node14.     (* Node 14 and earlier *)

Record Request := mkRequest {
  bodyRead : bool;     (* the body has been read to its end *)
  closed : bool        (* [close] has been emitted *)
}.

Definition arriving : Request := {| bodyRead := false; closed := false |}.

(** The body is read to its end: the request afterwards, and whether
    [close] is emitted now. *)
Definition read (rt : Runtime) (r : Request) : Request * bool :=
  match rt with
  | Node16 => ({| bodyRead := true; closed := true |}, negb (closed r))
  | Node14 => ({| bodyRead := true; closed := closed r |}, false)
  end.

(** The socket of the client closes: the request afterwards, and
    whether [close] is emitted now. *)
Definition socket_closed (r : Request) : Request * bool :=
  ({| bodyRead := bodyRead r; closed := true |}, negb (closed r)).

(** The request as a route handler finds it.  [express.json] is mounted
    before the routes and calls the next middleware from the [end] of
    the body, so the body has been read; [left] tells whether the
    client's socket has closed in the meantime. *)
Definition parsed (rt : Runtime) (left : bool) : Request :=
  let r := (read rt arriving).1 in
  if left then (socket_closed r).1 else r.

End Incoming.

(** ** The worker process *)

Module Worker.

(** *** server/utils/shared.js *)

Record FileInfo := mkFile {
  fileId : string;
  fileName : string;
  fileType : string;
  filePath : string;
  fileUrl : string
}.

(** [class UserSession]; times are [Date.now()] readings in milliseconds. *)
Record UserSession := mkSession {
  id : string;
  workerId : string;
  createdAt : Z;
  lastActivity : Z;
  files : list FileInfo;
  chatHistory : list string;
  preferences : gmap string string
}.

(** [constructor(userId, workerId)]; [uuid] is what [crypto.randomUUID()]
    returns and [now] what [Date.now()] returns. *)
Definition newUserSession (userId : option string) (wid : string)
    (uuid : string) (now : Z) : UserSession :=
  {| id := or_default userId uuid;
     workerId := wid;
     createdAt := now;
     lastActivity := now;
     files := [];
     chatHistory := [];
     preferences := ∅ |}.

Definition updateActivity (now : Z) (s : UserSession) : UserSession :=
  {| id := id s; workerId := workerId s; createdAt := createdAt s;
     lastActivity := now;
     files := files s; chatHistory := chatHistory s;
     preferences := preferences s |}.

Definition addFile (f : FileInfo) (s : UserSession) : UserSession :=
  {| id := id s; workerId := workerId s; createdAt := createdAt s;
     lastActivity := lastActivity s;
     files := files s ++ [f]; chatHistory := chatHistory s;
     preferences := preferences s |}.

(** [clearFiles()]: every file of the session is unlinked (a failing
    unlink is swallowed), then the list is emptied.  The disk is the set
    of paths that exist; [base] is [process.env.BASE_UPLOAD_DIR]. *)
Definition clearFiles (base : string) (disk : gset string) (s : UserSession)
    : gset string * UserSession :=
  (foldl (λ d f, d ∖ {[ path_join [base; id s; fileId f] ]}) disk (files s),
   {| id := id s; workerId := workerId s; createdAt := createdAt s;
      lastActivity := lastActivity s;
      files := []; chatHistory := chatHistory s;
      preferences := preferences s |}).

(** The default argument of [cleanupInactive]. *)
Definition idleTimeout : Z := 3600000.

(** [cleanupInactive(timeout = 3600000)] *)
Definition cleanupInactive (timeout : Z) (base : string) (now : Z)
    (disk : gset string) (s : UserSession)
    : bool * gset string * UserSession :=
  if (timeout <? now - lastActivity s)%Z
  then let '(disk', s') := clearFiles base disk s in (true, disk', s')
  else (false, disk, s).

(** [class SessionManager]: [this.sessions = new Map()]. *)
Definition getSession (userId : string) (m : gmap string UserSession)
    : option UserSession := m !! userId.

Definition setSession (userId : string) (s : UserSession)
    (m : gmap string UserSession) : gmap string UserSession :=
  <[userId := s]> m.

Definition createSession (userId : string) (wid : string) (uuid : string)
    (now : Z) (m : gmap string UserSession)
    : UserSession * gmap string UserSession :=
  let s := newUserSession (Some userId) wid uuid now in
  (s, setSession userId s m).

Definition deleteSession (userId : string) (m : gmap string UserSession)
    : gmap string UserSession := delete userId m.

Definition getAllSessions (m : gmap string UserSession) : list UserSession :=
  (map_to_list m).*2.

(** *** server/worker.js: process state *)

Record WorkerStats := mkStats {
  activeConnections : nat;
  requests : nat;
  errors : nat
}.

Record state := mkWorker {
  self : string;                          (* workerId *)
  sessions : gmap string UserSession;     (* sessionManager.sessions *)
  workerStats : WorkerStats;
  disk : gset string
}.

(** *** The session middleware, [app.use(async (req, res, next) => ...)] *)

(** What the middleware leaves on the request and the response. *)
Record Resolved := mkResolved {
  req_userId : string;
  req_session : UserSession;
  res_X_User_ID : option string   (* the response header, when set *)
}.

Definition middleware (header : option string) (uuid : string) (now : Z)
    (w : state) : state * Resolved :=
  let stats' := {| activeConnections := S (activeConnections (workerStats w));
                   requests := S (requests (workerStats w));
                   errors := errors (workerStats w) |} in
  let '(userId, sent) :=
    if truthy header then (default uuid header, None) else (uuid, Some uuid) in
  let '(session, store') :=
    match getSession userId (sessions w) with
    | Some s => (s, sessions w)
    | None => createSession userId (self w) uuid now (sessions w)
    end in
  ({| self := self w; sessions := store'; workerStats := stats';
      disk := disk w |},
   {| req_userId := userId; req_session := session; res_X_User_ID := sent |}).

(** *** The hourly sweep, [setInterval(async () => ..., 3600000)] *)

(** The body of the [for] loop for one element of the list read from the
    store: a session object is constructed anew from the identifiers of
    the stored one, asked whether it is inactive, and the stored session
    is deleted when it says so.  The constructor and the question read
    the clock within the same iteration; both readings are [now]. *)
Definition sweep_one (base : string) (uuid : string) (now : Z)
    (w : state) (sessionData : UserSession) : state :=
  let session := newUserSession (Some (id sessionData)) (workerId sessionData)
                   uuid now in
  let '(inactive, disk', _) :=
    cleanupInactive idleTimeout base now (disk w) session in
  if inactive
  then {| self := self w;
          sessions := deleteSession (id session) (sessions w);
          workerStats := workerStats w; disk := disk' |}
  else {| self := self w; sessions := sessions w;
          workerStats := workerStats w; disk := disk' |}.

(** One tick.  [redisStore] is what the identifier [redisStore] is bound
    to in the module: reading an unbound identifier throws a
    ReferenceError, which the [try]/[catch] around the whole body logs. *)
Definition sweep (redisStore : option (list UserSession)) (base : string)
    (uuid : string) (now : Z) (w : state) : state :=
  match redisStore with
  | None => w
  | Some all => foldl (sweep_one base uuid now) w all
  end.

(** worker.js requires [SessionManager], [FilePathManager], [LockManager]
    and [UserSession] from ./utils/shared and nothing from ./utils/redis;
    no [redisStore] is declared in it. *)
Definition redisStore_binding : option (list UserSession) := None.

Definition sweep_tick (base : string) (uuid : string) (now : Z)
    (w : state) : state :=
  sweep redisStore_binding base uuid now w.

(** *** POST /api/chat/stream *)

(** The [model] field of the JSON body: absent, a string, or a number,
    a boolean or an object that is no array, values on which [includes]
    is no function.  The two other JSON values are left out: [null],
    on which the call fails with another message, and an array, which
    has an [includes] of its own. *)
Inductive ModelField :=
| ModelAbsent
| ModelName (name : string)
| ModelOther.

(** [req.body] as the handler destructures it.  [message] is [None] when
    the field is absent. *)
Record Body := mkBody {
  message : option string;
  model : ModelField;
  max_tokens : Z;
  body_files : list FileInfo
}.

(** The events of the normalised stream, each written as one
    [data: {...}] frame. *)
Inductive Sse :=
| ModelInfo (name : string)
| ModelInfoUnnamed      (* [model_info] whose [model] is [undefined] *)
| Chunk (content : string)
| ErrorEvent (text : string)
| Done.

(** The Express response object: [res.write] sends the headers with the
    first frame, so [headersSent] holds from then on. *)
Record Res := mkRes {
  statusCode : nat;
  headersSent : bool;
  jsonBody : option string;
  frames : list Sse;
  writableEnded : bool
}.

Definition freshRes : Res :=
  {| statusCode := 200; headersSent := false; jsonBody := None;
     frames := []; writableEnded := false |}.

Definition res_write (e : Sse) (r : Res) : Res :=
  if writableEnded r then r
  else {| statusCode := statusCode r; headersSent := true;
          jsonBody := jsonBody r; frames := frames r ++ [e];
          writableEnded := false |}.

Definition res_end (r : Res) : Res :=
  {| statusCode := statusCode r; headersSent := true;
     jsonBody := jsonBody r; frames := frames r; writableEnded := true |}.

(** [res.status(code).json(body)]; the body is kept as a description. *)
Definition res_json (code : nat) (body : string) (r : Res) : Res :=
  {| statusCode := code; headersSent := true; jsonBody := Some body;
     frames := frames r; writableEnded := true |}.

(** The body of the upstream request; the [messages] array built from
    the files and the text is left out, no branch depends on it. *)
Record UpstreamRequest := mkUpstream {
  up_model : string;
  up_max_tokens : Z;
  up_stream : bool
}.

(** Where the handler stands. *)
Inductive Phase :=
| Preparing          (* session stored, files being read *)
| AwaitingUpstream   (* [await axios(...)] pending *)
| Streaming          (* listeners attached to [response.data] *)
| Finished.          (* returned, rejected, ended or errored *)

(** The variables the closures of one request share. *)
Record Chat := mkChat {
  isClientConnected : bool;
  axiosResponse : bool;        (* the variable holds the upstream stream *)
  timeoutId : bool;            (* the variable holds a timer *)
  timerPending : bool;         (* the timer is set, not fired, not cleared *)
  upstreamCall : option UpstreamRequest;   (* the call axios was given *)
  upstreamDestroyed : bool;    (* [destroy()] was called on the stream *)
  buffer : string;
  res : Res;
  errorCount : nat;            (* increments of workerStats.errors *)
  phase : Phase
}.

(** The handler has entered and registered [req.on('close', ...)]. *)
Definition entered : Chat :=
  {| isClientConnected := true; axiosResponse := false; timeoutId := false;
     timerPending := false; upstreamCall := None; upstreamDestroyed := false;
     buffer := EmptyString; res := freshRes; errorCount := 0; phase := Preparing |}.

Definition with_res (r : Res) (c : Chat) : Chat :=
  {| isClientConnected := isClientConnected c;
     axiosResponse := axiosResponse c; timeoutId := timeoutId c;
     timerPending := timerPending c; upstreamCall := upstreamCall c;
     upstreamDestroyed := upstreamDestroyed c; buffer := buffer c;
     res := r; errorCount := errorCount c; phase := phase c |}.

Definition with_phase (p : Phase) (c : Chat) : Chat :=
  {| isClientConnected := isClientConnected c;
     axiosResponse := axiosResponse c; timeoutId := timeoutId c;
     timerPending := timerPending c; upstreamCall := upstreamCall c;
     upstreamDestroyed := upstreamDestroyed c; buffer := buffer c;
     res := res c; errorCount := errorCount c; phase := p |}.

Definition with_buffer (b : string) (c : Chat) : Chat :=
  {| isClientConnected := isClientConnected c;
     axiosResponse := axiosResponse c; timeoutId := timeoutId c;
     timerPending := timerPending c; upstreamCall := upstreamCall c;
     upstreamDestroyed := upstreamDestroyed c; buffer := b;
     res := res c; errorCount := errorCount c; phase := phase c |}.

(** [if (timeoutId) clearTimeout(timeoutId)] *)
Definition clearTimer (c : Chat) : Chat :=
  {| isClientConnected := isClientConnected c;
     axiosResponse := axiosResponse c; timeoutId := timeoutId c;
     timerPending := if timeoutId c then false else timerPending c;
     upstreamCall := upstreamCall c;
     upstreamDestroyed := upstreamDestroyed c; buffer := buffer c;
     res := res c; errorCount := errorCount c; phase := phase c |}.

(** [timeoutId = setTimeout(..., 120000)] *)
Definition setTimer (c : Chat) : Chat :=
  {| isClientConnected := isClientConnected c;
     axiosResponse := axiosResponse c; timeoutId := true;
     timerPending := true; upstreamCall := upstreamCall c;
     upstreamDestroyed := upstreamDestroyed c; buffer := buffer c;
     res := res c; errorCount := errorCount c; phase := phase c |}.

(** [if (axiosResponse && axiosResponse.destroy) axiosResponse.destroy()] *)
Definition destroyUpstream (c : Chat) : Chat :=
  {| isClientConnected := isClientConnected c;
     axiosResponse := axiosResponse c; timeoutId := timeoutId c;
     timerPending := timerPending c; upstreamCall := upstreamCall c;
     upstreamDestroyed := if axiosResponse c then true else upstreamDestroyed c;
     buffer := buffer c;
     res := res c; errorCount := errorCount c; phase := phase c |}.

Definition countError (c : Chat) : Chat :=
  {| isClientConnected := isClientConnected c;
     axiosResponse := axiosResponse c; timeoutId := timeoutId c;
     timerPending := timerPending c; upstreamCall := upstreamCall c;
     upstreamDestroyed := upstreamDestroyed c; buffer := buffer c;
     res := res c; errorCount := S (errorCount c); phase := phase c |}.

(** The block every failure path repeats:
    [if (isClientConnected && !res.headersSent) { write error; write done; end }] *)
Definition reportError (text : string) (c : Chat) : Chat :=
  if isClientConnected c && negb (headersSent (res c))
  then with_res (res_end (res_write Done (res_write (ErrorEvent text) (res c)))) c
  else c.

(** [req.on('close', ...)] *)
Definition on_close (c : Chat) : Chat :=
  let c1 :=
    {| isClientConnected := false;
       axiosResponse := axiosResponse c; timeoutId := timeoutId c;
       timerPending := timerPending c; upstreamCall := upstreamCall c;
       upstreamDestroyed := upstreamDestroyed c; buffer := buffer c;
       res := res c; errorCount := errorCount c; phase := phase c |} in
  clearTimer (destroyUpstream c1).

(** The callback of [setTimeout]; afterwards the timer is spent. *)
Definition on_timeout (c : Chat) : Chat :=
  let c1 :=
    {| isClientConnected := isClientConnected c;
       axiosResponse := axiosResponse c; timeoutId := timeoutId c;
       timerPending := false; upstreamCall := upstreamCall c;
       upstreamDestroyed := upstreamDestroyed c; buffer := buffer c;
       res := res c; errorCount := errorCount c; phase := phase c |} in
  destroyUpstream (reportError "请求超时" c1).

(** [getCurrentModelCapabilities(model).name].  [capabilities[modelId]]
    finds the five entries of the literal and what every object
    inherits from [Object.prototype]: under [constructor] the function
    [Object], whose name is Object; under [__proto__] the prototype
    itself, which has no name; under the other inherited names a
    function whose name is the key.  Anything else is falsy and the
    fallback names the model by its id. *)
Definition capabilityName (m : string) : option string :=
  if String.eqb m "deepseek-ai/DeepSeek-V3.2" then Some "DeepSeek-V3.2"
  else if String.eqb m "deepseek-ai/DeepSeek-OCR" then Some "DeepSeek-OCR"
  else if String.eqb m "Qwen/Qwen3-VL-32B-Instruct" then Some "Qwen3-VL-32B"
  else if String.eqb m "Qwen/Qwen2.5-VL-72B-Instruct" then Some "Qwen2.5-VL-72B"
  else if String.eqb m "Qwen/Qwen2.5-72B-Instruct" then Some "Qwen2.5-72B"
  else if String.eqb m "constructor" then Some "Object"
  else if String.eqb m "__proto__" then None
  else Some m.

(** The [model_info] frame; [JSON.stringify] leaves out a field that is
    [undefined]. *)
Definition modelInfo (m : string) : Sse :=
  match capabilityName m with
  | Some name => ModelInfo name
  | None => ModelInfoUnnamed
  end.

Definition adjustedMaxTokens (m : string) (requested : Z) : Z :=
  if includes "Qwen2.5-VL-72B" m then Z.min requested 8192
  else if includes "DeepSeek-V3.2" m || includes "DeepSeek-OCR" m
       then Z.min requested 32768
  else if includes "Qwen3-VL-32B" m then Z.min requested 32768
  else requested.

(** The outermost [catch (error)]. *)
Definition outer_catch (text : string) (c : Chat) : Chat :=
  with_phase Finished
    (reportError ("服务器错误: " +:+ text) (clearTimer (countError c))).

(** The handler from the point where the session is stored and the
    files are read up to [await axios(...)]: the emptiness check, the
    headers, the timer, the connection check, the model frame and the
    upstream call. *)
Definition prepared (b : Body) (c : Chat) : Chat :=
  if negb (truthy (message b)) && (length (body_files b) =? 0)%nat
  then with_phase Finished
         (with_res (res_json 400 "error: 消息内容不能为空" (res c)) c)
  else
    match model b with
    | ModelOther => outer_catch "model.includes is not a function" c
    | _ =>
        let m := match model b with
                 | ModelName n => n
                 | _ => "Qwen/Qwen2.5-72B-Instruct"
                 end in
        let c1 := setTimer c in
        if negb (isClientConnected c1)
        then with_phase Finished (clearTimer c1)
        else
          let c2 := with_res (res_write (modelInfo m) (res c1)) c1 in
          {| isClientConnected := isClientConnected c2;
             axiosResponse := axiosResponse c2; timeoutId := timeoutId c2;
             timerPending := timerPending c2;
             upstreamCall :=
               Some {| up_model := m;
                       up_max_tokens := adjustedMaxTokens m (max_tokens b);
                       up_stream := true |};
             upstreamDestroyed := upstreamDestroyed c2; buffer := buffer c2;
             res := res c2; errorCount := errorCount c2;
             phase := AwaitingUpstream |}
    end.

(** [axiosResponse = response.data] and the three listeners. *)
Definition on_resolve (c : Chat) : Chat :=
  {| isClientConnected := isClientConnected c;
     axiosResponse := true; timeoutId := timeoutId c;
     timerPending := timerPending c; upstreamCall := upstreamCall c;
     upstreamDestroyed := upstreamDestroyed c; buffer := EmptyString;
     res := res c; errorCount := errorCount c; phase := Streaming |}.

(** [catch (apiError)]: [status] is [apiError.response.status] when the
    upstream answered. *)
Definition on_reject (status : option nat) (c : Chat) : Chat :=
  let text := match status with
              | Some n => "API错误: " +:+ pretty n
              | None => "API请求失败"
              end in
  with_phase Finished (reportError text (clearTimer (countError c))).

Section Stream.

(** [JSON.parse(data)] followed by [parsed.choices[0]?.delta?.content]:
    the content when the frame parses and carries a truthy one. *)
Variable parse_content : string → option string.

(** One line of the upstream stream. *)
Definition on_line (c : Chat) (line : string) : Chat :=
  if String.eqb (js_trim line) EmptyString then c
  else if String.prefix "data: " line then
    let data := slice_from 6 line in
    if String.eqb (js_trim data) "[DONE]" then
      if isClientConnected c then with_res (res_write Done (res c)) c else c
    else
      match parse_content data with
      | Some content =>
          if isClientConnected c
          then with_res (res_write (Chunk content) (res c)) c
          else c
      | None => c
      end
  else c.

(** [response.data.on('data', ...)] *)
Definition on_data (chunk : string) (c : Chat) : Chat :=
  if negb (isClientConnected c)
  then
    {| isClientConnected := isClientConnected c;
       axiosResponse := axiosResponse c; timeoutId := timeoutId c;
       timerPending := timerPending c; upstreamCall := upstreamCall c;
       upstreamDestroyed := true; buffer := buffer c;
       res := res c; errorCount := errorCount c; phase := phase c |}
  else
    let lines := split_lf (buffer c +:+ chunk) in
    let rest := default EmptyString (last lines) in
    foldl on_line (with_buffer rest c) (removelast lines).

(** [response.data.on('end', ...)] *)
Definition on_end (c : Chat) : Chat :=
  let c1 := clearTimer c in
  with_phase Finished
    (if isClientConnected c1 && negb (headersSent (res c1))
     then with_res (res_end (res_write Done (res c1))) c1
     else c1).

(** [response.data.on('error', ...)] *)
Definition on_error (text : string) (c : Chat) : Chat :=
  with_phase Finished
    (reportError ("流式传输错误: " +:+ text) (clearTimer (countError c))).

(** What the event loop can deliver to one request. *)
Inductive Event :=
| Close
| Prepared (b : Body)
| Resolve
| Reject (status : option nat)
| Data (chunk : string)
| End_
| StreamError (text : string)
| Timeout.

(** Delivery.  A callback runs only when its source can fire: the timer
    while it is pending, the promise while it is awaited, the stream
    while it is attached and not destroyed. *)
Definition deliver (c : Chat) (e : Event) : Chat :=
  match e, phase c with
  | Close, _ => on_close c
  | Timeout, _ => if timerPending c then on_timeout c else c
  | Prepared b, Preparing => prepared b c
  | Resolve, AwaitingUpstream => on_resolve c
  | Reject status, AwaitingUpstream => on_reject status c
  | Data chunk, Streaming =>
      if upstreamDestroyed c then c else on_data chunk c
  | End_, Streaming => if upstreamDestroyed c then c else on_end c
  | StreamError text, Streaming =>
      if upstreamDestroyed c then c else on_error text c
  | _, _ => c
  end.

Definition deliver_all (es : list Event) (c : Chat) : Chat :=
  foldl deliver c es.

(** One request with its connection.  The handler adds its [close]
    listener when it is entered (line 513), to the request as
    [express.json] (line 37) and the session middleware (lines 39 to
    60) have left it; a listener only hears what is emitted after it
    was added. *)
Record Conn := mkConn {
  request : Incoming.Request;
  chat : Chat
}.

Definition enter (r : Incoming.Request) : Conn :=
  {| request := r; chat := entered |}.

(** What happens to a request once its handler has been entered: the
    client's socket closes, or the event loop delivers something to the
    handler.  The [close] listener is called by the request alone. *)
Inductive Happening :=
| Disconnect
| Loop (e : Event).

Definition happen (k : Conn) (h : Happening) : Conn :=
  match h with
  | Disconnect =>
      let '(r, emitted) := Incoming.socket_closed (request k) in
      {| request := r;
         chat := if emitted then deliver (chat k) Close else chat k |}
  | Loop Close => k
  | Loop e => {| request := request k; chat := deliver (chat k) e |}
  end.

(** What the event loop delivered, in order. *)
Definition delivered (hs : list Happening) : list Event :=
  omap (λ h, match h with
             | Loop Close | Disconnect => None
             | Loop e => Some e
             end) hs.

End Stream.

(** The upstream call is outstanding: issued, not settled, not destroyed. *)
Definition outstanding (c : Chat) : bool :=
  match phase c with
  | AwaitingUpstream | Streaming => negb (upstreamDestroyed c)
  | _ => false
  end.

(** The variables of a request apart from the response and the buffer. *)
Definition vars (c : Chat) :=
  (isClientConnected c, axiosResponse c, timeoutId c, timerPending c,
   upstreamCall c, upstreamDestroyed c, errorCount c, phase c).

(** Frames of type [chunk]. *)
Definition is_chunk (e : Sse) : bool :=
  match e with Chunk _ => true | _ => false end.

Definition chunks (r : Res) : list Sse := List.filter is_chunk (frames r).

(** A stand-in for the JSON reader in examples: a payload [c=...] has
    the content that follows the sign, anything else has none. *)
Definition toy_parse (data : string) : option string :=
  if String.prefix "c=" data then Some (slice_from 2 data) else None.

(** *** Invariant of a request, and values for examples *)

(** What holds of the variables of a request at every point of a run. *)
Record Inv (c : Chat) : Prop := mkInv {
  inv_timer : timerPending c = true → timeoutId c = true;
  inv_preparing : phase c = Preparing →
                  res c = freshRes ∧ upstreamCall c = None ∧
                  timerPending c = false;
  inv_phase : phase c = AwaitingUpstream ∨ phase c = Streaming →
              is_Some (upstreamCall c);
  inv_called : is_Some (upstreamCall c) →
               headersSent (res c) = true ∧ writableEnded (res c) = false
}.

(** A worker that has served nothing yet. *)
Definition idle_worker : state :=
  {| self := "1"; sessions := ∅;
     workerStats := {| activeConnections := 0; requests := 0; errors := 0 |};
     disk := ∅ |}.

(** A session last active two hours before the tick, with one file. *)
Definition stale_session : UserSession :=
  {| id := "u1"; workerId := "1"; createdAt := 0; lastActivity := 0;
     files := [ {| fileId := "a.png"; fileName := "a.png";
                   fileType := "image/png"; filePath := "u1/a.png";
                   fileUrl := "/uploads/u1/a.png" |} ];
     chatHistory := []; preferences := ∅ |}.

Definition stale_worker : state :=
  {| self := "1"; sessions := {[ "u1" := stale_session ]};
     workerStats := {| activeConnections := 0; requests := 1; errors := 0 |};
     disk := {[ "uploads/u1/a.png" ]} |}.

(** A request with a text and no file, for a known model. *)
Definition hello : Body :=
  {| message := Some "hello";
     model := ModelName "Qwen/Qwen2.5-72B-Instruct";
     max_tokens := 4000;
     body_files := [] |}.



End Worker.

(** ** The OpenWebUI bridge: conversation history *)

Module Bridge.

Inductive Role := System | User | Assistant.

Record Message := mkMessage { role : Role; content : string }.

Definition is_system (m : Message) : bool :=
  match role m with System => true | _ => false end.

(** An attachment as [pushUserMessage] reads it. *)
Record Attachment := mkAttachment {
  att_name : option string;
  att_id : option string;
  att_url : option string
}.

Definition LF : string := String "010"%char EmptyString.

(** [arr.slice(start)] for an integer [start]: a negative start counts
    from the end, [-0] is [0]. *)
Definition js_slice {A} (start : Z) (l : list A) : list A :=
  let len := Z.of_nat (length l) in
  let k := if (start <? 0)%Z then Z.max (len + start) 0 else Z.min start len in
  drop (Z.to_nat k) l.

(** [arr.join(sep)] *)
Definition js_join (sep : string) (l : list string) : string :=
  match l with
  | [] => EmptyString
  | x :: rest => foldl (λ acc y, acc +:+ sep +:+ y) x rest
  end.

Section Config.

(** [Number(process.env.MAX_HISTORY_TURNS || 20)], an integer, and
    [process.env.SYSTEM_PROMPT || '...']. *)
Variable MAX_HISTORY_TURNS : Z.
Variable DEFAULT_SYSTEM_PROMPT : string.

Definition systemEntry : Message :=
  {| role := System; content := DEFAULT_SYSTEM_PROMPT |}.

(** [truncateConversation(history)] *)
Definition truncateConversation (history : list Message) : list Message :=
  let system := default systemEntry (List.find is_system history) in
  let rest := List.filter (λ m, negb (is_system m)) history in
  let trimmed := js_slice (- MAX_HISTORY_TURNS * 2) rest in
  system :: trimmed.

(** One line of the attachment context. *)
Definition attachmentLine (idx : nat) (f : Attachment) : string :=
  pretty (idx + 1) +:+ ". " +:+
  (if truthy (att_name f) then default EmptyString (att_name f)
   else or_default (att_id f) "未命名附件") +:+ " " +:+
  (if truthy (att_url f) then "(" +:+ default EmptyString (att_url f) +:+ ")" else EmptyString).

(** The entry [pushUserMessage(history, message, files)] appends. *)
Definition userEntry (message : option string) (files : list Attachment)
    : Message :=
  let text := or_default message EmptyString in
  let finalText :=
    match files with
    | [] => text
    | _ => text +:+ LF +:+ LF +:+ "[附件上下文]" +:+ LF +:+
           js_join LF (imap attachmentLine files)
    end in
  {| role := User;
     content := or_default (Some (js_trim finalText)) "请结合已上传文件进行分析。" |}.

Definition pushUserMessage (history : list Message) (message : option string)
    (files : list Attachment) : list Message :=
  history ++ [userEntry message files].

(** [pushAssistantMessage(history, text)]: an empty text appends nothing. *)
Definition pushAssistantMessage (history : list Message) (text : option string)
    : list Message :=
  let clean := js_trim (or_default text EmptyString) in
  if String.eqb clean EmptyString then history
  else history ++ [{| role := Assistant; content := clean |}].

(** Arrays are objects: [heap] holds every history array ever created,
    by reference, and [conversationStore] maps a user to the reference
    of the array stored for them.  [push] changes an array in place,
    [truncateConversation] builds a new one. *)
Record state := mkState {
  heap : list (list Message);
  conversationStore : gmap string nat
}.

Definition init : state := {| heap := []; conversationStore := ∅ |}.

Definition deref (st : state) (r : nat) : list Message :=
  default [] (heap st !! r).

(** The array stored for a user, if any. *)
Definition stored (st : state) (userId : string) : option (list Message) :=
  r ← conversationStore st !! userId; heap st !! r.

(** [conversationStore.set(userId, arr)] for a newly built array. *)
Definition set_new (userId : string) (arr : list Message) (st : state)
    : nat * state :=
  let r := length (heap st) in
  (r, {| heap := heap st ++ [arr];
         conversationStore := <[userId := r]> (conversationStore st) |}).

(** In-place change of the array behind a reference. *)
Definition mutate (r : nat) (f : list Message → list Message) (st : state)
    : state :=
  {| heap := alter f r (heap st);
     conversationStore := conversationStore st |}.

(** [getConversation(userId)] returns the stored array itself. *)
Definition getConversation (userId : string) (st : state) : nat * state :=
  match conversationStore st !! userId with
  | Some r => (r, st)
  | None => set_new userId [systemEntry] st
  end.

(** What the first part of POST /api/chat/stream leaves behind. *)
Inductive Begun :=
| Refused                                  (* error frame and [DONE] *)
| Asked (history : nat) (boundedHistory : list Message).

(** POST /api/chat/stream up to [await request.post(...)]. *)
Definition chat_begin (userId : string) (message : option string)
    (files : list Attachment) (st : state) : Begun * state :=
  let '(history, st1) := getConversation userId st in
  if negb (truthy message) && (length files =? 0)%nat then (Refused, st1)
  else
    let st2 := mutate history (λ h, pushUserMessage h message files) st1 in
    (Asked history (truncateConversation (deref st2 history)), st2).

(** [response.data.on('end', ...)] of the request that holds [history]. *)
Definition chat_end (userId : string) (history : nat)
    (assistantText : option string) (st : state) : state :=
  let st1 := mutate history (λ h, pushAssistantMessage h assistantText) st in
  snd (set_new userId (truncateConversation (deref st1 history)) st1).

(** POST /api/session/reset *)
Definition session_reset (userId : string) (st : state) : state :=
  snd (set_new userId [systemEntry] st).

(** The properties of one history. *)
Definition system_first (h : list Message) : bool :=
  match h with
  | m :: rest => is_system m && forallb (λ x, negb (is_system x)) rest
  | [] => false
  end.

Fixpoint no_consecutive_system (h : list Message) : bool :=
  match h with
  | a :: ((b :: _) as rest) =>
      negb (is_system a && is_system b) && no_consecutive_system rest
  | _ => true
  end.

Definition turns (h : list Message) : nat :=
  length (List.filter (λ m, negb (is_system m)) h).

Definition bounded (h : list Message) : Prop :=
  (Z.of_nat (turns h) ≤ 2 * MAX_HISTORY_TURNS)%Z.

(** Every array ever created starts with its one system entry. *)
Definition well_formed (st : state) : Prop :=
  Forall (λ h, system_first h = true) (heap st).

End Config.

(** A history that holds [n] exchanges after the system entry. *)
Fixpoint exchanges (n : nat) : list Message :=
  match n with
  | O => []
  | S n' => {| role := User; content := "q" |}
            :: {| role := Assistant; content := "a" |} :: exchanges n'
  end.

Definition non_system (m : Message) : bool := negb (is_system m).


(** The default configuration, and a user whose stored history holds
    twenty exchanges, as many as the default allows. *)
Definition full_history : list Message :=
  systemEntry "prompt" :: exchanges 20.

Definition full_store : state :=
  {| heap := [full_history];
     conversationStore := {[ "u1" := 0 ]} |}.


End Bridge.

(** ** The process manager (cluster master) *)

Module ProcessManager.

(** A JavaScript [Map] with number keys, in insertion order: [set] on a
    present key keeps its place, iteration follows the list. *)
Fixpoint map_set {V} (k : nat) (v : V) (m : list (nat * V)) : list (nat * V) :=
  match m with
  | [] => [(k, v)]
  | (k', v') :: rest =>
      if Nat.eqb k' k then (k, v) :: rest else (k', v') :: map_set k v rest
  end.

Fixpoint map_get {V} (k : nat) (m : list (nat * V)) : option V :=
  match m with
  | [] => None
  | (k', v') :: rest => if Nat.eqb k' k then Some v' else map_get k rest
  end.

Fixpoint map_delete {V} (k : nat) (m : list (nat * V)) : list (nat * V) :=
  match m with
  | [] => []
  | (k', v') :: rest =>
      if Nat.eqb k' k then rest else (k', v') :: map_delete k rest
  end.

Record Config := mkConfig {
  workerCount : nat;
  basePort : nat;
  maxMemoryRestart : Z;    (* MB *)
  maxUptimeRestart : Z     (* ms *)
}.

(** A forked process: the environment [cluster.fork] gave it. *)
Record Process := mkProcess {
  WORKER_ID : nat;
  WORKER_PORT : nat;
  dead : bool
}.

(** An entry of [this.workers]; the process handle is its pid. *)
Record WorkerInfo := mkInfo {
  pid : nat;
  startedAt : Z;
  restarts : nat
}.

(** A [stats] message as [checkWorkers] reads it: [memory.rss] in bytes. *)
Record Stats := mkStats { rss : Z }.

(** A key of [this.stats].  A [Map] tells the number 1 from the string
    '1'.  The master reads and deletes with the number [id]; it stores
    under [message.workerId], which worker.js takes from
    [process.env.WORKER_ID], a string. *)
Inductive StatsKey :=
| NumberKey (id : nat)
| TextKey (workerId : string).

Definition same_key (a b : StatsKey) : bool :=
  match a, b with
  | NumberKey i, NumberKey j => Nat.eqb i j
  | TextKey x, TextKey y => String.eqb x y
  | _, _ => false
  end.

Fixpoint stats_set (k : StatsKey) (v : Stats) (m : list (StatsKey * Stats))
    : list (StatsKey * Stats) :=
  match m with
  | [] => [(k, v)]
  | (k', v') :: rest =>
      if same_key k' k then (k, v) :: rest else (k', v') :: stats_set k v rest
  end.

Fixpoint stats_get (k : StatsKey) (m : list (StatsKey * Stats))
    : option Stats :=
  match m with
  | [] => None
  | (k', v') :: rest => if same_key k' k then Some v' else stats_get k rest
  end.

Fixpoint stats_delete (k : StatsKey) (m : list (StatsKey * Stats))
    : list (StatsKey * Stats) :=
  match m with
  | [] => []
  | (k', v') :: rest =>
      if same_key k' k then rest else (k', v') :: stats_delete k rest
  end.

(** The master: its two maps and the table of processes it has forked,
    in which the position of a process is its pid. *)
Record state := mkState {
  config : Config;
  workers : list (nat * WorkerInfo);
  stats : list (StatsKey * Stats);
  processes : list Process
}.

Definition fresh (cfg : Config) : state :=
  {| config := cfg; workers := []; stats := []; processes := [] |}.

(** [forkWorker(id)] *)
Definition forkWorker (id : nat) (now : Z) (st : state) : state :=
  let p := length (processes st) in
  {| config := config st;
     workers := map_set id {| pid := p; startedAt := now; restarts := 0 |}
                  (workers st);
     stats := stats st;
     processes := processes st ++
       [{| WORKER_ID := id;
           WORKER_PORT := basePort (config st) + id - 1;
           dead := false |}] |}.

(** [findWorkerIdByPid(pid)] *)
Fixpoint findIn (p : nat) (m : list (nat * WorkerInfo)) : option nat :=
  match m with
  | [] => None
  | (id, info) :: rest => if Nat.eqb (pid info) p then Some id else findIn p rest
  end.

Definition findWorkerIdByPid (p : nat) (st : state) : option nat :=
  findIn p (workers st).

(** The process with pid [p] is gone. *)
Definition mark_dead (p : nat) (st : state) : state :=
  {| config := config st; workers := workers st; stats := stats st;
     processes :=
       alter (λ q, {| WORKER_ID := WORKER_ID q; WORKER_PORT := WORKER_PORT q;
                      dead := true |}) p (processes st) |}.

(** [cluster.on('exit', ...)] for the process with pid [p]; an id of 0
    is falsy and fails [if (workerId)]. *)
Definition on_exit (p : nat) (now : Z) (st : state) : state :=
  let st0 := mark_dead p st in
  match findWorkerIdByPid p st0 with
  | Some (S n) =>
      let id := S n in
      forkWorker id now
        {| config := config st0;
           workers := map_delete id (workers st0);
           stats := stats_delete (NumberKey id) (stats st0);
           processes := processes st0 |}
  | _ => st0
  end.

(** [cluster.on('message', ...)] for a stats message of a worker. *)
Definition on_stats (workerId : string) (s : Stats) (st : state) : state :=
  {| config := config st; workers := workers st;
     stats := stats_set (TextKey workerId) s (stats st);
     processes := processes st |}.

(** [setupMaster()]: the initial forks. *)
Definition setupMaster (cfg : Config) (now : Z) : state :=
  foldl (λ st i, forkWorker i now st) (fresh cfg) (seq 1 (workerCount cfg)).

(** The test of [checkWorkers] for one entry: memory first, then uptime;
    [rss / 1024 / 1024 > max] is compared without the division. *)
Definition needsRestart (id : nat) (info : WorkerInfo) (now : Z) (st : state)
    : bool :=
  match stats_get (NumberKey id) (stats st) with
  | Some s =>
      (maxMemoryRestart (config st) * 1024 * 1024 <? rss s)%Z
      || (maxUptimeRestart (config st) <? now - startedAt info)%Z
  | None => false
  end.

(** [restartWorker(id)] up to its [await]: the entry it captured. *)
Definition restart_begin (id : nat) (st : state) : option WorkerInfo :=
  map_get id (workers st).

(** The timer of [restartWorker] after ten seconds: a worker that is not
    dead is killed; the promise resolves at once. *)
Definition restart_timeout (info : WorkerInfo) (st : state) : state :=
  match processes st !! pid info with
  | Some q => if dead q then st else mark_dead (pid info) st
  | None => st
  end.

(** [restartWorker(id)] after its [await], with the captured entry. *)
Definition restart_finish (id : nat) (info : WorkerInfo) (now : Z)
    (st : state) : state :=
  let st1 := forkWorker id now st in
  match map_get id (workers st1) with
  | Some fresh_info =>
      {| config := config st1;
         workers := map_set id {| pid := pid fresh_info;
                                  startedAt := startedAt fresh_info;
                                  restarts := restarts info + 1 |}
                      (workers st1);
         stats := stats st1; processes := processes st1 |}
  | None => st1
  end.

(** A graceful restart in which the worker leaves by itself: its exit
    reaches the cluster listener, then the awaited promise continues. *)
Definition graceful_restart (id : nat) (t_exit t_fork : Z) (st : state)
    : state :=
  match restart_begin id st with
  | Some info => restart_finish id info t_fork (on_exit (pid info) t_exit st)
  | None => st
  end.

(** A graceful restart in which the worker has to be killed: the timer
    resolves the promise, the exit of the killed process arrives later. *)
Definition forced_restart (id : nat) (t_fork t_exit : Z) (st : state)
    : state :=
  match restart_begin id st with
  | Some info =>
      on_exit (pid info) t_exit
        (restart_finish id info t_fork (restart_timeout info st))
  | None => st
  end.

(** The environment of the process registered for [id]. *)
Definition registered (id : nat) (st : state) : option (Process * WorkerInfo) :=
  info ← map_get id (workers st);
  q ← processes st !! pid info;
  Some (q, info).

(** The configuration of process-manager.js with four workers. *)
Definition four_workers : Config :=
  {| workerCount := 4; basePort := 3001; maxMemoryRestart := 1024;
     maxUptimeRestart := 86400000 |}.


End ProcessManager.

(** ** The two start scripts *)

Module Supervisor.

Inductive Target := BalancerProcess | WorkerProcess (id : nat).

Inductive Effect :=
| Kill (t : Target) (signal : string)
| Exit (code : Z).

(** The two scripts of the repository that start the balancer and the
    workers and install a shutdown handler. *)
Inductive Script :=
| ServerStart      (* server/start.js *)
| StartCluster.    (* start-cluster.js *)

(** The functions handed to [setTimeout]. *)
Inductive Callback :=
| KillWorkers            (* start.js, after 1000 ms *)
| ExitProcess            (* start.js, after a further 3000 ms *)
| KillBalancerAndExit.   (* start-cluster.js, after 5000 ms *)

Record state := mkState {
  script : Script;
  workers : list nat;               (* the ids pushed at start-up *)
  balancerKilled : bool;            (* [loadBalancer.killed] *)
  timers : list (Z * Callback);     (* due time and function *)
  trace : list (Z * Effect);        (* what was done, and when *)
  exited : bool
}.

Definition running (s : Script) (ids : list nat) : state :=
  {| script := s; workers := ids; balancerKilled := false; timers := [];
     trace := []; exited := false |}.

Definition emit (now : Z) (es : list Effect) (st : state) : state :=
  {| script := script st; workers := workers st;
     balancerKilled := balancerKilled st; timers := timers st;
     trace := trace st ++ map (pair now) es; exited := exited st |}.

Definition setTimeout (now : Z) (cb : Callback) (delay : Z) (st : state)
    : state :=
  {| script := script st; workers := workers st;
     balancerKilled := balancerKilled st;
     timers := timers st ++ [((now + delay)%Z, cb)];
     trace := trace st; exited := exited st |}.

Definition killBalancer (now : Z) (st : state) : state :=
  let st' := emit now [Kill BalancerProcess "SIGTERM"] st in
  {| script := script st'; workers := workers st'; balancerKilled := true;
     timers := timers st'; trace := trace st'; exited := exited st' |}.

Definition killWorkers (now : Z) (st : state) : state :=
  emit now (map (λ i, Kill (WorkerProcess i) "SIGTERM") (workers st)) st.

Definition exit (now : Z) (code : Z) (st : state) : state :=
  let st' := emit now [Exit code] st in
  {| script := script st'; workers := workers st';
     balancerKilled := balancerKilled st'; timers := [];
     trace := trace st'; exited := true |}.

(** [shutdown] of either script, run at time [now]. *)
Definition shutdown (now : Z) (st : state) : state :=
  match script st with
  | ServerStart =>
      let st1 := if balancerKilled st then st else killBalancer now st in
      setTimeout now KillWorkers 1000 st1
  | StartCluster =>
      setTimeout now KillBalancerAndExit 5000 (killWorkers now st)
  end.

Definition fire (now : Z) (cb : Callback) (st : state) : state :=
  match cb with
  | KillWorkers => setTimeout now ExitProcess 3000 (killWorkers now st)
  | ExitProcess => exit now 0 st
  | KillBalancerAndExit => exit now 0 (killBalancer now st)
  end.

(** The timer that is due first; of two due together, the older. *)
Fixpoint next_timer (ts : list (Z * Callback))
    : option ((Z * Callback) * list (Z * Callback)) :=
  match ts with
  | [] => None
  | t :: rest =>
      match next_timer rest with
      | Some (t', rest') =>
          if (fst t' <? fst t)%Z then Some (t', t :: rest') else Some (t, rest)
      | None => Some (t, [])
      end
  end.

(** The event loop after the signal: timers fire in order until the
    process exits or none is left. *)
Fixpoint loop (fuel : nat) (st : state) : state :=
  match fuel with
  | O => st
  | S fuel' =>
      if exited st then st
      else match next_timer (timers st) with
           | Some ((due, cb), rest) =>
               loop fuel'
                 (fire due cb
                    {| script := script st; workers := workers st;
                       balancerKilled := balancerKilled st; timers := rest;
                       trace := trace st; exited := exited st |})
           | None => st
           end
  end.

(** A termination signal at time [now] on a running supervisor. *)
Definition on_signal (s : Script) (ids : list nat) (now : Z) : state :=
  loop 3 (shutdown now (running s ids)).

(** The time at which the balancer is signalled, if it is. *)
Definition balancer_signalled (tr : list (Z * Effect)) : option Z :=
  fst <$> List.find (λ e, match snd e with
                          | Kill BalancerProcess _ => true
                          | _ => false
                          end) tr.

Definition is_worker_kill (e : Z * Effect) : bool :=
  match snd e with Kill (WorkerProcess _) _ => true | _ => false end.

Definition is_exit (e : Z * Effect) : bool :=
  match snd e with Exit _ => true | _ => false end.

(** The order the shutdown is meant to follow: the balancer is signalled,
    every worker strictly later, and the exit comes last, no later than
    [grace] after the signal arrived at [now]. *)
Definition balancer_first (now grace : Z) (ids : list nat)
    (tr : list (Z * Effect)) : Prop :=
  ∃ tb, balancer_signalled tr = Some tb ∧
    (∀ i, i ∈ ids → ∃ tw, (tw, Kill (WorkerProcess i) "SIGTERM") ∈ tr) ∧
    (∀ tw e, (tw, e) ∈ tr → is_worker_kill (tw, e) = true → (tb < tw)%Z) ∧
    (∃ te code, (te, Exit code) ∈ tr ∧ (te ≤ now + grace)%Z ∧
       ∀ t e, (t, e) ∈ tr → (t ≤ te)%Z).

End Supervisor.

(** ** File upload (worker.js) *)

Module Upload.

(** *** Node's [path.extname] and [String.prototype.toLowerCase] *)

Definition slash : ascii := "/"%char.
Definition dot : ascii := "."%char.

Fixpoint take_until (a : ascii) (l : list ascii) : list ascii :=
  match l with
  | [] => []
  | c :: l' => if Ascii.eqb c a then [] else c :: take_until a l'
  end.

(** What follows the first [a], when there is one. *)
Fixpoint after_first (a : ascii) (l : list ascii) : option (list ascii) :=
  match l with
  | [] => None
  | c :: l' => if Ascii.eqb c a then Some l' else after_first a l'
  end.

Fixpoint drop_leading (a : ascii) (l : list ascii) : list ascii :=
  match l with
  | c :: l' => if Ascii.eqb c a then drop_leading a l' else l
  | [] => []
  end.

(** The last component of a path, reversed: trailing separators are
    skipped, then everything up to the next separator is taken. *)
Definition basename_rev (p : string) : list ascii :=
  take_until slash (drop_leading slash (rev (list_ascii_of_string p))).

(** [path.extname(p)] with POSIX separators: from the last dot of the
    last component to its end; empty when there is no dot, when the only
    dot is the first character, and for the component [..]. *)
Definition extname (p : string) : string :=
  let b := basename_rev p in
  match after_first dot b with
  | None => EmptyString
  | Some before =>
      let e := take_until dot b in
      match before, e with
      | [], _ => EmptyString
      | [c], [] => if Ascii.eqb c dot then EmptyString else "."
      | _, _ => string_of_list_ascii (dot :: rev e)
      end
  end.

Definition lower (c : ascii) : ascii :=
  let n := nat_of_ascii c in
  if (65 <=? n)%nat && (n <=? 90)%nat then ascii_of_nat (n + 32) else c.

(** [s.toLowerCase()] on the letters A to Z. *)
Fixpoint toLowerCase (s : string) : string :=
  match s with
  | String c s' => String (lower c) (toLowerCase s')
  | EmptyString => EmptyString
  end.

(** *** The tables *)

(** Own properties of an object literal, as a list of pairs. *)
Fixpoint own (table : list (string * string)) (key : string) : option string :=
  match table with
  | [] => None
  | (k, v) :: rest => if String.eqb k key then Some v else own rest key
  end.

(** The property names every object literal inherits from
    [Object.prototype]; each holds a function or an object. *)
Definition inherited : list string :=
  [ "constructor"; "__proto__"; "hasOwnProperty"; "isPrototypeOf";
    "propertyIsEnumerable"; "toLocaleString"; "toString"; "valueOf";
    "__defineGetter__"; "__defineSetter__"; "__lookupGetter__";
    "__lookupSetter__" ].

Definition is_inherited (key : string) : bool :=
  existsb (String.eqb key) inherited.

Definition FILE_TYPE_MAP : list (string * string) :=
  [ ("image/jpeg", "images"); ("image/jpg", "images"); ("image/png", "images");
    ("image/gif", "images"); ("image/webp", "images");
    ("application/pdf", "pdfs");
    ("application/vnd.openxmlformats-officedocument.wordprocessingml.document",
     "others");
    ("application/msword", "others"); ("application/vnd.ms-word", "others");
    ("application/word", "others");
    ("text/plain", "others"); ("text/markdown", "others");
    ("text/html", "others");
    ("audio/mpeg", "audio"); ("audio/wav", "audio"); ("audio/ogg", "audio");
    ("audio/webm", "audio");
    ("application/octet-stream", "others") ].

(** Whether [FILE_TYPE_MAP[mimeType]] is truthy: the own values are
    non-empty strings, the inherited ones functions or objects. *)
Definition in_FILE_TYPE_MAP (mimeType : string) : bool :=
  match own FILE_TYPE_MAP mimeType with
  | Some _ => true
  | None => is_inherited mimeType
  end.

(** [extensionToMimeType] of [fixMimeType]. *)
Definition extensionToMimeType : list (string * string) :=
  [ (".docx",
     "application/vnd.openxmlformats-officedocument.wordprocessingml.document");
    (".doc", "application/msword"); (".pdf", "application/pdf");
    (".txt", "text/plain"); (".md", "text/markdown"); (".html", "text/html");
    (".htm", "text/html"); (".jpg", "image/jpeg"); (".jpeg", "image/jpeg");
    (".png", "image/png"); (".gif", "image/gif"); (".webp", "image/webp") ].

(** The object [supportedExtensions] of [fileFilter]. *)
Definition supportedExtensions : list (string * string) :=
  [ (".docx",
     "application/vnd.openxmlformats-officedocument.wordprocessingml.document");
    (".doc", "application/msword"); (".pdf", "application/pdf");
    (".txt", "text/plain"); (".md", "text/markdown"); (".html", "text/html");
    (".jpg", "image/jpeg"); (".jpeg", "image/jpeg");
    (".png", "image/png"); (".gif", "image/gif"); (".webp", "image/webp") ].

(** The array [supportedExtensions] further down in [fileFilter]. *)
Definition supportedExtensionList : list string :=
  [ ".docx"; ".doc"; ".pdf"; ".txt"; ".md"; ".html"; ".jpg"; ".jpeg";
    ".png"; ".gif"; ".webp" ].

Definition SUPPORTED_VISION_TYPES : list string :=
  [ "image/jpeg"; "image/jpg"; "image/png"; "image/gif"; "image/webp" ].

Definition SUPPORTED_DOCUMENT_TYPES : list string :=
  [ "application/pdf";
    "application/vnd.openxmlformats-officedocument.wordprocessingml.document";
    "application/msword"; "text/plain"; "text/markdown"; "text/html" ].

(** *** [fixMimeType], [fileFilter], [generateFileName] *)

Definition fixMimeType (fileName currentMimeType : string) : string :=
  let extension := toLowerCase (extname fileName) in
  if String.eqb currentMimeType "application/octet-stream"
     || negb (in_FILE_TYPE_MAP currentMimeType)
     || String.eqb currentMimeType "application/msword"
  then match own extensionToMimeType extension with
       | Some correctMimeType => correctMimeType
       | None => currentMimeType
       end
  else currentMimeType.

(** A part of the multipart body as multer hands it to the filter. *)
Record Part := mkPart {
  originalname : string;
  mimetype : string;
  size : nat
}.

Definition with_mimetype (m : string) (f : Part) : Part :=
  {| originalname := originalname f; mimetype := m; size := size f |}.

(** [fileFilter]: the accepted part, whose type may have been
    corrected, or the message of the error. *)
Definition fileFilter (file : Part) : Part + string :=
  let mimeType := mimetype file in
  let originalName := originalname file in
  let extension := toLowerCase (extname originalName) in
  if in_FILE_TYPE_MAP mimeType then inl file
  else
    let by_table :=
      if String.eqb mimeType "application/octet-stream"
         || negb (in_FILE_TYPE_MAP mimeType)
      then own supportedExtensions extension
      else None in
    match by_table with
    | Some m => inl (with_mimetype m file)
    | None =>
        if existsb (String.eqb extension) supportedExtensionList
        then inl file
        else inr ("不支持的文件类型: " +:+ originalName +:+ " (" +:+ mimeType
                  +:+ ")")
    end.

(** [generateFileName(originalName)]; [stamp] is [Date.now()] in
    decimal, [random] the sixteen hexadecimal digits. *)
Definition generateFileName (stamp random : string) (originalName : string)
    : string :=
  let ext := extname (if String.eqb originalName EmptyString then "file"
                      else originalName) in
  stamp +:+ "-" +:+ random +:+ ext.

(** *** The disk storage of multer *)

(** [req.file]: what multer has stored.  [relative] is the path of the
    file below the upload directory. *)
Record Stored := mkStored {
  st_originalname : string;
  st_mimetype : string;
  st_size : nat;
  st_filename : string;
  st_relative : string
}.

(** The category [FILE_TYPE_MAP[mimeType] || 'others'] as a directory
    name: an inherited property is no string and [path.join] throws. *)
Definition category_dir (mimeType : string) : option string :=
  match own FILE_TYPE_MAP mimeType with
  | Some c => Some c
  | None => if is_inherited mimeType then None else Some "others"
  end.

(** Filter, [destination] and [filename] for one part.  [dirStamp] and
    [stamp] are the clock readings of [getUserUploadDir] and of
    [generateFileName], [decoded] is what
    [decodeFileName(file.originalname)] returns; the directories are
    taken to be creatable. *)
Definition receive (userId dirStamp stamp random decoded : string) (file : Part)
    : Stored + string :=
  match fileFilter file with
  | inr e => inr e
  | inl f =>
      let m := fixMimeType (originalname f) (mimetype f) in
      match category_dir m with
      | None => inr "The path argument must be of type string"
      | Some fileType =>
          let safeName := generateFileName stamp random decoded in
          inl {| st_originalname := originalname f;
                 st_mimetype := m;
                 st_size := size f;
                 st_filename := safeName;
                 st_relative :=
                   path_join [userId; dirStamp; fileType; safeName] |}
      end
  end.

(** *** POST /api/upload and GET /api/files *)

(** The descriptor sent back to the client. *)
Record Descriptor := mkDescriptor {
  d_id : string;
  d_name : string;
  d_size : nat;
  d_type : string;
  d_category : option string;    (* absent when the value is no string *)
  d_path : string;
  d_url : string;
  d_deepSeekReady : bool;
  d_supportedByDeepSeek : bool;
  d_uploadedAt : string          (* an ISO date *)
}.

(** An element of [session.files]: the descriptor, with [uploadedAt]
    replaced by a clock reading, and the owner. *)
Record Entry := mkEntry {
  e_descriptor : Descriptor;
  e_uploadedAt : Z;
  e_userId : string
}.

(** [UserSession.addFile] and [UserSession.removeFile] on the array. *)
Definition addFile (sessionId : string) (now : Z) (fileInfo : Descriptor)
    (entries : list Entry) : list Entry :=
  entries ++ [{| e_descriptor := fileInfo; e_uploadedAt := now;
                 e_userId := sessionId |}].

Definition removeFile (fileId : string) (entries : list Entry) : list Entry :=
  List.filter (λ f, negb (String.eqb (d_id (e_descriptor f)) fileId)) entries.

Definition describe (decodedFileName : string) (iso : string) (file : Stored)
    : Descriptor :=
  let originalName :=
    if negb (String.eqb decodedFileName EmptyString) then decodedFileName
    else if negb (String.eqb (st_originalname file) EmptyString)
         then st_originalname file
    else "未命名文件" in
  let mimeType :=
    if String.eqb (st_mimetype file) EmptyString
    then "application/octet-stream" else st_mimetype file in
  let fileType := category_dir mimeType in
  let fileUrl := "/uploads/" +:+ st_relative file in
  let supportedByVision :=
    existsb (String.eqb mimeType) SUPPORTED_VISION_TYPES
    || existsb (String.eqb mimeType) SUPPORTED_DOCUMENT_TYPES in
  {| d_id := st_filename file; d_name := originalName; d_size := st_size file;
     d_type := mimeType; d_category := fileType;
     d_path := st_relative file;
     d_url := "http://localhost:3000" +:+ fileUrl;
     d_deepSeekReady := supportedByVision;
     d_supportedByDeepSeek := supportedByVision;
     d_uploadedAt := iso |}.

Inductive Response :=
| BadRequest (error : string)
| Uploaded (file : Descriptor).

(** The handler of POST /api/upload on the files of the caller's
    session. *)
Definition upload (sessionId : string) (now : Z) (iso : string)
    (decodedFileName : string) (file : option Stored) (entries : list Entry)
    : Response * list Entry :=
  match file with
  | None => (BadRequest "请选择要上传的文件", entries)
  | Some f =>
      let fileInfo := describe decodedFileName iso f in
      (Uploaded fileInfo, addFile sessionId now fileInfo entries)
  end.

(** GET /api/files: [count] and [files]. *)
Definition listFiles (entries : list Entry) : nat * list Entry :=
  (length entries, entries).

Fixpoint no_slash (s : string) : bool :=
  match s with
  | String c s' => negb (Ascii.eqb c slash) && no_slash s'
  | EmptyString => true
  end.

End Upload.


(** ** The lock manager (server/utils/shared.js) *)

Module LockManager.

(** The outcome of one turn of the loop of [acquire]. *)
Inductive Attempt := Acquired | Busy | TimedOut.

(** One turn of [while (Date.now() - start < timeout)] at time [now]:
    the key is tested and set without an [await] in between; a turn that
    finds the time used up leaves the loop, and [acquire] throws.
    [locks] holds the keys of [this.locks]. *)
Definition poll (key : string) (start timeout now : Z) (locks : gset string)
    : Attempt * gset string :=
  if (now - start <? timeout)%Z
  then if decide (key ∈ locks) then (Busy, locks)
       else (Acquired, {[ key ]} ∪ locks)
  else (TimedOut, locks).

(** [release(key)] *)
Definition release (key : string) (locks : gset string) : gset string :=
  locks ∖ {[ key ]}.

(** A caller of the manager: it has no call under way, waits in the loop
    of [acquire] between two turns, holds the function [acquire]
    returned, or has caught the error. *)
Inductive Caller :=
| Waiting (key : string) (start timeout : Z)
| Holding (key : string)
| GaveUp.

(** The manager and the calls under way, by caller; a caller without an
    entry has no call under way. *)
Record System := mkSystem {
  locks : gset string;
  callers : gmap nat Caller
}.

Definition init : System := {| locks := ∅; callers := ∅ |}.

Inductive Step :=
| Call (i : nat) (key : string) (timeout now : Z)   (* [acquire(key, timeout)] *)
| Wake (i : nat) (now : Z)        (* the 10 ms timer of the loop fires *)
| Release (i : nat).              (* the returned function is called *)

Definition turn (i : nat) (key : string) (start timeout now : Z)
    (s : System) : System :=
  match poll key start timeout now (locks s) with
  | (Acquired, locks') =>
      {| locks := locks'; callers := <[i := Holding key]> (callers s) |}
  | (Busy, _) =>
      {| locks := locks s;
         callers := <[i := Waiting key start timeout]> (callers s) |}
  | (TimedOut, _) =>
      {| locks := locks s; callers := <[i := GaveUp]> (callers s) |}
  end.

Definition e_caller (e : Step) : nat :=
  match e with Call i _ _ _ => i | Wake i _ => i | Release i => i end.

(** A caller calls the function it was given once, and starts a call
    only when none of its own is under way. *)
Definition step (s : System) (e : Step) : System :=
  match e, callers s !! e_caller e with
  | Call i key timeout now, None => turn i key now timeout now s
  | Call i key timeout now, Some GaveUp => turn i key now timeout now s
  | Wake i now, Some (Waiting key start timeout) =>
      turn i key start timeout now s
  | Release i, Some (Holding key) =>
      {| locks := release key (locks s); callers := delete i (callers s) |}
  | _, _ => s
  end.

(** No two callers hold the same key, and the keys in the table are the
    keys that are held. *)
Definition exclusive (s : System) : Prop :=
  (∀ i j k, callers s !! i = Some (Holding k) →
            callers s !! j = Some (Holding k) → i = j) ∧
  (∀ k, k ∈ locks s ↔ ∃ i, callers s !! i = Some (Holding k)).

End LockManager.


(** ** The bridge: POST /api/chat/stream *)

Module BridgeStream.

Inductive Frame :=
| ErrorFrame (message : string)
| ChunkFrame (content : string)
| DoneFrame
| Marker.                         (* the line [data: [DONE]] *)

(** The variables of one request and what it has written. *)
Record Reply := mkReply {
  userId : string;
  history : nat;                  (* the array [getConversation] returned *)
  buffer : string;
  assistantText : string;
  written : list Frame;
  ended : bool;                   (* [res.end()] was called *)
  awaiting : bool;                (* [await request.post(...)] is pending *)
  listening : bool                (* the stream is attached and alive *)
}.

Definition write (fs : list Frame) (r : Reply) : Reply :=
  {| userId := userId r; history := history r; buffer := buffer r;
     assistantText := assistantText r; written := written r ++ fs;
     ended := ended r; awaiting := awaiting r; listening := listening r |}.

(** Write the frames, end the response; nothing is pending any more. *)
Definition finish (fs : list Frame) (r : Reply) : Reply :=
  {| userId := userId r; history := history r; buffer := buffer r;
     assistantText := assistantText r; written := written r ++ fs;
     ended := true; awaiting := false; listening := false |}.

Section Handler.

Variable MAX_HISTORY_TURNS : Z.
Variable DEFAULT_SYSTEM_PROMPT : string.

(** [JSON.parse(payload)] followed by [json?.choices?.[0]?.delta?.content]:
    the content when the payload parses and carries a truthy one. *)
Variable parse_delta : string → option string.

(** The handler up to [await request.post(...)]. *)
Definition start (user : string) (message : option string)
    (files : list Bridge.Attachment) (st : Bridge.state)
    : Reply * Bridge.state :=
  let fresh := {| userId := user; history := 0; buffer := EmptyString;
                  assistantText := EmptyString; written := []; ended := false;
                  awaiting := false; listening := false |} in
  match Bridge.chat_begin MAX_HISTORY_TURNS DEFAULT_SYSTEM_PROMPT user message
          files st with
  | (Bridge.Refused, st1) =>
      (finish [ErrorFrame "消息不能为空"; Marker] fresh, st1)
  | (Bridge.Asked r _, st1) =>
      ({| userId := user; history := r; buffer := EmptyString;
          assistantText := EmptyString; written := []; ended := false;
          awaiting := true; listening := false |}, st1)
  end.

(** [catch (error)] around the upstream request. *)
Definition on_rejected (message : string) (r : Reply) : Reply :=
  finish [ErrorFrame (or_default (Some message) "请求失败"); Marker] r.

(** The request is answered: the listeners are attached. *)
Definition on_resolved (r : Reply) : Reply :=
  {| userId := userId r; history := history r; buffer := EmptyString;
     assistantText := EmptyString; written := written r;
     ended := ended r; awaiting := false; listening := true |}.

(** One line of the upstream stream. *)
Definition on_line (r : Reply) (line : string) : Reply :=
  if negb (String.prefix "data:" line) then r
  else
    let payload := js_trim (slice_from 5 line) in
    if String.eqb payload EmptyString then r
    else if String.eqb payload "[DONE]" then write [Marker] r
    else match parse_delta payload with
         | Some delta =>
             {| userId := userId r; history := history r; buffer := buffer r;
                assistantText := assistantText r +:+ delta;
                written := written r ++ [ChunkFrame delta];
                ended := ended r; awaiting := awaiting r;
                listening := listening r |}
         | None => r
         end.

Definition with_buffer (b : string) (r : Reply) : Reply :=
  {| userId := userId r; history := history r; buffer := b;
     assistantText := assistantText r; written := written r;
     ended := ended r; awaiting := awaiting r; listening := listening r |}.

(** [response.data.on('data', ...)] *)
Definition on_data (chunk : string) (r : Reply) : Reply :=
  let lines := split_lf (buffer r +:+ chunk) in
  let rest := default EmptyString (last lines) in
  foldl on_line (with_buffer rest r) (removelast lines).

(** [response.data.on('end', ...)] *)
Definition on_end (r : Reply) (st : Bridge.state) : Reply * Bridge.state :=
  (finish [DoneFrame; Marker] r,
   Bridge.chat_end MAX_HISTORY_TURNS DEFAULT_SYSTEM_PROMPT (userId r)
     (history r) (Some (assistantText r)) st).

(** [response.data.on('error', ...)] *)
Definition on_error (message : string) (r : Reply) : Reply :=
  finish [ErrorFrame (or_default (Some message) "流式响应失败"); Marker] r.

(** [req.on('close', ...)], registered once the request is answered:
    the stream is destroyed and fires no more. *)
Definition on_close (r : Reply) : Reply :=
  {| userId := userId r; history := history r; buffer := buffer r;
     assistantText := assistantText r; written := written r;
     ended := ended r; awaiting := awaiting r; listening := false |}.

Inductive Event :=
| Rejected (message : string)
| Resolved
| Data (chunk : string)
| End_
| Error (message : string)
| Close.

(** Delivery: the promise settles once, a stream fires while it is
    attached and alive, and [end] and [error] are its last events. *)
Definition deliver (rs : Reply * Bridge.state) (e : Event)
    : Reply * Bridge.state :=
  let '(r, st) := rs in
  match e with
  | Rejected m => if awaiting r then (on_rejected m r, st) else rs
  | Resolved => if awaiting r then (on_resolved r, st) else rs
  | Data chunk => if listening r then (on_data chunk r, st) else rs
  | End_ => if listening r then on_end r st else rs
  | Error m => if listening r then (on_error m r, st) else rs
  | Close => if listening r then (on_close r, st) else rs
  end.

(** One request with its connection.  The handler is reached through
    [express.json] (line 386) and adds its [close] listener once the
    upstream call has been answered (line 541); a listener only hears
    what is emitted after it was added. *)
Record Conn := mkConn {
  request : Incoming.Request;
  reply : Reply;
  store : Bridge.state
}.

Definition enter (r : Incoming.Request) (user : string)
    (message : option string) (files : list Bridge.Attachment)
    (st : Bridge.state) : Conn :=
  let '(rp, st') := start user message files st in
  {| request := r; reply := rp; store := st' |}.

(** The client's socket closes, or the event loop delivers something to
    the handler; the [close] listener is called by the request alone. *)
Inductive Happening :=
| Disconnect
| Loop (e : Event).

Definition happen (k : Conn) (h : Happening) : Conn :=
  match h with
  | Disconnect =>
      let '(r, emitted) := Incoming.socket_closed (request k) in
      let '(rp, st) := if emitted then deliver (reply k, store k) Close
                       else (reply k, store k) in
      {| request := r; reply := rp; store := st |}
  | Loop Close => k
  | Loop e =>
      let '(rp, st) := deliver (reply k, store k) e in
      {| request := request k; reply := rp; store := st |}
  end.

End Handler.

(** The frames that close a reply, and the text its chunk frames carry. *)
Definition frame_is_terminal (f : Frame) : bool :=
  match f with ErrorFrame _ | DoneFrame => true | _ => false end.

Definition terminal_frames (fs : list Frame) : nat :=
  length (List.filter frame_is_terminal fs).

Fixpoint chunk_text (fs : list Frame) : string :=
  match fs with
  | [] => EmptyString
  | ChunkFrame d :: fs => d +:+ chunk_text fs
  | _ :: fs => chunk_text fs
  end.

(** The state of a reply as to its end. *)
Definition closed_once (r : Reply) : Prop :=
  if ended r
  then awaiting r = false ∧ listening r = false ∧
       ∃ pre t, written r = (pre ++ [t; Marker])%list ∧
                frame_is_terminal t = true ∧ terminal_frames pre = 0
  else terminal_frames (written r) = 0.

End BridgeStream.


(** ** The master over time *)

Module MasterRun.

Import ProcessManager.

(** The callbacks of the master once [setupMaster] has run: the cluster
    [exit] and [message] listeners, and the two continuations of
    [restartWorker] with the entry it captured, its ten-second timer and
    the code after its [await]. *)
Inductive Callback :=
| Exit (p : nat) (now : Z)
| StatsMessage (workerId : string) (s : Stats)
| KillTimer (info : WorkerInfo)
| Continue (id : nat) (info : WorkerInfo) (now : Z).

Definition step (st : state) (cb : Callback) : state :=
  match cb with
  | Exit p now => on_exit p now st
  | StatsMessage id s => on_stats id s st
  | KillTimer info => restart_timeout info st
  | Continue id info now => restart_finish id info now st
  end.

(** The table of workers is sound: no id twice, every entry that of a
    process forked for its id and port, and no pid under two ids. *)
Definition well_tracked (st : state) : Prop :=
  NoDup (workers st).*1 ∧
  (∀ id info, map_get id (workers st) = Some info →
     ∃ q, processes st !! pid info = Some q ∧ WORKER_ID q = id ∧
          WORKER_PORT q = basePort (config st) + id - 1) ∧
  (∀ id id' info info',
     map_get id (workers st) = Some info →
     map_get id' (workers st) = Some info' →
     pid info = pid info' → id = id').

(** [start()]: the master with its shutdown handlers.  [notified] holds
    the pids sent the shutdown message, [counters] the [totalWorkers] of
    each call of [shutdown], [exited] the code of [process.exit]. *)
Record Master := mkMaster {
  table : state;
  notified : list nat;
  counters : list Z;
  exited : option Z
}.

Definition boot (cfg : Config) (now : Z) : Master :=
  {| table := setupMaster cfg now; notified := []; counters := [];
     exited := None |}.

(** [shutdown(signal)] *)
Definition shutdown (m : Master) : Master :=
  match exited m with
  | Some _ => m
  | None =>
      {| table := table m;
         notified := notified m ++ (pid <$> (workers (table m)).*2);
         counters := counters m ++ [Z.of_nat (length (workers (table m)))];
         exited := None |}
  end.

(** The [exit] listeners that [shutdown] added, in the order they were
    added: each takes one off its counter and leaves the process when it
    reaches zero. *)
Fixpoint count_down (cs : list Z) : list Z * bool :=
  match cs with
  | [] => ([], false)
  | c :: rest =>
      if (c - 1 =? 0)%Z then ((c - 1)%Z :: rest, true)
      else let '(rest', gone) := count_down rest in ((c - 1)%Z :: rest', gone)
  end.

(** A worker process exits: the listener of [setupMaster] runs first,
    then those of [shutdown]. *)
Definition on_worker_exit (p : nat) (now : Z) (m : Master) : Master :=
  match exited m with
  | Some _ => m
  | None =>
      let '(cs, gone) := count_down (counters m) in
      {| table := on_exit p now (table m);
         notified := notified m;
         counters := cs;
         exited := if gone then Some 0%Z else None |}
  end.

(** The ten-second timer of a call of [shutdown]. *)
Definition on_shutdown_timeout (m : Master) : Master :=
  match exited m, counters m with
  | None, _ :: _ =>
      {| table := table m; notified := notified m; counters := counters m;
         exited := Some 1%Z |}
  | _, _ => m
  end.

(** A master that is shutting down, seen between two exits: [rem] are
    the pids whose exit is still to come, all among the first [L0]
    processes and all registered; every entry is that of such a process
    or of a process forked since, which is not dead. *)
Definition draining (L0 : nat) (rem : list nat) (st : state) : Prop :=
  well_tracked st ∧
  (L0 ≤ length (processes st))%nat ∧
  (∀ id info, map_get id (workers st) = Some info → (0 < id)%nat) ∧
  (∀ p, p ∈ rem → (p < L0)%nat ∧ is_Some (findWorkerIdByPid p st)) ∧
  (∀ id info, map_get id (workers st) = Some info →
     pid info ∈ rem ∨
     ((L0 ≤ pid info)%nat ∧
      ∃ q, processes st !! pid info = Some q ∧ dead q = false)).

End MasterRun.


(** * Properties *)

Local Close Scope string_scope.

(** ** Round-robin selection *)

Section BalancerFacts.

Import Balancer.

Lemma mod_between (w x : nat) : w ≤ x → x < 2 * w → x mod w = x - w.
Proof.
  intros Hle Hlt. symmetry. apply (Nat.mod_unique x w 1); lia.
Qed.

(** The request that selects worker [i] is the one whose number has the
    right residue. *)
Lemma hit_residue (w c i n : nat) :
  c < w → i < w → (c + n) mod w = i ↔ n mod w = (i + w - c) mod w.
Proof.
  intros Hc Hi.
  rewrite <- (Nat.Div0.add_mod_idemp_r c n w).
  pose proof (Nat.mod_upper_bound n w ltac:(lia)) as Hr.
  set (r := n mod w) in *.
  destruct (decide (c + r < w)) as [Hs|Hs].
  - rewrite (Nat.mod_small (c + r)) by lia.
    destruct (decide (c ≤ i)) as [Hci|Hci].
    + rewrite (mod_between w (i + w - c)) by lia. lia.
    + rewrite (Nat.mod_small (i + w - c)) by lia. lia.
  - rewrite (mod_between w (c + r)) by lia.
    destruct (decide (c ≤ i)) as [Hci|Hci].
    + rewrite (mod_between w (i + w - c)) by lia. lia.
    + rewrite (Nat.mod_small (i + w - c)) by lia. lia.
Qed.

(** Quotient and remainder of the successor. *)
Lemma div_mod_succ (w n : nat) :
  0 < w →
  (n mod w + 1 < w ∧ S n / w = n / w ∧ S n mod w = n mod w + 1) ∨
  (n mod w + 1 = w ∧ S n / w = n / w + 1 ∧ S n mod w = 0).
Proof.
  intros Hw.
  pose proof (Nat.div_mod_eq n w) as Heq.
  pose proof (Nat.mod_upper_bound n w ltac:(lia)) as Hr.
  destruct (decide (n mod w + 1 < w)) as [Hs|Hs]; [left|right].
  - split; [done|]. split.
    + symmetry. apply (Nat.div_unique (S n) w (n / w) (n mod w + 1)); lia.
    + symmetry. apply (Nat.mod_unique (S n) w (n / w) (n mod w + 1)); lia.
  - split; [lia|]. split.
    + symmetry. apply (Nat.div_unique (S n) w (n / w + 1) 0); lia.
    + symmetry. apply (Nat.mod_unique (S n) w (n / w + 1) 0); lia.
Qed.

Lemma hits_app (i : nat) (l1 l2 : list nat) :
  hits i (l1 ++ l2) = hits i l1 + hits i l2.
Proof. unfold hits. by rewrite filter_app, length_app. Qed.

(** Among the first [n] residues of a progression, the value [i] occurs
    [n / w] times, and once more when its residue is below [n mod w]. *)
Lemma hits_progression (w c i n : nat) :
  0 < w → c < w → i < w →
  hits i (map (λ k, (c + k) mod w) (seq 0 n))
  = n / w + (if decide ((i + w - c) mod w < n mod w) then 1 else 0).
Proof.
  intros Hw Hc Hi.
  pose proof (Nat.mod_upper_bound (i + w - c) w ltac:(lia)) as Hd.
  set (d := (i + w - c) mod w) in *.
  induction n as [|n IH].
  - simpl. rewrite Nat.Div0.div_0_l, Nat.Div0.mod_0_l.
    case_decide; [lia|done].
  - rewrite seq_S, map_app, hits_app, IH. simpl.
    assert (hits i [(c + n) mod w] = if decide (n mod w = d) then 1 else 0)
      as ->.
    { unfold hits. rewrite filter_cons, filter_nil.
      pose proof (hit_residue w c i n Hc Hi) as Hres. fold d in Hres.
      repeat case_decide; simpl; try done; tauto. }
    destruct (div_mod_succ w n Hw) as [(Hlt & -> & ->)|(Hlt & -> & ->)];
      repeat case_decide; lia.
Qed.

(** The targets of a run, as a progression from the cursor. *)
Lemma serve_progression (pool : list string) (os : list outcome) (st : state) :
  current st < length pool →
  (serve pool os st).1
  = map (λ k, pool !! ((current st + k) mod length pool)) (seq 0 (length os)).
Proof.
  revert st.
  induction os as [|o os IH]; intros st Hc; [done|].
  simpl. destruct (handle pool st o) as [[st' tgt] rep] eqn:Hh.
  assert (current st' = (current st + 1) mod length pool ∧
          tgt = pool !! current st) as [Hst' ->].
  { unfold handle in Hh. destruct o; by inversion Hh. }
  specialize (IH st').
  destruct (serve pool os st') as [sel st''] eqn:Hs. simpl in *.
  rewrite IH by (rewrite Hst'; apply Nat.mod_upper_bound; lia).
  f_equal.
  - by rewrite Nat.add_0_r, Nat.mod_small.
  - rewrite <- seq_shift, map_map. apply map_ext. intros k.
    rewrite Hst', Nat.Div0.add_mod_idemp_l. do 2 f_equal. lia.
Qed.

(** In a pool that names no worker twice, the requests proxied to the
    worker in place [i] are those whose target was read in place [i]. *)
Lemma sent_hits (pool : list string) (i : nat) (url : string)
    (places : list nat) :
  NoDup pool → pool !! i = Some url →
  sent url (map (λ j, pool !! j) places) = hits i places.
Proof.
  intros Hnd Hi. unfold sent, hits.
  induction places as [|j places IH]; [done|].
  rewrite filter_cons. simpl.
  destruct (decide (j = i)) as [->|Hne].
  - rewrite bool_decide_eq_true_2 by done. simpl. by rewrite IH.
  - rewrite bool_decide_eq_false_2; [done|].
    intros Hj. apply Hne. by eapply NoDup_lookup.
Qed.

(** C3. Over a pool of W workers the cursor moves on by one modulo W at
    every accepted request, whether the proxied request succeeds or
    fails; request number k of a run is handed to the proxy with the
    worker in the place the cursor then names, so of N consecutive
    requests each place of the pool is selected floor(N/W) or ceil(N/W)
    times, and in a pool that names no worker twice each worker is sent
    that many requests. *)
Theorem round_robin_fair (pool : list string) (os : list outcome)
    (st : state) (i : nat) :
  current st < length pool → i < length pool →
  let places := map (λ k, (current st + k) mod length pool)
                  (seq 0 (length os)) in
  (∀ s o, current (handle pool s o).1.1 = (current s + 1) mod length pool) ∧
  (serve pool os st).1 = map (λ j, pool !! j) places ∧
  (hits i places = length os / length pool ∨
   hits i places = (length os + length pool - 1) / length pool) ∧
  length os / length pool ≤ hits i places
    ≤ (length os + length pool - 1) / length pool ∧
  (NoDup pool → ∀ url, pool !! i = Some url →
   sent url (serve pool os st).1 = hits i places).
Proof.
  intros Hc Hi places.
  assert (0 < length pool) as Hw by lia.
  assert ((serve pool os st).1 = map (λ j, pool !! j) places) as Htargets.
  { unfold places. rewrite map_map. by apply serve_progression. }
  split.
  { intros s o. by destruct o. }
  split; [done|].
  set (w := length pool) in *. set (n := length os) in *.
  pose proof (Nat.div_mod_eq n w) as Heq.
  pose proof (Nat.mod_upper_bound n w ltac:(lia)) as Hr.
  assert ((n + w - 1) / w = n / w + (if decide (0 < n mod w) then 1 else 0))
    as Hceil.
  { case_decide.
    - symmetry. apply (Nat.div_unique _ w _ (n mod w - 1)); lia.
    - symmetry. apply (Nat.div_unique _ w _ (w - 1)); lia. }
  assert (hits i places
          = n / w + (if decide ((i + w - current st) mod w < n mod w)
                     then 1 else 0))
    as Hhits by (by apply hits_progression).
  rewrite Hceil, Hhits.
  split_and!; [repeat case_decide; lia..|].
  intros Hnd url Hurl. rewrite Htargets, <- Hhits. by apply sent_hits.
Qed.

Lemma round_robin_fair_witness :
  let os := [Proxied; ProxyError "ECONNREFUSED"; Proxied; Proxied; Proxied;
             Proxied] in
  let places := map (λ k, (current init + k) mod length workers)
                  (seq 0 (length os)) in
  (∀ s o, current (handle workers s o).1.1
          = (current s + 1) mod length workers) ∧
  (serve workers os init).1 = map (λ j, workers !! j) places ∧
  (hits 1 places = length os / length workers ∨
   hits 1 places = (length os + length workers - 1) / length workers) ∧
  length os / length workers ≤ hits 1 places
    ≤ (length os + length workers - 1) / length workers ∧
  (NoDup workers → ∀ url, workers !! 1 = Some url →
   sent url (serve workers os init).1 = hits 1 places).
Proof.
  apply (round_robin_fair workers _ init 1); simpl; lia.
Defined.

(** C9. The X-Worker-Hit header is read from the cursor when the upstream
    response arrives, that is after the advance: served one at a time,
    the fourth request goes to workers[3] and is annotated with 0, and
    in general the header of a request served alone is the index that
    follows the selected one. *)
Theorem X_Worker_Hit_after_advance :
  (∀ st o, (on_proxyRes (handle workers st o).1.1).2
           = (selected st + 1) mod 4) ∧
  let l := (run workers [Accept Proxied; ProxyRes 0; Accept Proxied; ProxyRes 1;
                         Accept Proxied; ProxyRes 2; Accept Proxied; ProxyRes 3]).2 in
  routed l = [0; 1; 2; 3] ∧
  annotated l = [(0, 1); (1, 2); (2, 3); (3, 0)] ∧
  workers !! 3 = Some "http://localhost:3004"%string ∧
  ¬ identifies 0 3.
Proof.
  split; [intros st o; by destruct o|].
  simpl. repeat split; try done. unfold identifies. lia.
Qed.

(** With two requests in flight the first response is annotated with the
    cursor two steps on. *)
Lemma X_Worker_Hit_interleaved :
  let l := (run workers [Accept Proxied; Accept Proxied; ProxyRes 0]).2 in
  routed l = [0; 1] ∧ annotated l = [(0, 2)] ∧ ¬ identifies 2 0.
Proof. simpl. repeat split; try done. unfold identifies. lia. Qed.

End BalancerFacts.

(** ** Worker: sessions *)

Section WorkerSessionFacts.

Import Worker.

Lemma truthy_Some (v : option string) :
  truthy v = true ↔ ∃ s, v = Some s ∧ s ≠ EmptyString.
Proof.
  destruct v as [s|]; simpl.
  - rewrite negb_true_iff, String.eqb_neq. split.
    + intros Hs. by exists s.
    + by intros (s' & [= <-] & Hs).
  - split; [done|]. by intros (s & ? & _).
Qed.

(** C10, as amended. The middleware counts the request, leaves the
    request with a session that is in the store, creating it when the
    store had none for the identifier, and sets the X-User-ID response
    header exactly when the request header is absent or empty, to the
    identifier it generated; a non-empty identifier sent by the client
    is used as it is and is not sent back. *)
Theorem session_middleware (header : option string) (uuid : string)
    (now : Z) (w : state) :
  let w' := (middleware header uuid now w).1 in
  let r := (middleware header uuid now w).2 in
  requests (workerStats w') = S (requests (workerStats w)) ∧
  sessions w' !! req_userId r = Some (req_session r) ∧
  match sessions w !! req_userId r with
  | Some s => sessions w' = sessions w ∧ req_session r = s
  | None =>
      req_session r = newUserSession (Some (req_userId r)) (self w) uuid now ∧
      sessions w' = <[req_userId r := req_session r]> (sessions w)
  end ∧
  res_X_User_ID r = (if truthy header then None else Some uuid) ∧
  (∀ v, header = Some v ∧ v ≠ EmptyString →
        req_userId r = v ∧ res_X_User_ID r = None) ∧
  (header = None ∨ header = Some EmptyString →
   req_userId r = uuid ∧ res_X_User_ID r = Some uuid).
Proof.
  unfold middleware.
  destruct (truthy header) eqn:Ht; simpl.
  - apply truthy_Some in Ht as (v & -> & Hv). simpl.
    unfold getSession, createSession, setSession.
    assert (∀ v0, Some v = Some v0 ∧ v0 ≠ EmptyString → v = v0 ∧ @None string = None)
      as Hsame by (by intros v0 [[= <-] _]).
    assert (Some v = None ∨ Some v = Some EmptyString → False)
      as Hnot by (by intros [?|[= ->]]).
    destruct (sessions w !! v) as [s|] eqn:Hs; simpl; rewrite ?Hs.
    + split_and!; try done; intros Hor; by destruct (Hnot Hor).
    + rewrite lookup_insert_eq.
      split_and!; try done; intros Hor; by destruct (Hnot Hor).
  - unfold getSession, createSession, setSession.
    assert (∀ v, header = Some v ∧ v ≠ EmptyString → False) as Hempty.
    { intros v [-> Hv]. simpl in Ht. apply negb_false_iff in Ht.
      by apply String.eqb_eq in Ht. }
    destruct (sessions w !! uuid) as [s|] eqn:Hs; simpl; rewrite ?Hs.
    + split_and!; try done; intros v Hv; by destruct (Hempty v Hv).
    + rewrite lookup_insert_eq.
      split_and!; try done; intros v Hv; by destruct (Hempty v Hv).
Qed.

(** C10, as stated, fails: a request that carries an X-User-ID header
    with an empty value is answered with a generated X-User-ID header. *)
Lemma session_header_on_empty_value :
  ¬ (∀ header uuid now w,
       res_X_User_ID (middleware header uuid now w).2 ≠ None → header = None).
Proof.
  intros H.
  specialize (H (Some EmptyString) "6f1c"%string 0%Z idle_worker).
  by discriminate H.
Qed.

(** A session built anew is never inactive at the instant it is built. *)
Lemma fresh_session_is_active (base : string) (uuid : string) (now : Z)
    (d : gset string) (u : option string) (wid : string) :
  cleanupInactive idleTimeout base now d (newUserSession u wid uuid now)
  = (false, d, newUserSession u wid uuid now).
Proof.
  unfold cleanupInactive. simpl. rewrite Z.sub_diag. reflexivity.
Qed.

Lemma sweep_one_id (base : string) (uuid : string) (now : Z) (w : state)
    (sd : UserSession) :
  sweep_one base uuid now w sd = w.
Proof.
  unfold sweep_one. rewrite fresh_session_is_active. by destruct w.
Qed.

(** C2. The sweep evicts nothing: the tick reads [redisStore], which the
    worker never binds, and the error is caught; and were it bound to
    any list of sessions the loop would question sessions built at that
    instant, which are never inactive.  A session idle for two hours
    and its file are still there after the tick, although the session
    itself reports that it is inactive. *)
Theorem idle_sweep_evicts_nothing :
  (∀ base uuid now w, sweep_tick base uuid now w = w) ∧
  (∀ bound base uuid now w, sweep bound base uuid now w = w) ∧
  (cleanupInactive idleTimeout "uploads" 7200000 (disk stale_worker)
     stale_session).1.1 = true ∧
  sessions (sweep_tick "uploads" "6f1c" 7200000 stale_worker) !! "u1"%string
    = Some stale_session ∧
  disk (sweep_tick "uploads" "6f1c" 7200000 stale_worker)
    = {[ "uploads/u1/a.png"%string ]}.
Proof.
  assert (∀ bound base uuid now w, sweep bound base uuid now w = w) as Hsweep.
  { intros [all|] base uuid now w; simpl; [|done].
    induction all as [|sd all IH]; simpl; [done|].
    by rewrite sweep_one_id. }
  split; [intros; apply Hsweep|]. split; [done|].
  split; [reflexivity|]. split; [|done].
  unfold sweep_tick. rewrite Hsweep. simpl. apply lookup_singleton_eq.
Qed.

End WorkerSessionFacts.

(** ** Worker: the chat stream *)

Section ChatStreamFacts.

Import Worker.

Variable parse_content : string → option string.

Local Abbreviation deliver := (Worker.deliver parse_content).
Local Abbreviation deliver_all := (Worker.deliver_all parse_content).
Local Abbreviation on_line := (Worker.on_line parse_content).
Local Abbreviation on_data := (Worker.on_data parse_content).
Local Abbreviation happen := (Worker.happen parse_content).

(** Unfolds the handlers down to record projections. *)
Ltac handlers :=
  unfold Worker.deliver, on_close, on_timeout, prepared, on_resolve,
    on_reject, Worker.on_data, on_end, on_error, outer_catch, reportError,
    clearTimer, setTimer, destroyUpstream, countError, with_phase,
    with_res, with_buffer, res_json, res_end, res_write in *.

(** The error block does nothing once the headers are out, and nothing
    for a client that is gone. *)
Lemma reportError_sent (text : string) (c : Chat) :
  headersSent (res c) = true → reportError text c = c.
Proof. intros H. unfold reportError. by rewrite H, andb_false_r. Qed.

Lemma reportError_gone (text : string) (c : Chat) :
  isClientConnected c = false → reportError text c = c.
Proof. intros H. unfold reportError. by rewrite H. Qed.

Lemma reportError_vars (text : string) (c : Chat) :
  vars (reportError text c) = vars c.
Proof. unfold reportError. by case_match. Qed.

(** A line changes nothing but the response. *)
Lemma on_line_vars (c : Chat) (line : string) :
  vars (on_line c line) = vars c.
Proof. unfold Worker.on_line. by repeat case_match. Qed.

Lemma on_lines_vars (ls : list string) (c : Chat) :
  vars (foldl on_line c ls) = vars c.
Proof.
  revert c. induction ls as [|l ls IH]; intros c; simpl; [done|].
  by rewrite IH, on_line_vars.
Qed.

(** Once the client is gone a line writes nothing. *)
Lemma on_lines_silent (ls : list string) (c : Chat) :
  isClientConnected c = false → res (foldl on_line c ls) = res c.
Proof.
  revert c. induction ls as [|l ls IH]; intros c Hc; simpl; [done|].
  assert (on_line c l = c) as ->; [|by apply IH].
  unfold Worker.on_line. rewrite Hc. by repeat case_match.
Qed.

(** Headers once sent stay sent. *)
Lemma res_write_sent (e : Sse) (r : Res) :
  headersSent r = true → headersSent (res_write e r) = true.
Proof. unfold res_write. by case_match. Qed.

Lemma on_lines_sent (ls : list string) (c : Chat) :
  headersSent (res c) = true → headersSent (res (foldl on_line c ls)) = true.
Proof.
  revert c. induction ls as [|l ls IH]; intros c Hc; simpl; [done|].
  apply IH. unfold Worker.on_line.
  repeat case_match; simpl; try done; by apply res_write_sent.
Qed.

(** The data listener, field by field. *)
Lemma on_data_vars (chunk : string) (c : Chat) :
  isClientConnected c = true → vars (on_data chunk c) = vars c.
Proof.
  intros Hc. unfold Worker.on_data. rewrite Hc. simpl.
  by rewrite on_lines_vars.
Qed.

Lemma on_data_sent (chunk : string) (c : Chat) :
  headersSent (res c) = true → headersSent (res (on_data chunk c)) = true.
Proof.
  intros Hs. unfold Worker.on_data. case_match; [done|].
  by apply on_lines_sent.
Qed.

Lemma on_lines_open (ls : list string) (c : Chat) :
  writableEnded (res c) = false →
  writableEnded (res (foldl on_line c ls)) = false.
Proof.
  revert c. induction ls as [|l ls IH]; intros c Hc; simpl; [done|].
  apply IH. unfold Worker.on_line, res_write.
  repeat case_match; simpl; done.
Qed.

Lemma on_data_open (chunk : string) (c : Chat) :
  writableEnded (res c) = false →
  writableEnded (res (on_data chunk c)) = false.
Proof.
  intros Hs. unfold Worker.on_data. case_match; [done|].
  by apply on_lines_open.
Qed.

Lemma Inv_entered : Inv entered.
Proof.
  split; simpl; try done; try (by intros [?|?]); by intros [? ?].
Qed.

(** The failure listeners on a request whose headers are out. *)
Lemma on_reject_sent (status : option nat) (c : Chat) :
  headersSent (res c) = true →
  on_reject status c = with_phase Finished (clearTimer (countError c)).
Proof. intros H. unfold on_reject. by rewrite reportError_sent. Qed.

Lemma on_error_sent (text : string) (c : Chat) :
  headersSent (res c) = true →
  on_error text c = with_phase Finished (clearTimer (countError c)).
Proof. intros H. unfold on_error. by rewrite reportError_sent. Qed.

Lemma on_end_sent (c : Chat) :
  headersSent (res c) = true →
  on_end c = with_phase Finished (clearTimer c).
Proof.
  intros H. unfold on_end. simpl. by rewrite H, andb_false_r.
Qed.

Lemma on_timeout_sent (c : Chat) :
  headersSent (res c) = true →
  res (on_timeout c) = res c ∧ phase (on_timeout c) = phase c ∧
  upstreamCall (on_timeout c) = upstreamCall c ∧
  timerPending (on_timeout c) = false ∧
  isClientConnected (on_timeout c) = isClientConnected c.
Proof.
  intros H. unfold on_timeout. by rewrite reportError_sent.
Qed.

Lemma on_timeout_fields (c : Chat) :
  timerPending (on_timeout c) = false ∧
  timeoutId (on_timeout c) = timeoutId c ∧
  phase (on_timeout c) = phase c ∧
  upstreamCall (on_timeout c) = upstreamCall c ∧
  isClientConnected (on_timeout c) = isClientConnected c.
Proof.
  unfold on_timeout, destroyUpstream, reportError, with_res. by case_match.
Qed.

Lemma Inv_deliver (c : Chat) (e : Event) : Inv c → Inv (deliver c e).
Proof.
  intros HInv. pose proof HInv as [Ht Hp Hs Hu].
  destruct e; unfold Worker.deliver.
  - (* Close *)
    unfold on_close, clearTimer, destroyUpstream.
    split; simpl; [by case_match| |done|done].
    intros Hq. destruct (Hp Hq) as (? & ? & ?). by case_match.
  - (* Prepared *)
    destruct (phase c) eqn:Hph; try done.
    destruct (Hp eq_refl) as (Hres & Hup & Htp).
    handlers. rewrite Hres, Hup. simpl.
    repeat case_match; split; simpl; try done;
      try (by intros [?|?]); by intros [? ?].
  - (* Resolve *)
    destruct (phase c) eqn:Hph; try done.
    unfold on_resolve. split; simpl; try done. intros _. apply Hs. by left.
  - (* Reject *)
    destruct (phase c) eqn:Hph; try done.
    destruct (Hu (Hs (or_introl eq_refl))) as [Hh Hw].
    rewrite on_reject_sent by done.
    split; simpl; try done; [by case_match|by intros [?|?]].
  - (* Data *)
    destruct (phase c) eqn:Hph; try done.
    case_match; [done|].
    destruct (isClientConnected c) eqn:Hc.
    + pose proof (on_data_vars chunk c Hc) as Hv.
      unfold vars in Hv.
      injection Hv as Hv1 Hv2 Hv3 Hv4 Hv5 Hv6 Hv7 Hv8. split.
      * by rewrite Hv3, Hv4.
      * by rewrite Hv8, Hph.
      * intros _. rewrite Hv5. apply Hs. by right.
      * rewrite Hv5. intros Hq. destruct (Hu Hq).
        split; [by apply on_data_sent|by apply on_data_open].
    + unfold Worker.on_data. rewrite Hc. simpl. split; simpl; [done| | |done].
      * by rewrite Hph.
      * intros _. apply Hs. by right.
  - (* End *)
    destruct (phase c) eqn:Hph; try done.
    case_match; [done|].
    destruct (Hu (Hs (or_intror eq_refl))) as [Hh Hw].
    rewrite on_end_sent by done.
    split; simpl; try done; [by case_match|by intros [?|?]].
  - (* StreamError *)
    destruct (phase c) eqn:Hph; try done.
    case_match; [done|].
    destruct (Hu (Hs (or_intror eq_refl))) as [Hh Hw].
    rewrite on_error_sent by done.
    split; simpl; try done; [by case_match|by intros [?|?]].
  - (* Timeout *)
    destruct (timerPending c) eqn:Htp; [|done].
    destruct (phase c) eqn:Hph.
    + by destruct (Hp eq_refl) as (? & ? & ?).
    + destruct (Hu (Hs (or_introl eq_refl))) as [Hh Hw].
      destruct (on_timeout_sent c Hh) as (Hr & Hq & Hc & Hn & _).
      split; rewrite ?Hr, ?Hq, ?Hc, ?Hn, ?Hph; try done.
    + destruct (Hu (Hs (or_intror eq_refl))) as [Hh Hw].
      destruct (on_timeout_sent c Hh) as (Hr & Hq & Hc & Hn & _).
      split; rewrite ?Hr, ?Hq, ?Hc, ?Hn, ?Hph; try done.
    + destruct (on_timeout_fields c) as (Hn & Hi & Hq & Hc & _).
      split; rewrite ?Hn, ?Hq, ?Hc, ?Hph; try done; try (by intros [?|?]).
      intros Hcall. destruct (Hu Hcall) as [Hh Hw].
      destruct (on_timeout_sent c Hh) as (Hr & _). by rewrite Hr.
Qed.

Lemma Inv_run (es : list Event) (c : Chat) : Inv c → Inv (deliver_all es c).
Proof.
  unfold Worker.deliver_all.
  revert c. induction es as [|e es IH]; intros c Hc; [done|].
  apply IH. by apply Inv_deliver.
Qed.

(** The upstream call is made by [prepared] and nowhere else. *)
Lemma call_only_when_preparing (c : Chat) (e : Event) :
  phase c ≠ Preparing →
  upstreamCall (deliver c e) = upstreamCall c ∧ phase (deliver c e) ≠ Preparing.
Proof.
  intros Hph.
  assert (∀ d, vars d = vars c →
            upstreamCall d = upstreamCall c ∧ phase d ≠ Preparing) as Hsame.
  { intros d Hv. unfold vars in Hv.
    injection Hv as Hv1 Hv2 Hv3 Hv4 Hv5 Hv6 Hv7 Hv8. by rewrite Hv5, Hv8. }
  destruct e; unfold Worker.deliver.
  - unfold on_close, clearTimer, destroyUpstream. by simpl.
  - destruct (phase c) eqn:Hq; by try apply Hsame.
  - destruct (phase c) eqn:Hq; try (by apply Hsame).
    unfold on_resolve. by simpl.
  - destruct (phase c) eqn:Hq; try (by apply Hsame).
    unfold on_reject, with_phase, clearTimer, countError. simpl.
    split; [|done].
    match goal with |- context [reportError ?t ?x] =>
      pose proof (reportError_vars t x) as Hv end.
    unfold vars in Hv. by injection Hv as Hv1 Hv2 Hv3 Hv4 Hv5 Hv6 Hv7 Hv8.
  - destruct (phase c) eqn:Hq; try (by apply Hsame).
    case_match; [by apply Hsame|].
    destruct (isClientConnected c) eqn:Hc.
    + by apply Hsame, on_data_vars.
    + unfold Worker.on_data. rewrite Hc. simpl. by rewrite Hq.
  - destruct (phase c) eqn:Hq; try (by apply Hsame).
    case_match; [by apply Hsame|].
    unfold on_end, with_phase, clearTimer, with_res. simpl. by case_match.
  - destruct (phase c) eqn:Hq; try (by apply Hsame).
    case_match; [by apply Hsame|].
    unfold on_error, with_phase, clearTimer, countError. simpl.
    split; [|done].
    match goal with |- context [reportError ?t ?x] =>
      pose proof (reportError_vars t x) as Hv end.
    unfold vars in Hv. by injection Hv as Hv1 Hv2 Hv3 Hv4 Hv5 Hv6 Hv7 Hv8.
  - case_match; [|by apply Hsame].
    destruct (on_timeout_fields c) as (_ & _ & Hq & Hc & _).
    by rewrite Hq, Hc.
Qed.

Lemma no_call_after_return (es : list Event) (c : Chat) :
  phase c ≠ Preparing → upstreamCall (deliver_all es c) = upstreamCall c.
Proof.
  unfold Worker.deliver_all.
  revert c. induction es as [|e es IH]; intros c Hph; [done|].
  destruct (call_only_when_preparing c e Hph) as [Heq Hne].
  simpl. by rewrite IH, Heq.
Qed.

(** Once the client is gone the request writes no frame and holds no
    pending timer, whatever is delivered to it. *)
Lemma gone_step (c : Chat) (e : Event) :
  isClientConnected c = false → timerPending c = false →
  isClientConnected (deliver c e) = false ∧
  timerPending (deliver c e) = false ∧
  frames (res (deliver c e)) = frames (res c).
Proof.
  intros Hc Ht. destruct e; unfold Worker.deliver.
  - unfold on_close, clearTimer, destroyUpstream. simpl. by case_match.
  - destruct (phase c); try done.
    unfold prepared, outer_catch.
    rewrite !reportError_gone by done.
    unfold with_phase, with_res, clearTimer, countError, setTimer, res_json.
    rewrite Hc. simpl. by repeat case_match.
  - destruct (phase c); try done.
  - destruct (phase c); try done. unfold on_reject.
    rewrite reportError_gone by done.
    unfold with_phase, clearTimer, countError. simpl. by case_match.
  - destruct (phase c); try done. case_match; [done|].
    unfold Worker.on_data. by rewrite Hc.
  - destruct (phase c); try done. case_match; [done|].
    unfold on_end, with_phase, clearTimer, with_res. simpl. rewrite Hc. simpl.
    by case_match.
  - destruct (phase c); try done. case_match; [done|]. unfold on_error.
    rewrite reportError_gone by done.
    unfold with_phase, clearTimer, countError. simpl. by case_match.
  - by rewrite Ht.
Qed.

Lemma gone_run (es : list Event) (c : Chat) :
  isClientConnected c = false → timerPending c = false →
  isClientConnected (deliver_all es c) = false ∧
  timerPending (deliver_all es c) = false ∧
  frames (res (deliver_all es c)) = frames (res c).
Proof.
  unfold Worker.deliver_all.
  revert c. induction es as [|e es IH]; intros c Hc Ht; [done|].
  destruct (gone_step c e Hc Ht) as (Hc' & Ht' & Hf).
  destruct (IH _ Hc' Ht') as (? & ? & Hf').
  simpl. split_and!; try done. by rewrite Hf', Hf.
Qed.


(** C1, what the code does. On a request whose upstream call has been
    made, the model frame has already sent the headers, so the guard
    [!res.headersSent] of every failure path is false: the timer, the
    stream's error listener, the rejection handler and the end listener
    write no frame and do not end the response, and the response stays
    open whatever happens later. *)
Theorem failed_stream_gets_no_terminal_marker (before after : list Event)
    (text : string) (status : option nat) :
  let c := deliver_all before entered in
  is_Some (upstreamCall c) →
  res (on_timeout c) = res c ∧
  res (on_error text c) = res c ∧
  res (on_reject status c) = res c ∧
  res (on_end c) = res c ∧
  writableEnded (res (deliver_all after c)) = false.
Proof.
  intros c Hcall.
  pose proof (Inv_run before entered Inv_entered) as HInv.
  destruct (inv_called _ HInv Hcall) as [Hh Hw].
  split_and!.
  - by destruct (on_timeout_sent c Hh).
  - by rewrite on_error_sent.
  - by rewrite on_reject_sent.
  - by rewrite on_end_sent.
  - pose proof (Inv_run after c HInv) as HInv'.
    apply (inv_called _ HInv').
    rewrite no_call_after_return; [done|].
    intros Hp. destruct (inv_preparing _ HInv Hp) as (_ & Hnone & _).
    fold c in Hnone. rewrite Hnone in Hcall. by destruct Hcall.
Qed.

(** What the [close] listener does when it is called.  The client is
    marked gone, the timer, if one was set, is cleared, and the upstream
    stream is destroyed if the handler already holds it; from then on no
    frame is written and no timer is pending.  Called while the
    upstream call is still awaited it destroys nothing at that point:
    the stream is destroyed when its first data arrives. *)
Lemma close_listener_cancels (before after : list Event) (chunk : string) :
  let c := deliver_all before entered in
  let c' := deliver c Close in
  isClientConnected c' = false ∧
  timerPending c' = false ∧
  upstreamDestroyed c' = (axiosResponse c || upstreamDestroyed c) ∧
  frames (res (deliver_all after c')) = frames (res c) ∧
  chunks (res (deliver_all after c')) = chunks (res c) ∧
  timerPending (deliver_all after c') = false ∧
  (phase c = AwaitingUpstream →
   upstreamDestroyed (deliver_all [Resolve; Data chunk] c') = true).
Proof.
  intros c c'.
  pose proof (Inv_run before entered Inv_entered) as HInv.
  assert (isClientConnected c' = false) as Hgone by done.
  assert (timerPending c' = false) as Hclear.
  { unfold c', Worker.deliver, on_close, clearTimer, destroyUpstream. simpl.
    destruct (timeoutId c) eqn:Hid; [done|].
    destruct (timerPending c) eqn:Htp; [|done].
    pose proof (inv_timer _ HInv Htp) as Hset. fold c in Hset. congruence. }
  destruct (gone_run after c' Hgone Hclear) as (_ & Hnever & Hframes).
  assert (frames (res (deliver_all after c')) = frames (res c)) as Hsame
    by (by rewrite Hframes).
  split_and!; try done.
  - unfold chunks. by rewrite Hsame.
  - intros Hph.
    unfold Worker.deliver_all, c', Worker.deliver, on_close, clearTimer,
      destroyUpstream. simpl. rewrite Hph. simpl.
    by case_match.
Qed.

(** Without a call of the [close] listener the client counts as
    connected. *)
Lemma connected_step (c : Chat) (e : Event) :
  e ≠ Close → isClientConnected c = true →
  isClientConnected (deliver c e) = true.
Proof.
  intros He Hc. destruct e; try done; unfold Worker.deliver.
  - destruct (phase c); try done.
    unfold prepared, outer_catch, reportError, with_phase, with_res,
      clearTimer, countError, setTimer, res_json.
    by repeat case_match.
  - by destruct (phase c).
  - destruct (phase c); try done.
    unfold on_reject, reportError, with_phase, with_res, clearTimer,
      countError.
    by repeat case_match.
  - destruct (phase c); try done. case_match; [done|].
    pose proof (on_data_vars chunk c Hc) as Hv. unfold vars in Hv.
    injection Hv as Hv _ _ _ _ _ _ _. by rewrite Hv.
  - destruct (phase c); try done. case_match; [done|].
    unfold on_end, with_phase, with_res, clearTimer. by repeat case_match.
  - destruct (phase c); try done. case_match; [done|].
    unfold on_error, reportError, with_phase, with_res, clearTimer,
      countError.
    by repeat case_match.
  - case_match; [|done].
    unfold on_timeout, destroyUpstream, reportError, with_res.
    by repeat case_match.
Qed.

(** A request that has emitted [close] emits it no more: what happens
    to it afterwards is what the event loop delivers. *)
Lemma closed_request_run (hs : list Happening) (k : Conn) :
  Incoming.closed (request k) = true →
  Incoming.closed (request (foldl happen k hs)) = true ∧
  chat (foldl happen k hs) = deliver_all (delivered hs) (chat k).
Proof.
  revert k. induction hs as [|h hs IH]; intros k Hk; [done|].
  assert (Incoming.closed (request (happen k h)) = true ∧
          chat (happen k h) = deliver_all (delivered [h]) (chat k))
    as [Hk' Hc].
  { destruct h as [|e].
    - unfold Worker.happen, Incoming.socket_closed. by rewrite Hk.
    - by destruct e. }
  destruct (IH _ Hk') as [Hclosed Hchat].
  simpl. split; [done|]. rewrite Hchat, Hc.
  unfold Worker.delivered, Worker.deliver_all.
  destruct h as [|e]; [done|]. by destruct e.
Qed.

Lemma delivered_connected (es : list Event) (c : Chat) :
  Forall (λ e, e ≠ Close) es → isClientConnected c = true →
  isClientConnected (deliver_all es c) = true.
Proof.
  unfold Worker.deliver_all. revert c.
  induction es as [|e es IH]; intros c Hes Hc; [done|].
  apply Forall_cons in Hes as [He Hes]. simpl.
  apply IH; [done|]. by apply connected_step.
Qed.

Lemma delivered_no_close (hs : list Happening) :
  Forall (λ e, e ≠ Close) (delivered hs).
Proof.
  unfold Worker.delivered.
  induction hs as [|h hs IH]; simpl; [done|].
  destruct h as [|e]; [done|]. destruct e; simpl; try done;
    by constructor.
Qed.

(** C5, what the code does.  On Node 16 and later the request has
    emitted [close] when the handler adds its listener, the body having
    been read before, so nothing calls the listener: whatever happens to
    the request and whenever the client leaves, the client counts as
    connected and the request is where the events delivered by the
    event loop alone have brought it.  A disconnect changes nothing: an
    upstream call that is outstanding stays so, a timer that is pending
    stays pending, and the chunks that arrive afterwards are handled,
    and their frames written, as for a client that is there. *)
Theorem disconnect_is_not_observed (left : bool) (hs : list Happening)
    (chunk : string) :
  let k := foldl happen (enter (Incoming.parsed Incoming.Node16 left)) hs in
  chat k = deliver_all (delivered hs) entered ∧
  isClientConnected (chat k) = true ∧
  chat (happen k Disconnect) = chat k ∧
  outstanding (chat (happen k Disconnect)) = outstanding (chat k) ∧
  timerPending (chat (happen k Disconnect)) = timerPending (chat k) ∧
  chat (happen (happen k Disconnect) (Loop (Data chunk)))
  = deliver (chat k) (Data chunk).
Proof.
  intros k.
  assert (Incoming.closed (request (enter (Incoming.parsed Incoming.Node16
                                              left))) = true) as Hclosed
    by (by destruct left).
  destruct (closed_request_run hs _ Hclosed) as [Hk Hchat].
  fold k in Hk, Hchat.
  assert (chat (happen k Disconnect) = chat k) as Hsame.
  { unfold Worker.happen, Incoming.socket_closed. by rewrite Hk. }
  split_and!; [done| |done|by rewrite Hsame|by rewrite Hsame|].
  - rewrite Hchat. apply delivered_connected; [|done].
    apply delivered_no_close.
  - change (chat (happen (happen k Disconnect) (Loop (Data chunk))))
      with (deliver (chat (happen k Disconnect)) (Data chunk)).
    by rewrite Hsame.
Qed.

(** A client that has left before the upstream call.  A request that is
    not empty, with a model given as a string or not at all, is
    accepted on the handler's fresh variables. *)
Lemma prepared_accepts (b : Body) :
  truthy (message b) = true ∨ body_files b ≠ [] →
  model b ≠ ModelOther →
  let m := match model b with
           | ModelName n => n
           | _ => "Qwen/Qwen2.5-72B-Instruct"%string
           end in
  let c := prepared b entered in
  phase c = AwaitingUpstream ∧ frames (res c) = [modelInfo m] ∧
  timerPending c = true ∧ isClientConnected c = true ∧
  ∃ call, upstreamCall c = Some call ∧ up_model call = m.
Proof.
  intros Hbody Hmodel m c.
  assert (negb (truthy (message b)) && (length (body_files b) =? 0) = false)
    as Hnonempty.
  { apply andb_false_iff. destruct Hbody as [Ht|Hf].
    - left. by rewrite Ht.
    - right. apply Nat.eqb_neq. by destruct (body_files b). }
  unfold c, prepared. rewrite Hnonempty. fold m.
  destruct (model b); try done; simpl; split_and!; try done; by eexists.
Qed.

End ChatStreamFacts.


Lemma failed_stream_gets_no_terminal_marker_witness :
  let c := Worker.deliver_all Worker.toy_parse
             [Worker.Prepared Worker.hello; Worker.Resolve] Worker.entered in
  Worker.res (Worker.on_timeout c) = Worker.res c ∧
  Worker.res (Worker.on_error "socket hang up" c) = Worker.res c ∧
  Worker.res (Worker.on_reject (Some 500) c) = Worker.res c ∧
  Worker.res (Worker.on_end c) = Worker.res c ∧
  Worker.writableEnded
    (Worker.res (Worker.deliver_all Worker.toy_parse
                   [Worker.Timeout; Worker.Close] c)) = false.
Proof.
  apply (failed_stream_gets_no_terminal_marker Worker.toy_parse
           [Worker.Prepared Worker.hello; Worker.Resolve] _ _ _).
  simpl. by eexists.
Defined.

(** The same run, evaluated: after the timer has fired the client has
    the model frame only, and the response is still open. *)
Lemma timeout_leaves_stream_open :
  let c := Worker.deliver_all Worker.toy_parse
             [Worker.Prepared Worker.hello; Worker.Resolve; Worker.Timeout]
             Worker.entered in
  Worker.frames (Worker.res c) = [Worker.ModelInfo "Qwen2.5-72B"] ∧
  Worker.writableEnded (Worker.res c) = false ∧
  Worker.isClientConnected c = true.
Proof. by vm_compute. Qed.

(** The [close] listener destroys only a stream the handler already
    holds: called while the upstream call is awaited it leaves that call
    outstanding. *)
Lemma close_while_awaiting_upstream :
  let c := Worker.deliver_all Worker.toy_parse [Worker.Prepared Worker.hello]
             Worker.entered in
  Worker.outstanding c = true ∧
  Worker.outstanding (Worker.deliver Worker.toy_parse c Worker.Close) = true ∧
  Worker.upstreamDestroyed (Worker.deliver Worker.toy_parse c Worker.Close)
  = false.
Proof. by vm_compute. Qed.

(** A request on Node 16 whose client leaves in mid-stream: the upstream
    call stays outstanding, the timer pending, and the chunk that comes
    next is written. *)
Lemma disconnect_in_mid_stream :
  let k := foldl (Worker.happen Worker.toy_parse)
             (Worker.enter (Incoming.parsed Incoming.Node16 false))
             [Worker.Loop (Worker.Prepared Worker.hello);
              Worker.Loop Worker.Resolve;
              Worker.Loop (Worker.Data ("data: c=Hel" +:+ Bridge.LF));
              Worker.Disconnect] in
  Worker.isClientConnected (Worker.chat k) = true ∧
  Worker.outstanding (Worker.chat k) = true ∧
  Worker.upstreamDestroyed (Worker.chat k) = false ∧
  Worker.timerPending (Worker.chat k) = true ∧
  Worker.frames
    (Worker.res
       (Worker.chat
          (Worker.happen Worker.toy_parse k
             (Worker.Loop (Worker.Data ("data: c=lo" +:+ Bridge.LF))))))
  = [Worker.ModelInfo "Qwen2.5-72B"; Worker.Chunk "Hel"; Worker.Chunk "lo"].
Proof. by vm_compute. Qed.

(** ** Bridge: the conversation history *)

Section BridgeFacts.

Import Bridge.

Variable MAX_HISTORY_TURNS : Z.
Variable DEFAULT_SYSTEM_PROMPT : string.

Local Abbreviation truncateConversation :=
  (Bridge.truncateConversation MAX_HISTORY_TURNS DEFAULT_SYSTEM_PROMPT).
Local Abbreviation systemEntry := (Bridge.systemEntry DEFAULT_SYSTEM_PROMPT).
Local Abbreviation getConversation :=
  (Bridge.getConversation DEFAULT_SYSTEM_PROMPT).
Local Abbreviation chat_begin :=
  (Bridge.chat_begin MAX_HISTORY_TURNS DEFAULT_SYSTEM_PROMPT).
Local Abbreviation chat_end :=
  (Bridge.chat_end MAX_HISTORY_TURNS DEFAULT_SYSTEM_PROMPT).
Local Abbreviation session_reset :=
  (Bridge.session_reset DEFAULT_SYSTEM_PROMPT).
Local Abbreviation bounded := (Bridge.bounded MAX_HISTORY_TURNS).

Lemma filter_non_system_all (h : list Message) :
  forallb non_system (List.filter non_system h) = true.
Proof.
  apply forallb_forall. intros m Hm. by apply filter_In in Hm as [_ ?].
Qed.

Lemma forallb_drop (n : nat) (h : list Message) :
  forallb non_system h = true → forallb non_system (drop n h) = true.
Proof.
  revert h. induction n as [|n IH]; intros [|m h]; simpl; try done.
  intros [_ Hh]%andb_prop. by apply IH.
Qed.

Lemma truncate_head_is_system (h : list Message) :
  is_system (default systemEntry (List.find is_system h)) = true.
Proof.
  destruct (List.find is_system h) as [m|] eqn:Hf; simpl; [|done].
  by apply List.find_some in Hf as [_ ?].
Qed.

(** [truncateConversation] builds a history that starts with its one
    system entry. *)
Lemma truncate_system_first (h : list Message) :
  system_first (truncateConversation h) = true.
Proof.
  unfold Bridge.truncateConversation, system_first, js_slice.
  rewrite truncate_head_is_system. simpl.
  apply forallb_drop, filter_non_system_all.
Qed.

Lemma turns_all_non_system (h : list Message) :
  forallb non_system h = true → turns h = length h.
Proof.
  unfold turns. induction h as [|m h IH]; simpl; [done|].
  intros [Hm Hh]%andb_prop. unfold non_system in Hm. rewrite Hm. simpl.
  by rewrite IH.
Qed.

(** ... and holds at most twice the configured number of turns. *)
Lemma truncate_bounded (h : list Message) :
  (0 < MAX_HISTORY_TURNS)%Z → bounded (truncateConversation h).
Proof.
  intros Hmax. unfold Bridge.bounded, Bridge.truncateConversation, turns.
  simpl. rewrite truncate_head_is_system. simpl.
  fold (turns (js_slice (- MAX_HISTORY_TURNS * 2)
                 (List.filter (λ m, negb (is_system m)) h))).
  rewrite turns_all_non_system
    by (apply forallb_drop, filter_non_system_all).
  unfold js_slice. rewrite length_drop.
  destruct (- MAX_HISTORY_TURNS * 2 <? 0)%Z eqn:Hneg; lia.
Qed.

(** Appending a turn keeps the system entry first and alone. *)
Lemma push_system_first (h : list Message) (m : Message) :
  is_system m = false → system_first h = true →
  system_first (h ++ [m]) = true.
Proof.
  intros Hm. destruct h as [|s rest]; simpl; [done|].
  intros [Hs Hrest]%andb_prop. rewrite Hs. simpl.
  rewrite forallb_app, Hrest. simpl. by rewrite Hm.
Qed.

Lemma pushUser_system_first (h : list Message) (message : option string)
    (files : list Attachment) :
  system_first h = true → system_first (pushUserMessage h message files) = true.
Proof. by apply push_system_first. Qed.

Lemma pushAssistant_system_first (h : list Message) (text : option string) :
  system_first h = true → system_first (pushAssistantMessage h text) = true.
Proof.
  intros Hh. unfold pushAssistantMessage. case_match; [done|].
  by apply push_system_first.
Qed.

(** A history that starts with its only system entry has no two system
    entries in a row. *)
Lemma system_first_no_consecutive (h : list Message) :
  system_first h = true → no_consecutive_system h = true.
Proof.
  destruct h as [|s rest]; [done|]. simpl.
  intros [_ Hrest]%andb_prop.
  revert s. induction rest as [|m rest IH]; intros s; [done|].
  simpl in Hrest. apply andb_prop in Hrest as [Hm Hrest].
  apply negb_true_iff in Hm.
  change (negb (is_system s && is_system m)
          && no_consecutive_system (m :: rest) = true).
  rewrite Hm, andb_false_r. simpl. by apply IH.
Qed.

Lemma well_formed_set_new (userId : string) (arr : list Message) (st : state) :
  system_first arr = true → well_formed st →
  well_formed (set_new userId arr st).2.
Proof.
  intros Harr Hst. unfold well_formed, set_new. simpl.
  apply Forall_app_2; [done|]. by constructor.
Qed.

Lemma well_formed_mutate (r : nat) (f : list Message → list Message)
    (st : state) :
  (∀ h, system_first h = true → system_first (f h) = true) →
  well_formed st → well_formed (mutate r f st).
Proof.
  intros Hf Hst. unfold well_formed, mutate. simpl.
  apply Forall_alter; [done|]. intros h _. apply Hf.
Qed.

Lemma well_formed_deref (st : state) (r : nat) (h : list Message) :
  well_formed st → heap st !! r = Some h → system_first h = true.
Proof. intros Hst Hr. by apply (Forall_lookup_1 _ _ _ _ Hst Hr). Qed.

Lemma stored_set_new (userId : string) (arr : list Message) (st : state) :
  stored (set_new userId arr st).2 userId = Some arr.
Proof.
  unfold stored, set_new. simpl. rewrite lookup_insert_eq. simpl.
  by rewrite lookup_app_r, Nat.sub_diag.
Qed.

Lemma well_formed_getConversation (userId : string) (st : state) :
  well_formed st → well_formed (getConversation userId st).2.
Proof.
  intros Hst. unfold Bridge.getConversation. case_match; [done|].
  by apply well_formed_set_new.
Qed.

Lemma well_formed_chat_begin (userId : string) (message : option string)
    (files : list Attachment) (st : state) :
  well_formed st → well_formed (chat_begin userId message files st).2.
Proof.
  intros Hst. unfold Bridge.chat_begin.
  pose proof (well_formed_getConversation userId st Hst) as Hst1.
  destruct (getConversation userId st) as [history st1]. simpl in Hst1.
  case_match; [done|]. simpl.
  apply well_formed_mutate; [|done]. intros h. apply pushUser_system_first.
Qed.

Lemma well_formed_chat_end (userId : string) (history : nat)
    (text : option string) (st : state) :
  well_formed st → well_formed (chat_end userId history text st).
Proof.
  intros Hst. unfold Bridge.chat_end.
  apply well_formed_set_new; [apply truncate_system_first|].
  apply well_formed_mutate; [|done]. intros h.
  apply pushAssistant_system_first.
Qed.

(** C8, as amended. Lazy creation, the append of a user turn, the append
    of the assistant turn with the truncation on completion, and the
    reset each leave every history with its one system entry first, so
    that no history has two system entries in a row.  The bound of twice
    the maximum number of turns holds for what [truncateConversation]
    returns: the history sent upstream, the history stored on
    completion; and for the history stored by a reset or a creation. *)
Theorem conversation_history_invariant (st : state) (userId : string)
    (message : option string) (files : list Attachment) (history : nat)
    (text : option string) :
  (0 < MAX_HISTORY_TURNS)%Z → well_formed st →
  (well_formed (getConversation userId st).2 ∧
   well_formed (chat_begin userId message files st).2 ∧
   well_formed (chat_end userId history text st) ∧
   well_formed (session_reset userId st)) ∧
  (∀ h, system_first h = true → no_consecutive_system h = true) ∧
  (∀ h, system_first (truncateConversation h) = true ∧
        bounded (truncateConversation h)) ∧
  (conversationStore st !! userId = None →
   stored (getConversation userId st).2 userId = Some [systemEntry]) ∧
  bounded [systemEntry] ∧
  stored (session_reset userId st) userId = Some [systemEntry] ∧
  (∃ h, stored (chat_end userId history text st) userId = Some h ∧
        system_first h = true ∧ bounded h) ∧
  (∀ r sent st', chat_begin userId message files st = (Asked r sent, st') →
                 system_first sent = true ∧ bounded sent).
Proof.
  intros Hmax Hst. split_and!.
  - by apply well_formed_getConversation.
  - by apply well_formed_chat_begin.
  - by apply well_formed_chat_end.
  - by apply well_formed_set_new.
  - apply system_first_no_consecutive.
  - intros h. split; [apply truncate_system_first|by apply truncate_bounded].
  - intros Hnone. unfold Bridge.getConversation. rewrite Hnone.
    apply stored_set_new.
  - unfold Bridge.bounded, turns. simpl. lia.
  - apply stored_set_new.
  - eexists. split; [apply stored_set_new|].
    split; [apply truncate_system_first|by apply truncate_bounded].
  - intros r sent st' Hbegin. unfold Bridge.chat_begin in Hbegin.
    destruct (getConversation userId st) as [r0 st1].
    case_match; [done|]. injection Hbegin as <- <- <-.
    split; [apply truncate_system_first|by apply truncate_bounded].
Qed.

End BridgeFacts.

Lemma conversation_history_invariant_witness :
  (Bridge.well_formed (Bridge.getConversation "prompt" "u1" Bridge.full_store).2 ∧
   Bridge.well_formed
     (Bridge.chat_begin 20 "prompt" "u1" (Some "hi"%string) [] Bridge.full_store).2 ∧
   Bridge.well_formed
     (Bridge.chat_end 20 "prompt" "u1" 0 (Some "fine"%string) Bridge.full_store) ∧
   Bridge.well_formed (Bridge.session_reset "prompt" "u1" Bridge.full_store)) ∧
  (∀ h, Bridge.system_first h = true → Bridge.no_consecutive_system h = true) ∧
  (∀ h, Bridge.system_first (Bridge.truncateConversation 20 "prompt" h) = true ∧
        Bridge.bounded 20 (Bridge.truncateConversation 20 "prompt" h)) ∧
  (Bridge.conversationStore Bridge.full_store !! "u1"%string = None →
   Bridge.stored (Bridge.getConversation "prompt" "u1" Bridge.full_store).2 "u1"
   = Some [Bridge.systemEntry "prompt"]) ∧
  Bridge.bounded 20 [Bridge.systemEntry "prompt"] ∧
  Bridge.stored (Bridge.session_reset "prompt" "u1" Bridge.full_store) "u1"
  = Some [Bridge.systemEntry "prompt"] ∧
  (∃ h, Bridge.stored
          (Bridge.chat_end 20 "prompt" "u1" 0 (Some "fine"%string) Bridge.full_store)
          "u1" = Some h ∧
        Bridge.system_first h = true ∧ Bridge.bounded 20 h) ∧
  (∀ r sent st',
     Bridge.chat_begin 20 "prompt" "u1" (Some "hi"%string) [] Bridge.full_store
     = (Bridge.Asked r sent, st') →
     Bridge.system_first sent = true ∧ Bridge.bounded 20 sent).
Proof.
  apply (conversation_history_invariant 20 "prompt" Bridge.full_store "u1"
           (Some "hi"%string) [] 0 (Some "fine"%string)).
  - lia.
  - repeat constructor.
Defined.

(** C8, as stated, fails on the bound: the user turn is pushed onto the
    stored array itself and only a copy is truncated, so a history that
    is full holds one turn too many once the request has begun, and it
    stays so unless the stream completes. *)
Lemma user_turn_exceeds_bound :
  let st' := (Bridge.chat_begin 20 "prompt" "u1" (Some "hi"%string) []
                Bridge.full_store).2 in
  Bridge.bounded 20 Bridge.full_history ∧
  Bridge.stored Bridge.full_store "u1" = Some Bridge.full_history ∧
  (∃ h, Bridge.stored st' "u1" = Some h ∧ Bridge.turns h = 41 ∧
        ¬ Bridge.bounded 20 h).
Proof.
  split; [unfold Bridge.bounded; vm_compute; by intros ?|].
  split; [reflexivity|].
  eexists. split; [reflexivity|]. split; [reflexivity|].
  unfold Bridge.bounded. vm_compute. by intros H.
Qed.

(** ** The process manager: replacing a worker *)

Section ProcessManagerFacts.

Import ProcessManager.

Lemma map_get_set {V} (k : nat) (v : V) (m : list (nat * V)) :
  map_get k (map_set k v m) = Some v.
Proof.
  induction m as [|[k' v'] m IH]; simpl.
  - by rewrite Nat.eqb_refl.
  - destruct (Nat.eqb k' k) eqn:Hk; simpl.
    + by rewrite Nat.eqb_refl.
    + by rewrite Hk.
Qed.

(** What [forkWorker] registers and starts, whatever the state. *)
Lemma forkWorker_registered (id : nat) (now : Z) (st : state) :
  registered id (forkWorker id now st)
  = Some ({| WORKER_ID := id;
             WORKER_PORT := basePort (config st) + id - 1;
             dead := false |},
          {| pid := length (processes st); startedAt := now; restarts := 0 |}).
Proof.
  unfold registered, forkWorker. simpl. rewrite map_get_set. simpl.
  by rewrite lookup_app_r, Nat.sub_diag.
Qed.

(** C6. A replacement always gets the ordinal and the port of the worker
    it replaces, but the restart counter counts graceful restarts only:
    the exit listener registers the replacement through [forkWorker],
    which writes [restarts: 0], and adds nothing.  Worker 1 crashes and
    its counter is 0 afterwards, not 1; after a graceful restart the
    counter is 1, and a crash then takes it back to 0. *)
Theorem crash_resets_restart_counter :
  (∀ st p now n,
     findWorkerIdByPid p st = Some (S n) →
     registered (S n) (on_exit p now st)
     = Some ({| WORKER_ID := S n;
                WORKER_PORT := basePort (config st) + S n - 1;
                dead := false |},
             {| pid := length (processes st); startedAt := now;
                restarts := 0 |})) ∧
  let st0 := setupMaster four_workers 0 in
  registered 1 st0
  = Some ({| WORKER_ID := 1; WORKER_PORT := 3001; dead := false |},
          {| pid := 0; startedAt := 0; restarts := 0 |}) ∧
  registered 1 (on_exit 0 500 st0)
  = Some ({| WORKER_ID := 1; WORKER_PORT := 3001; dead := false |},
          {| pid := 4; startedAt := 500; restarts := 0 |}) ∧
  registered 1 (graceful_restart 1 500 501 st0)
  = Some ({| WORKER_ID := 1; WORKER_PORT := 3001; dead := false |},
          {| pid := 5; startedAt := 501; restarts := 1 |}) ∧
  registered 1 (on_exit 5 900 (graceful_restart 1 500 501 st0))
  = Some ({| WORKER_ID := 1; WORKER_PORT := 3001; dead := false |},
          {| pid := 6; startedAt := 900; restarts := 0 |}).
Proof.
  split; [|by vm_compute].
  intros st p now n Hfind. unfold on_exit.
  assert (findWorkerIdByPid p (mark_dead p st) = Some (S n)) as -> by done.
  rewrite forkWorker_registered. simpl.
  by rewrite length_alter.
Qed.

(** A graceful restart, by itself, adds one to the counter and keeps
    ordinal and port, whether the worker leaves or has to be killed. *)
Lemma graceful_restart_counts :
  let st0 := setupMaster four_workers 0 in
  registered 1 (forced_restart 1 10500 10501 st0)
  = Some ({| WORKER_ID := 1; WORKER_PORT := 3001; dead := false |},
          {| pid := 4; startedAt := 10500; restarts := 1 |}) ∧
  length (processes (forced_restart 1 10500 10501 st0)) = 5 ∧
  length (processes (graceful_restart 1 500 501 st0)) = 6.
Proof. by vm_compute. Qed.

End ProcessManagerFacts.

(** ** The start scripts: order of shutdown *)

Section SupervisorFacts.

Import Supervisor.

(** What server/start.js does on a signal. *)
Lemma ServerStart_trace (ids : list nat) (now : Z) :
  trace (on_signal ServerStart ids now)
  = (now, Kill BalancerProcess "SIGTERM")
    :: map (pair (now + 1000)%Z)
         (map (λ i, Kill (WorkerProcess i) "SIGTERM") ids)
    ++ [((now + 1000 + 3000)%Z, Exit 0)].
Proof. reflexivity. Qed.

(** What start-cluster.js does on a signal. *)
Lemma StartCluster_trace (ids : list nat) (now : Z) :
  trace (on_signal StartCluster ids now)
  = map (pair now) (map (λ i, Kill (WorkerProcess i) "SIGTERM") ids)
    ++ [((now + 5000)%Z, Kill BalancerProcess "SIGTERM");
        ((now + 5000)%Z, Exit 0)].
Proof.
  unfold on_signal. simpl. by rewrite <- app_assoc.
Qed.

Lemma worker_kill_in (t : Z) (ids : list nat) (i : nat) :
  i ∈ ids →
  (t, Kill (WorkerProcess i) "SIGTERM")
  ∈ map (pair t) (map (λ i, Kill (WorkerProcess i) "SIGTERM") ids).
Proof.
  intros Hi.
  apply (list_elem_of_fmap_2 (pair t)).
  by apply (list_elem_of_fmap_2 (λ i, Kill (WorkerProcess i) "SIGTERM")).
Qed.

Lemma worker_kill_time (t t' : Z) (ids : list nat) (e : Effect) :
  (t', e) ∈ map (pair t) (map (λ i, Kill (WorkerProcess i) "SIGTERM") ids) →
  t' = t.
Proof.
  intros Hin.
  by apply (list_elem_of_fmap_1 (pair t)) in Hin as (x & [= -> _] & _).
Qed.

(** C7, as amended. server/start.js signals the balancer at once, every
    worker one second later, and exits three seconds after that, four
    seconds after the signal; nothing is done after the exit.
    start-cluster.js does it the other way round: the workers are
    signalled at once, the balancer five seconds later, together with
    the exit. *)
Theorem shutdown_order (ids : list nat) (now : Z) :
  balancer_first now 4000 ids (trace (on_signal ServerStart ids now)) ∧
  exited (on_signal ServerStart ids now) = true ∧
  trace (on_signal ServerStart ids now)
  = (now, Kill BalancerProcess "SIGTERM")
    :: map (pair (now + 1000)%Z)
         (map (λ i, Kill (WorkerProcess i) "SIGTERM") ids)
    ++ [((now + 1000 + 3000)%Z, Exit 0)] ∧
  trace (on_signal StartCluster ids now)
  = map (pair now) (map (λ i, Kill (WorkerProcess i) "SIGTERM") ids)
    ++ [((now + 5000)%Z, Kill BalancerProcess "SIGTERM");
        ((now + 5000)%Z, Exit 0)] ∧
  exited (on_signal StartCluster ids now) = true.
Proof.
  split_and!; [|done|apply ServerStart_trace|apply StartCluster_trace|done].
  rewrite ServerStart_trace. exists now. split_and!.
  - done.
  - intros i Hi. exists (now + 1000)%Z.
    apply elem_of_cons. right. apply elem_of_app. left.
    by apply worker_kill_in.
  - intros tw e Hin Hkill.
    apply elem_of_cons in Hin as [[= -> ->]|Hin]; [done|].
    apply elem_of_app in Hin as [Hin|Hin].
    + apply worker_kill_time in Hin. lia.
    + apply list_elem_of_singleton in Hin as [= -> ->]. done.
  - exists (now + 1000 + 3000)%Z, 0%Z. split_and!.
    + apply elem_of_cons. right. apply elem_of_app. right.
      by apply list_elem_of_singleton.
    + lia.
    + intros t e Hin.
      apply elem_of_cons in Hin as [[= -> ->]|Hin]; [lia|].
      apply elem_of_app in Hin as [Hin|Hin].
      * apply worker_kill_time in Hin. lia.
      * apply list_elem_of_singleton in Hin as [= -> ->]. lia.
Qed.

(** C7, as stated, fails for start-cluster.js: with its four workers the
    balancer is the last process to be signalled, five seconds after
    the workers. *)
Lemma StartCluster_signals_balancer_last :
  balancer_signalled (trace (on_signal StartCluster [1; 2; 3; 4] 0))
  = Some 5000%Z ∧
  (0%Z, Kill (WorkerProcess 1) "SIGTERM")
  ∈ trace (on_signal StartCluster [1; 2; 3; 4] 0) ∧
  ¬ balancer_first 0 5000 [1; 2; 3; 4]
      (trace (on_signal StartCluster [1; 2; 3; 4] 0)).
Proof.
  split; [reflexivity|]. split; [apply elem_of_cons; by left|].
  intros (tb & Hb & _ & Hlater & _).
  injection Hb as <-.
  specialize (Hlater 0%Z (Kill (WorkerProcess 1) "SIGTERM")).
  assert (5000 < 0)%Z; [|lia].
  apply Hlater; [|done]. apply elem_of_cons. by left.
Qed.

End SupervisorFacts.

(** * Further properties of the code *)

(** ** Balancer: the cursor *)

Section BalancerCursor.

Import Balancer.

Variable pool : list string.
Hypothesis pool_not_empty : 0 < length pool.



End BalancerCursor.


(** ** Upload: types, names and the session's file list *)

Section UploadFacts.

Import Upload.

(** Every type the two extension tables correct to is a key of
    [FILE_TYPE_MAP]. *)
Lemma extensionToMimeType_mapped (e m : string) :
  own extensionToMimeType e = Some m → is_Some (own FILE_TYPE_MAP m).
Proof.
  unfold extensionToMimeType. cbn [own].
  repeat (destruct (String.eqb _ e); [intros [= <-]; eexists; reflexivity|]).
  done.
Qed.

Lemma supportedExtensions_mapped (e m : string) :
  own supportedExtensions e = Some m → is_Some (own FILE_TYPE_MAP m).
Proof.
  unfold supportedExtensions. cbn [own].
  repeat (destruct (String.eqb _ e); [intros [= <-]; eexists; reflexivity|]).
  done.
Qed.

(** The array of extensions names the keys of the object, no more. *)
Lemma supportedExtensionList_covered (e : string) :
  own supportedExtensions e = None →
  existsb (String.eqb e) supportedExtensionList = false.
Proof.
  unfold supportedExtensions, supportedExtensionList. cbn [own existsb].
  rewrite !(String.eqb_sym e).
  repeat (destruct (String.eqb _ e); [done|]; cbn [orb]).
  done.
Qed.

Lemma own_is_mapped (m : string) :
  is_Some (own FILE_TYPE_MAP m) → in_FILE_TYPE_MAP m = true.
Proof. intros [c Hc]. unfold in_FILE_TYPE_MAP. by rewrite Hc. Qed.

(** X2. [fileFilter] accepts a part exactly when its declared type is in
    [FILE_TYPE_MAP] or, failing that, its extension is one of the eleven
    supported ones; in the second case the type is replaced by the type
    of the extension, which is a key of [FILE_TYPE_MAP].  A part
    declared application/octet-stream is accepted whatever its name. *)
Theorem fileFilter_decides (file : Part) :
  let extension := toLowerCase (extname (originalname file)) in
  match fileFilter file with
  | inl accepted =>
      (in_FILE_TYPE_MAP (mimetype file) = true ∧ accepted = file) ∨
      (in_FILE_TYPE_MAP (mimetype file) = false ∧
       ∃ m, own supportedExtensions extension = Some m ∧
            accepted = with_mimetype m file ∧
            is_Some (own FILE_TYPE_MAP m))
  | inr _ =>
      in_FILE_TYPE_MAP (mimetype file) = false ∧
      own supportedExtensions extension = None
  end ∧
  (mimetype file = "application/octet-stream"%string →
   fileFilter file = inl file).
Proof.
  intros extension. split.
  - unfold fileFilter. fold extension.
    destruct (in_FILE_TYPE_MAP (mimetype file)) eqn:Hin; [by left|].
    rewrite orb_true_r.
    destruct (own supportedExtensions extension) as [m|] eqn:Hext.
    + right. split; [done|]. exists m. split_and!; try done.
      by eapply supportedExtensions_mapped.
    + by rewrite supportedExtensionList_covered.
  - intros Hoct. unfold fileFilter. by rewrite Hoct.
Qed.

(** X3. [fixMimeType] applied twice gives what it gives once, and it
    only ever returns the type it was given or a key of
    [FILE_TYPE_MAP]. *)
Theorem fixMimeType_settles (fileName currentMimeType : string) :
  fixMimeType fileName (fixMimeType fileName currentMimeType)
  = fixMimeType fileName currentMimeType ∧
  (fixMimeType fileName currentMimeType = currentMimeType ∨
   is_Some (own FILE_TYPE_MAP (fixMimeType fileName currentMimeType))).
Proof.
  unfold fixMimeType.
  destruct (own extensionToMimeType (toLowerCase (extname fileName)))
    as [c|] eqn:Hext.
  - destruct ((currentMimeType =? "application/octet-stream")%string
              || negb (in_FILE_TYPE_MAP currentMimeType)
              || (currentMimeType =? "application/msword")%string) eqn:Hfix.
    + split; [by case_match|right]. by eapply extensionToMimeType_mapped.
    + rewrite Hfix. by split; [|left].
  - split; [|left]; by repeat case_match.
Qed.

(** What [take_until] returns holds no separator. *)
Lemma take_until_free (a : ascii) (l : list ascii) :
  Forall (λ c, c ≠ a) (take_until a l).
Proof.
  induction l as [|c l IH]; simpl; [done|].
  destruct (Ascii.eqb_spec c a); [done|]. by constructor.
Qed.

Lemma take_until_sub (a : ascii) (P : ascii → Prop) (l : list ascii) :
  Forall P l → Forall P (take_until a l).
Proof.
  induction 1 as [|c l Hc Hl IH]; simpl; [done|].
  case_match; [done|]. by constructor.
Qed.

Lemma no_slash_of_list (l : list ascii) :
  Forall (λ c, c ≠ slash) l → no_slash (string_of_list_ascii l) = true.
Proof.
  induction 1 as [|c l Hc Hl IH]; simpl; [done|].
  rewrite IH, andb_true_r. apply negb_true_iff.
  by destruct (Ascii.eqb_spec c slash).
Qed.

Lemma no_slash_app (a b : string) :
  no_slash (a +:+ b) = no_slash a && no_slash b.
Proof.
  induction a as [|c a IH]; simpl; [done|].
  change (String c a +:+ b) with (String c (a +:+ b)). simpl.
  by rewrite IH, andb_assoc.
Qed.

(** An extension never holds a path separator. *)
Lemma extname_no_slash (p : string) : no_slash (extname p) = true.
Proof.
  unfold extname.
  destruct (after_first dot (basename_rev p)) as [before|]; [|done].
  assert (no_slash (string_of_list_ascii
                      (dot :: rev (take_until dot (basename_rev p)))) = true)
    as Hext.
  { apply no_slash_of_list. constructor; [done|].
    apply Forall_rev, take_until_sub. apply take_until_free. }
  destruct before as [|c [|c' before]]; [done| |done].
  destruct (take_until dot (basename_rev p)); [|done].
  by case_match.
Qed.

(** X4. The name a file is stored under holds no path separator when
    the time stamp and the random digits hold none, whatever name the
    client sent: it cannot lead out of the directory it is stored in. *)
Theorem generateFileName_is_flat (stamp random originalName : string) :
  no_slash stamp = true → no_slash random = true →
  no_slash (generateFileName stamp random originalName) = true.
Proof.
  intros Hs Hr. unfold generateFileName.
  by rewrite !no_slash_app, Hs, Hr, extname_no_slash.
Qed.

(** What an accepted part looks like, and what [fixMimeType] returns. *)
Lemma fileFilter_accepted (file f : Part) :
  fileFilter file = inl f →
  (in_FILE_TYPE_MAP (mimetype file) = true ∧ f = file) ∨
  (∃ m, f = with_mimetype m file ∧ is_Some (own FILE_TYPE_MAP m)).
Proof.
  unfold fileFilter.
  destruct (in_FILE_TYPE_MAP (mimetype file)) eqn:Hin.
  { intros [= <-]. by left. }
  rewrite orb_true_r.
  destruct (own supportedExtensions
              (toLowerCase (extname (originalname file)))) as [m|] eqn:Hext.
  - intros [= <-]. right. exists m. split; [done|].
    by eapply supportedExtensions_mapped.
  - by rewrite supportedExtensionList_covered.
Qed.

Lemma fixMimeType_given_or_mapped (fileName currentMimeType : string) :
  fixMimeType fileName currentMimeType = currentMimeType ∨
  is_Some (own FILE_TYPE_MAP (fixMimeType fileName currentMimeType)).
Proof.
  unfold fixMimeType.
  destruct (own extensionToMimeType (toLowerCase (extname fileName)))
    as [c|] eqn:Hext; [|left; by repeat case_match].
  case_match; [right|by left]. by eapply extensionToMimeType_mapped.
Qed.

(** X5. A part that passes the filter and the storage has a type that is
    a key of [FILE_TYPE_MAP]; the category in its descriptor is the one
    the map gives for that type, and it is stored under
    user/stamp/category/name, the name being the descriptor's id. *)
Theorem received_file_is_typed (userId dirStamp stamp random decoded iso : string)
    (file : Part) (stored : Stored) :
  receive userId dirStamp stamp random decoded file = inl stored →
  let d := describe decoded iso stored in
  is_Some (own FILE_TYPE_MAP (d_type d)) ∧
  d_type d = st_mimetype stored ∧
  d_category d = own FILE_TYPE_MAP (d_type d) ∧
  d_id d = generateFileName stamp random decoded ∧
  (∃ c, d_category d = Some c ∧
        d_path d = path_join [userId; dirStamp; c; d_id d]).
Proof.
  unfold receive. intros Hrec.
  pose proof (fileFilter_accepted file) as Hdec.
  destruct (fileFilter file) as [f|e]; [|done].
  specialize (Hdec f eq_refl).
  destruct (category_dir (fixMimeType (originalname f) (mimetype f)))
    as [fileType|] eqn:Hcat; [|done].
  injection Hrec as <-.
  set (m := fixMimeType (originalname f) (mimetype f)) in *.
  assert (is_Some (own FILE_TYPE_MAP m)) as [c Hc].
  { destruct (fixMimeType_given_or_mapped (originalname f) (mimetype f))
      as [Hsame|Hown]; [|done].
    fold m in Hsame. unfold category_dir in Hcat.
    destruct (own FILE_TYPE_MAP m) as [c|] eqn:Hown; [by eexists|].
    destruct (is_inherited m) eqn:Hinh; [done|].
    assert (in_FILE_TYPE_MAP m = false) as Hnot
      by (unfold in_FILE_TYPE_MAP; by rewrite Hown, Hinh).
    rewrite Hsame in Hnot, Hown.
    destruct Hdec as [[Hin ->]|(m' & -> & Hm')].
    - congruence.
    - unfold with_mimetype in Hown. cbn [mimetype] in Hown.
      rewrite Hown in Hm'. by destruct Hm'. }
  assert (m ≠ EmptyString) as Hne by (intros Hm; by rewrite Hm in Hc).
  unfold describe. simpl.
  rewrite (proj2 (String.eqb_neq m EmptyString) Hne).
  unfold category_dir in *. rewrite Hc in *. injection Hcat as <-.
  split_and!; try done. by exists c.
Qed.

Lemma received_file_is_typed_witness :
  let file := {| originalname := "report.PDF"; mimetype := "application/octet-stream";
                 size := 1024 |} in
  ∃ stored,
    receive "u1" "1700000000000" "1700000000001" "00ff00ff00ff00ff"
      "report.PDF" file = inl stored ∧
    let d := describe "report.PDF" "2023-11-14T22:13:20.001Z" stored in
    is_Some (own FILE_TYPE_MAP (d_type d)) ∧
    d_type d = st_mimetype stored ∧
    d_category d = own FILE_TYPE_MAP (d_type d) ∧
    d_id d = generateFileName "1700000000001" "00ff00ff00ff00ff" "report.PDF" ∧
    (∃ c, d_category d = Some c ∧
          d_path d = path_join ["u1"%string; "1700000000000"%string; c; d_id d]).
Proof.
  eexists. split; [reflexivity|].
  by apply (received_file_is_typed "u1" "1700000000000" "1700000000001"
              "00ff00ff00ff00ff" "report.PDF" "2023-11-14T22:13:20.001Z"
              {| originalname := "report.PDF";
                 mimetype := "application/octet-stream"; size := 1024 |}).
Defined.

Lemma generateFileName_is_flat_witness :
  no_slash (generateFileName "1700000000001" "00ff00ff00ff00ff"
              "../../etc/passwd.txt") = true.
Proof.
  apply generateFileName_is_flat; reflexivity.
Defined.

End UploadFacts.

(** ** The session's files: listing, removing, cleaning up *)

Section SessionFilesFacts.

Import Upload.

Lemma removeFile_others (fileId : string) (entries : list Entry) :
  Forall (λ g, d_id (e_descriptor g) ≠ fileId) entries →
  removeFile fileId entries = entries.
Proof.
  unfold removeFile. induction 1 as [|g entries Hg Hall IH]; [done|].
  simpl. rewrite (proj2 (String.eqb_neq _ _) Hg). simpl. by rewrite IH.
Qed.

(** X6. After an upload the file list of the session has one entry
    more, the last, and it carries the descriptor that was sent back
    (identifier, name, type and the rest) with the session as owner;
    removing that identifier restores the list when the identifier was
    new, and leaves no entry with it in any case.  A request without a
    file is answered 400 and changes nothing. *)
Theorem upload_then_list (sessionId : string) (now : Z) (iso decoded : string)
    (file : Stored) (entries : list Entry) :
  let result := upload sessionId now iso decoded (Some file) entries in
  ∃ d, result.1 = Uploaded d ∧
       d_id d = st_filename file ∧
       (listFiles result.2).1 = S (length entries) ∧
       last (listFiles result.2).2
       = Some {| e_descriptor := d; e_uploadedAt := now;
                 e_userId := sessionId |} ∧
       Forall (λ g, d_id (e_descriptor g) ≠ d_id d)
         (removeFile (d_id d) result.2) ∧
       (Forall (λ g, d_id (e_descriptor g) ≠ d_id d) entries →
        removeFile (d_id d) result.2 = entries) ∧
       ∃ e, upload sessionId now iso decoded None entries
            = (BadRequest e, entries).
Proof.
  simpl. eexists. split; [reflexivity|]. split; [done|].
  unfold addFile. rewrite length_app, last_snoc. simpl.
  split; [lia|]. split; [done|]. split_and!.
  - unfold removeFile. apply Forall_forall. intros g Hg.
    apply list_elem_of_In, filter_In in Hg as [_ Hg].
    apply negb_true_iff in Hg. by apply String.eqb_neq in Hg.
  - intros Hnew. unfold removeFile. rewrite List.filter_app. simpl.
    rewrite String.eqb_refl. simpl. rewrite app_nil_r.
    by apply removeFile_others.
  - by eexists.
Qed.

Lemma string_app_assoc (a b c : string) : (a +:+ b) +:+ c = a +:+ (b +:+ c).
Proof.
  induction a as [|x a IH]; [done|].
  change (String x ((a +:+ b) +:+ c) = String x (a +:+ (b +:+ c))).
  by rewrite IH.
Qed.

Lemma no_slash_separator (a b : string) : no_slash (a +:+ "/" +:+ b) = false.
Proof. rewrite no_slash_app. simpl. by rewrite andb_false_r. Qed.

(** [clearFiles] leaves every path it does not name. *)
Lemma clearFiles_keeps (base : string) (s : Worker.UserSession)
    (p : string) (disk : gset string) :
  Forall (λ g, p ≠ path_join [base; Worker.id s; Worker.fileId g])
    (Worker.files s) →
  p ∈ disk → p ∈ (Worker.clearFiles base disk s).1.
Proof.
  unfold Worker.clearFiles. simpl.
  generalize (Worker.files s). intros fs Hfs. revert disk.
  induction Hfs as [|g fs Hg Hfs IH]; intros disk Hp; [done|].
  simpl. apply IH. set_solver.
Qed.

(** X7. [clearFiles] unlinks base/user/id for every entry, but an
    uploaded file is stored four levels down, under
    base/user/stamp/category/name: when the identifiers of the session's
    files hold no separator, as generated names do, no uploaded file is
    removed by [clearFiles] or by [cleanupInactive]. *)
Theorem clearFiles_misses_uploads (base dirStamp : string) (category name : string)
    (timeout now : Z) (disk : gset string) (s : Worker.UserSession) :
  Forall (λ g, no_slash (Worker.fileId g) = true) (Worker.files s) →
  let stored := path_join [base; Worker.id s; dirStamp; category; name] in
  stored ∈ disk →
  stored ∈ (Worker.clearFiles base disk s).1 ∧
  stored ∈ (Worker.cleanupInactive timeout base now disk s).1.2.
Proof.
  intros Hflat stored Hin.
  assert (stored ∈ (Worker.clearFiles base disk s).1) as Hkept.
  { apply clearFiles_keeps; [|done].
    eapply Forall_impl; [exact Hflat|]. intros g Hg Heq.
    unfold stored, path_join in Heq. simpl in Heq.
    rewrite !string_app_assoc in Heq.
    apply (inj (String.app base)) in Heq.
    apply (inj (String.app "/")) in Heq.
    apply (inj (String.app (Worker.id s))) in Heq.
    apply (inj (String.app "/")) in Heq.
    simpl in Hg. rewrite <- Heq in Hg.
    by rewrite (no_slash_separator dirStamp) in Hg. }
  split; [done|].
  unfold Worker.cleanupInactive. case_match; [|done].
  by destruct (Worker.clearFiles base disk s).
Qed.

Lemma clearFiles_removes (base : string) (s : Worker.UserSession)
    (disk : gset string) (p : string) :
  p ∈ (Worker.clearFiles base disk s).1 ↔
  p ∈ disk ∧
  Forall (λ g, p ≠ path_join [base; Worker.id s; Worker.fileId g])
    (Worker.files s).
Proof.
  unfold Worker.clearFiles. simpl.
  generalize (Worker.files s). intros fs. revert disk.
  induction fs as [|g fs IH]; intros disk; simpl.
  - split; [by intros ?|by intros [? _]].
  - rewrite IH, Forall_cons, elem_of_difference, elem_of_singleton. tauto.
Qed.

(** X8. [cleanupInactive] answers true exactly when the session has been
    idle for longer than the timeout.  Then its file list is empty and
    the disk has lost the paths base/user/id of its entries and nothing
    else; otherwise neither the session nor the disk changes. *)
Theorem cleanupInactive_spec (timeout now : Z) (base : string)
    (disk : gset string) (s : Worker.UserSession) :
  let result := Worker.cleanupInactive timeout base now disk s in
  (result.1.1 = true ↔ (timeout < now - Worker.lastActivity s)%Z) ∧
  (result.1.1 = false → result.1.2 = disk ∧ result.2 = s) ∧
  (result.1.1 = true →
   Worker.files result.2 = [] ∧
   Worker.id result.2 = Worker.id s ∧
   ∀ p, p ∈ result.1.2 ↔
        p ∈ disk ∧
        Forall (λ g, p ≠ path_join [base; Worker.id s; Worker.fileId g])
          (Worker.files s)).
Proof.
  unfold Worker.cleanupInactive.
  destruct (timeout <? now - Worker.lastActivity s)%Z eqn:Hidle.
  - apply Z.ltb_lt in Hidle.
    pose proof (clearFiles_removes base s disk) as Hrm.
    destruct (Worker.clearFiles base disk s) as [disk' s'] eqn:Hclear.
    unfold Worker.clearFiles in Hclear. injection Hclear as <- <-.
    simpl. split_and!; done.
  - apply Z.ltb_ge in Hidle. simpl. split_and!; try done.
    split; [done|lia].
Qed.

End SessionFilesFacts.

Lemma clearFiles_misses_uploads_witness :
  let stored := path_join ["uploads"%string; Worker.id Worker.stale_session;
                           "1700000000000"%string; "images"%string;
                           "a.png"%string] in
  stored ∈ (Worker.clearFiles "uploads" {[ stored ]} Worker.stale_session).1 ∧
  stored ∈ (Worker.cleanupInactive Worker.idleTimeout "uploads" 7200000
              {[ stored ]} Worker.stale_session).1.2.
Proof.
  apply (clearFiles_misses_uploads "uploads" "1700000000000" "images" "a.png").
  - by repeat constructor.
  - set_solver.
Defined.

(** ** The lock manager: mutual exclusion *)

Section LockFacts.

Import LockManager.

Lemma exclusive_turn (i : nat) (key : string) (start timeout now : Z)
    (s : System) :
  (∀ k, callers s !! i ≠ Some (Holding k)) →
  exclusive s → exclusive (turn i key start timeout now s).
Proof.
  intros Hidle [Huniq Hkeys]. unfold turn, poll.
  assert (∀ c, (∀ k, c ≠ Holding k) →
            exclusive {| locks := locks s; callers := <[i := c]> (callers s) |})
    as Hother.
  { intros c Hc. split; simpl.
    - intros a b k Ha Hb.
      rewrite lookup_insert in Ha, Hb.
      repeat case_decide; simplify_eq; try (by destruct (Hc k)).
      by eapply Huniq.
    - intros k. rewrite Hkeys. split; intros [j Hj].
      + exists j. rewrite lookup_insert. case_decide; [|done].
        subst. by destruct (Hidle k).
      + rewrite lookup_insert in Hj.
        case_decide; simplify_eq; [by destruct (Hc k)|by exists j]. }
  destruct (now - start <? timeout)%Z; [|by apply Hother].
  destruct (decide (key ∈ locks s)) as [Hheld|Hfree]; [by apply Hother|].
  split; simpl.
  - intros a b k Ha Hb. rewrite lookup_insert in Ha, Hb.
    repeat case_decide; simplify_eq; try done.
    + destruct Hfree. apply Hkeys. by exists a.
    + destruct Hfree. apply Hkeys. by exists b.
    + by eapply Huniq.
  - intros k. rewrite elem_of_union, elem_of_singleton, Hkeys.
    split.
    + intros [->|[j Hj]].
      * exists i. by rewrite lookup_insert_eq.
      * exists j. rewrite lookup_insert. case_decide; [|done].
        subst. by destruct (Hidle k).
    + intros [j Hj]. rewrite lookup_insert in Hj.
      case_decide; simplify_eq; [by left|right; by exists j].
Qed.

Lemma exclusive_step (s : System) (e : Step) :
  exclusive s → exclusive (step s e).
Proof.
  intros Hs. unfold step.
  destruct e as [i key timeout now|i now|i]; simpl.
  - destruct (callers s !! i) as [[| |]|] eqn:Hi; try done;
      apply exclusive_turn; try done; intros k; by rewrite Hi.
  - destruct (callers s !! i) as [[| |]|] eqn:Hi; try done.
    apply exclusive_turn; [|done]. intros k. by rewrite Hi.
  - destruct (callers s !! i) as [[|key|]|] eqn:Hi; try done.
    destruct Hs as [Huniq Hkeys]. split; simpl.
    + intros a b k Ha Hb. rewrite lookup_delete in Ha, Hb.
      repeat case_decide; simplify_eq. by eapply Huniq.
    + intros k. unfold release.
      rewrite elem_of_difference, elem_of_singleton, Hkeys. split.
      * intros [[j Hj] Hne]. exists j. rewrite lookup_delete.
        case_decide; [|done]. subst. congruence.
      * intros [j Hj]. rewrite lookup_delete in Hj.
        case_decide; [done|]. split; [by exists j|].
        intros ->. by destruct (Huniq i j key Hi Hj).
Qed.

(** X9. Mutual exclusion. Whatever calls, wake-ups and releases happen,
    in whatever order, no key is ever held by two callers at once, and
    the table holds exactly the keys that are held: a key is free again
    once its holder has released it, and a caller that timed out holds
    nothing. *)
Theorem lock_is_exclusive (es : list Step) :
  let s := foldl step init es in
  (∀ i j k, callers s !! i = Some (Holding k) →
            callers s !! j = Some (Holding k) → i = j) ∧
  (∀ k, k ∈ locks s ↔ ∃ i, callers s !! i = Some (Holding k)).
Proof.
  change (exclusive (foldl step init es)).
  induction es as [|e es IH] using rev_ind.
  - split; simpl.
    + intros i j k Hi. by rewrite lookup_empty in Hi.
    + intros k. split; [by intros ?%not_elem_of_empty|].
      intros [i Hi]. by rewrite lookup_empty in Hi.
  - rewrite foldl_snoc. by apply exclusive_step.
Qed.

(** Two callers after one key: the second waits while the first holds
    it, gets it after the release, and a call with no time at all gives
    up although the key is free. *)
Lemma lock_hand_over :
  let s1 := foldl step init [Call 1 "upload_dirs" 10000 0;
                             Call 2 "upload_dirs" 10000 3;
                             Wake 2 13] in
  let s2 := foldl step s1 [Release 1; Wake 2 23] in
  callers s1 !! 1 = Some (Holding "upload_dirs") ∧
  callers s1 !! 2 = Some (Waiting "upload_dirs" 3 10000) ∧
  callers s2 !! 1 = None ∧
  callers s2 !! 2 = Some (Holding "upload_dirs") ∧
  callers (step init (Call 3 "upload_dirs" 0 50)) !! 3 = Some GaveUp.
Proof. by vm_compute. Qed.

End LockFacts.

(** ** Worker: one identifier, one session *)

Section SessionContinuity.

Import Worker.

(** X10. A request without identifier is given a generated one and a new
    session, which makes the store one larger when the identifier is
    new; a request that sends that identifier back is given the same
    session, no new identifier, and the store is not changed. *)
Theorem session_identifier_round_trip (uuid1 uuid2 : string) (now1 now2 : Z)
    (w : state) :
  uuid1 ≠ EmptyString →
  let first := middleware None uuid1 now1 w in
  let second := middleware (res_X_User_ID first.2) uuid2 now2 first.1 in
  res_X_User_ID first.2 = Some uuid1 ∧
  (sessions w !! uuid1 = None →
   size (sessions first.1) = S (size (sessions w)) ∧
   req_session first.2 = newUserSession (Some uuid1) (self w) uuid1 now1) ∧
  req_userId second.2 = uuid1 ∧
  req_session second.2 = req_session first.2 ∧
  sessions second.1 = sessions first.1 ∧
  res_X_User_ID second.2 = None ∧
  requests (workerStats second.1) = requests (workerStats w) + 2.
Proof.
  intros Hne. unfold middleware. simpl.
  assert (String.eqb uuid1 EmptyString = false) as Ht
    by (by apply String.eqb_neq).
  unfold getSession, createSession, setSession.
  destruct (sessions w !! uuid1) as [s|] eqn:Hs; simpl; rewrite Ht; simpl.
  - rewrite Hs. simpl. split_and!; try done. lia.
  - rewrite lookup_insert_eq. simpl. split_and!; try done; [|lia].
    intros _. split; [|done]. by apply map_size_insert_None.
Qed.

End SessionContinuity.

Lemma session_identifier_round_trip_witness :
  let first := Worker.middleware None "6f1c" 10 Worker.idle_worker in
  let second := Worker.middleware (Worker.res_X_User_ID first.2) "77aa" 20
                  first.1 in
  Worker.res_X_User_ID first.2 = Some "6f1c"%string ∧
  (Worker.sessions Worker.idle_worker !! "6f1c"%string = None →
   size (Worker.sessions first.1) = S (size (Worker.sessions Worker.idle_worker)) ∧
   Worker.req_session first.2
   = Worker.newUserSession (Some "6f1c"%string) (Worker.self Worker.idle_worker)
       "6f1c" 10) ∧
  Worker.req_userId second.2 = "6f1c"%string ∧
  Worker.req_session second.2 = Worker.req_session first.2 ∧
  Worker.sessions second.1 = Worker.sessions first.1 ∧
  Worker.res_X_User_ID second.2 = None ∧
  Worker.requests (Worker.workerStats second.1)
  = Worker.requests (Worker.workerStats Worker.idle_worker) + 2.
Proof.
  by apply (session_identifier_round_trip "6f1c" "77aa" 10 20 Worker.idle_worker).
Defined.

(** ** Worker: more on the chat stream *)

Section ChatStreamMore.

Import Worker.

Variable parse_content : string → option string.

Local Abbreviation deliver := (Worker.deliver parse_content).
Local Abbreviation deliver_all := (Worker.deliver_all parse_content).
Local Abbreviation on_line := (Worker.on_line parse_content).
Local Abbreviation on_data := (Worker.on_data parse_content).
Local Abbreviation happen := (Worker.happen parse_content).

Lemma split_lf_not_empty (s : string) : split_lf s ≠ [].
Proof.
  destruct s as [|a s]; simpl; [done|].
  destruct (Ascii.eqb a "010"); [done|]. by destruct (split_lf s).
Qed.

Lemma removelast_cons {A} (x : A) (l : list A) :
  l ≠ [] → removelast (x :: l) = x :: removelast l.
Proof. by destruct l. Qed.

(** The lines of a text that is continued: all lines but the last are
    final, the last one is continued. *)
Lemma split_lf_app (x y : string) :
  split_lf (x +:+ y)
  = removelast (split_lf x)
    ++ split_lf (default EmptyString (last (split_lf x)) +:+ y).
Proof.
  induction x as [|a x IH]; [done|].
  change (String a x +:+ y) with (String a (x +:+ y)). simpl.
  pose proof (split_lf_not_empty x) as Hne.
  destruct (Ascii.eqb a "010") eqn:Ha.
  - rewrite removelast_cons by done.
    rewrite last_cons. destruct (last (split_lf x)) eqn:Hlast.
    + simpl. by rewrite IH.
    + by apply last_None in Hlast.
  - rewrite IH. destruct (split_lf x) as [|l [|l' ls]] eqn:Hx; [done| |].
    + simpl.
      change (String a l +:+ y) with (String a (l +:+ y)). simpl.
      rewrite Ha. by destruct (split_lf (l +:+ y)).
    + rewrite !removelast_cons by done.
      rewrite !last_cons_cons. by simpl.
Qed.

Lemma on_line_buffer (c : Chat) (b : string) (line : string) :
  on_line (with_buffer b c) line = with_buffer b (on_line c line).
Proof.
  destruct c. unfold Worker.on_line, with_buffer, with_res. simpl.
  repeat case_match; simpl; congruence.
Qed.

Lemma on_lines_buffer (ls : list string) (c : Chat) (b : string) :
  foldl on_line (with_buffer b c) ls = with_buffer b (foldl on_line c ls).
Proof.
  revert c. induction ls as [|l ls IH]; intros c; simpl; [done|].
  by rewrite on_line_buffer, IH.
Qed.

Lemma on_line_connected (c : Chat) (line : string) :
  isClientConnected (on_line c line) = isClientConnected c.
Proof. unfold Worker.on_line. by repeat case_match. Qed.

Lemma on_lines_connected (ls : list string) (c : Chat) :
  isClientConnected (foldl on_line c ls) = isClientConnected c.
Proof.
  revert c. induction ls as [|l ls IH]; intros c; simpl; [done|].
  by rewrite IH, on_line_connected.
Qed.

(** X11. The frames do not depend on how the upstream text is cut into
    chunks: two chunks delivered one after the other leave the request
    as the two delivered as one chunk would.  (The chunks are the texts
    [chunk.toString()] gives.) *)
Theorem stream_rechunking (a b : string) (c : Chat) :
  isClientConnected c = true →
  on_data b (on_data a c) = on_data (a +:+ b) c.
Proof.
  intros Hc. unfold Worker.on_data at 2.
  rewrite Hc. simpl.
  set (la := split_lf (buffer c +:+ a)).
  unfold Worker.on_data.
  rewrite on_lines_connected. simpl. rewrite Hc. simpl.
  rewrite on_lines_buffer. simpl.
  rewrite <- (string_app_assoc (buffer c) a b).
  rewrite (split_lf_app (buffer c +:+ a) b). fold la.
  set (lb := split_lf (default EmptyString (last la) +:+ b)).
  pose proof (split_lf_not_empty (default EmptyString (last la) +:+ b))
    as Hlb. fold lb in Hlb.
  assert (last (removelast la ++ lb) = last lb) as ->.
  { rewrite last_app. by destruct (last lb) eqn:Hl; [|apply last_None in Hl]. }
  assert (removelast (removelast la ++ lb) = removelast la ++ removelast lb)
    as -> by (by apply removelast_app).
  rewrite foldl_app, !on_lines_buffer.
  by destruct (foldl on_line c (removelast la)).
Qed.

(** When the [close] listener has been called before the handler
    reaches the upstream call, the request never calls upstream: it ends
    with no timer pending, no frame written and no call made, whatever
    its body. *)
Lemma close_before_upstream (b : Body) (before after : list Event) :
  phase (deliver_all before entered) = Preparing →
  let c' := deliver (deliver (deliver_all before entered) Close) (Prepared b) in
  phase c' = Finished ∧
  upstreamCall (deliver_all after c') = None ∧
  timerPending (deliver_all after c') = false ∧
  frames (res (deliver_all after c')) = [].
Proof.
  intros Hph c'.
  pose proof (Inv_run parse_content before entered Inv_entered) as HInv.
  destruct (inv_preparing _ HInv Hph) as (Hres & Hnone & Htimer).
  set (c := deliver_all before entered) in *.
  assert (phase c' = Finished ∧ upstreamCall c' = None) as [Hfin Hcall].
  { unfold c', Worker.deliver. simpl. rewrite Hph.
    unfold prepared, outer_catch. simpl.
    rewrite !reportError_gone by done.
    repeat case_match; simpl; by rewrite ?Hnone. }
  assert (isClientConnected (deliver c Close) = false) as Hgone by done.
  assert (timerPending (deliver c Close) = false) as Hclear.
  { unfold Worker.deliver, on_close, clearTimer, destroyUpstream. simpl.
    rewrite Htimer. by case_match. }
  destruct (gone_step parse_content _ (Prepared b) Hgone Hclear)
    as (Hgone' & Hclear' & Hframes').
  destruct (gone_run parse_content after _ Hgone' Hclear')
    as (_ & Hnever & Hframes).
  split_and!; try done.
  - rewrite no_call_after_return; [done|]. fold c'. by rewrite Hfin.
  - fold c' in Hframes, Hframes'. rewrite Hframes, Hframes'.
    unfold Worker.deliver, on_close, clearTimer, destroyUpstream. simpl.
    fold c. by rewrite Hres.
Qed.

(** X12. A client that has left before the upstream call.  On Node 16
    and later it is never noticed, and when it left before the handler
    was entered it is noticed on no runtime: the model frame is written,
    the timer set and upstream called as for a client that is there.
    Only up to Node 14, and when it leaves after the handler was
    entered, is the request dropped with no frame, no timer and no
    upstream call. *)
Theorem departed_client_is_still_served (b : Body) :
  truthy (message b) = true ∨ body_files b ≠ [] →
  model b ≠ ModelOther →
  let m := match model b with
           | ModelName n => n
           | _ => "Qwen/Qwen2.5-72B-Instruct"%string
           end in
  let served (k : Conn) :=
    phase (chat k) = AwaitingUpstream ∧
    frames (res (chat k)) = [modelInfo m] ∧
    timerPending (chat k) = true ∧
    ∃ call, upstreamCall (chat k) = Some call ∧ up_model call = m in
  (∀ rt, served (foldl happen (enter (Incoming.parsed rt true))
                   [Loop (Prepared b)])) ∧
  served (foldl happen (enter (Incoming.parsed Incoming.Node16 false))
            [Disconnect; Loop (Prepared b)]) ∧
  let k := foldl happen (enter (Incoming.parsed Incoming.Node14 false))
             [Disconnect; Loop (Prepared b)] in
  phase (chat k) = Finished ∧ upstreamCall (chat k) = None ∧
  frames (res (chat k)) = [] ∧ timerPending (chat k) = false.
Proof.
  intros Hbody Hmodel m served.
  destruct (prepared_accepts b Hbody Hmodel) as (Hph & Hfr & Ht & _ & Hcall).
  fold m in Hfr, Hcall.
  split_and!.
  - intros rt. by destruct rt.
  - done.
  - simpl. unfold prepared.
    assert (negb (truthy (message b)) && (length (body_files b) =? 0)
            = false) as ->.
    { apply andb_false_iff. destruct Hbody as [Hm|Hf].
      - left. by rewrite Hm.
      - right. apply Nat.eqb_neq. by destruct (body_files b). }
    by destruct (model b).
Qed.

(** X13. A request that is not empty, from a client that is there, with a
    model given as a string or not at all: the model frame is written,
    the timer is set, and one upstream call is made, for a stream, with
    the model named (the default when none is) and a token budget that
    is at most the one asked for. *)
Theorem accepted_request_calls_upstream (b : Body) (before : list Event) :
  phase (deliver_all before entered) = Preparing →
  isClientConnected (deliver_all before entered) = true →
  truthy (message b) = true ∨ body_files b ≠ [] →
  model b ≠ ModelOther →
  let c' := deliver (deliver_all before entered) (Prepared b) in
  let m := match model b with
           | ModelName n => n
           | _ => "Qwen/Qwen2.5-72B-Instruct"%string
           end in
  phase c' = AwaitingUpstream ∧
  frames (res c') = [modelInfo m] ∧
  timerPending c' = true ∧
  ∃ call, upstreamCall c' = Some call ∧
          up_model call = m ∧ up_stream call = true ∧
          (up_max_tokens call ≤ max_tokens b)%Z.
Proof.
  intros Hph Hconn Hbody Hmodel c' m.
  pose proof (Inv_run parse_content before entered Inv_entered) as HInv.
  destruct (inv_preparing _ HInv Hph) as (Hres & Hnone & Htimer).
  assert (negb (truthy (message b)) && (length (body_files b) =? 0) = false)
    as Hnonempty.
  { apply andb_false_iff. destruct Hbody as [Ht|Hf].
    - left. by rewrite Ht.
    - right. apply Nat.eqb_neq. by destruct (body_files b). }
  unfold c', Worker.deliver. rewrite Hph. unfold prepared.
  rewrite Hnonempty.
  assert (∀ k : Chat, match model b with
                      | ModelOther => outer_catch "model.includes is not a function" (deliver_all before entered)
                      | _ => k
                      end = k) as -> by (intros k; by destruct (model b)).
  simpl. rewrite Hconn. simpl. rewrite Hres. simpl.
  split_and!; try done. fold m.
  eexists. split; [reflexivity|]. simpl. split_and!; try done.
  unfold adjustedMaxTokens. repeat case_match; lia.
Qed.

(** X14. A request that is not empty but whose [model] is a number, a
    boolean or an object that is no array, a value on which [includes]
    is no function, from a client that counts as connected: nothing has
    been written yet, so the error is reported in full, an error frame,
    a done frame and the end of the response, the error is counted, and
    no upstream call is made. *)
Theorem bad_model_is_reported (b : Body) (before after : list Event) :
  phase (deliver_all before entered) = Preparing →
  isClientConnected (deliver_all before entered) = true →
  truthy (message b) = true ∨ body_files b ≠ [] →
  model b = ModelOther →
  let c := deliver_all before entered in
  let c' := deliver c (Prepared b) in
  (∃ text, frames (res c') = [ErrorEvent text; Done]) ∧
  writableEnded (res c') = true ∧
  errorCount c' = S (errorCount c) ∧
  upstreamCall (deliver_all after c') = None.
Proof.
  intros Hph Hconn Hbody Hmodel c c'.
  pose proof (Inv_run parse_content before entered Inv_entered) as HInv.
  destruct (inv_preparing _ HInv Hph) as (Hres & Hnone & Htimer).
  fold c in Hph, Hconn, Hres, Hnone, Htimer.
  assert (negb (truthy (message b)) && (length (body_files b) =? 0) = false)
    as Hnonempty.
  { apply andb_false_iff. destruct Hbody as [Ht|Hf].
    - left. by rewrite Ht.
    - right. apply Nat.eqb_neq. by destruct (body_files b). }
  assert (c' = outer_catch "model.includes is not a function" c) as Hc'.
  { unfold c', Worker.deliver. rewrite Hph. unfold prepared.
    by rewrite Hnonempty, Hmodel. }
  assert (∃ text, frames (res c') = [ErrorEvent text; Done] ∧
                  writableEnded (res c') = true ∧
                  errorCount c' = S (errorCount c) ∧
                  upstreamCall c' = None ∧ phase c' = Finished)
    as (text & Hf & He & Hn & Hu & Hp).
  { rewrite Hc'. unfold outer_catch, reportError, clearTimer, countError.
    simpl. rewrite Hconn, Hres. simpl. eexists. by split_and!. }
  split_and!; try done; [by exists text|].
  rewrite no_call_after_return; [done|]. by rewrite Hp.
Qed.

End ChatStreamMore.

Lemma stream_rechunking_witness :
  let c := Worker.deliver_all Worker.toy_parse
             [Worker.Prepared Worker.hello; Worker.Resolve] Worker.entered in
  Worker.on_data Worker.toy_parse ("lo" +:+ Bridge.LF)%string
    (Worker.on_data Worker.toy_parse "data: c=Hel" c)
  = Worker.on_data Worker.toy_parse
      ("data: c=Hel" +:+ "lo" +:+ Bridge.LF)%string c.
Proof.
  by apply (stream_rechunking Worker.toy_parse).
Defined.

Lemma departed_client_is_still_served_witness :
  let served (k : Worker.Conn) :=
    Worker.phase (Worker.chat k) = Worker.AwaitingUpstream ∧
    Worker.frames (Worker.res (Worker.chat k))
    = [Worker.modelInfo "Qwen/Qwen2.5-72B-Instruct"] ∧
    Worker.timerPending (Worker.chat k) = true ∧
    ∃ call, Worker.upstreamCall (Worker.chat k) = Some call ∧
            Worker.up_model call = "Qwen/Qwen2.5-72B-Instruct"%string in
  (∀ rt, served (foldl (Worker.happen Worker.toy_parse)
                   (Worker.enter (Incoming.parsed rt true))
                   [Worker.Loop (Worker.Prepared Worker.hello)])) ∧
  served (foldl (Worker.happen Worker.toy_parse)
            (Worker.enter (Incoming.parsed Incoming.Node16 false))
            [Worker.Disconnect; Worker.Loop (Worker.Prepared Worker.hello)]) ∧
  let k := foldl (Worker.happen Worker.toy_parse)
             (Worker.enter (Incoming.parsed Incoming.Node14 false))
             [Worker.Disconnect; Worker.Loop (Worker.Prepared Worker.hello)] in
  Worker.phase (Worker.chat k) = Worker.Finished ∧
  Worker.upstreamCall (Worker.chat k) = None ∧
  Worker.frames (Worker.res (Worker.chat k)) = [] ∧
  Worker.timerPending (Worker.chat k) = false.
Proof.
  apply (departed_client_is_still_served Worker.toy_parse Worker.hello).
  - left. reflexivity.
  - discriminate.
Defined.

Lemma accepted_request_calls_upstream_witness :
  let c' := Worker.deliver Worker.toy_parse
              (Worker.deliver_all Worker.toy_parse [] Worker.entered)
              (Worker.Prepared Worker.hello) in
  Worker.phase c' = Worker.AwaitingUpstream ∧
  Worker.frames (Worker.res c')
  = [Worker.modelInfo "Qwen/Qwen2.5-72B-Instruct"] ∧
  Worker.timerPending c' = true ∧
  ∃ call, Worker.upstreamCall c' = Some call ∧
          Worker.up_model call = "Qwen/Qwen2.5-72B-Instruct"%string ∧
          Worker.up_stream call = true ∧
          (Worker.up_max_tokens call ≤ Worker.max_tokens Worker.hello)%Z.
Proof.
  apply (accepted_request_calls_upstream Worker.toy_parse Worker.hello []);
    try done. by left.
Defined.

Lemma bad_model_is_reported_witness :
  let b := {| Worker.message := Some "hello"%string;
              Worker.model := Worker.ModelOther;
              Worker.max_tokens := 4000; Worker.body_files := [] |} in
  let c := Worker.deliver_all Worker.toy_parse [] Worker.entered in
  let c' := Worker.deliver Worker.toy_parse c (Worker.Prepared b) in
  (∃ text, Worker.frames (Worker.res c')
           = [Worker.ErrorEvent text; Worker.Done]) ∧
  Worker.writableEnded (Worker.res c') = true ∧
  Worker.errorCount c' = S (Worker.errorCount c) ∧
  Worker.upstreamCall
    (Worker.deliver_all Worker.toy_parse [Worker.Timeout] c') = None.
Proof.
  apply (bad_model_is_reported Worker.toy_parse _ [] _); try done. by left.
Defined.

(** ** Bridge: truncation, exchanges and resets *)

Section BridgeMore.

Import Bridge.

Variable MAX_HISTORY_TURNS : Z.
Variable DEFAULT_SYSTEM_PROMPT : string.

Local Abbreviation truncateConversation :=
  (Bridge.truncateConversation MAX_HISTORY_TURNS DEFAULT_SYSTEM_PROMPT).
Local Abbreviation systemEntry := (Bridge.systemEntry DEFAULT_SYSTEM_PROMPT).
Local Abbreviation chat_begin :=
  (Bridge.chat_begin MAX_HISTORY_TURNS DEFAULT_SYSTEM_PROMPT).
Local Abbreviation chat_end :=
  (Bridge.chat_end MAX_HISTORY_TURNS DEFAULT_SYSTEM_PROMPT).
Local Abbreviation session_reset :=
  (Bridge.session_reset DEFAULT_SYSTEM_PROMPT).

Lemma filter_non_system_id (rest : list Message) :
  forallb non_system rest = true → List.filter non_system rest = rest.
Proof.
  induction rest as [|m rest IH]; simpl; [done|].
  intros [Hm Hrest]%andb_prop. rewrite Hm. by rewrite IH.
Qed.

(** X15. On a history that starts with its one system entry, truncation
    keeps that entry and the newest turns, in order, dropping the oldest
    ones beyond twice the maximum; a history within the bound is
    returned as it is. *)
Theorem truncate_keeps_newest (s : Message) (rest : list Message) :
  (0 < MAX_HISTORY_TURNS)%Z →
  system_first (s :: rest) = true →
  truncateConversation (s :: rest)
  = s :: drop (length rest - Z.to_nat (2 * MAX_HISTORY_TURNS)) rest ∧
  (bounded MAX_HISTORY_TURNS (s :: rest) →
   truncateConversation (s :: rest) = s :: rest).
Proof.
  intros Hmax [Hs Hrest]%andb_prop.
  assert (truncateConversation (s :: rest)
          = s :: drop (length rest - Z.to_nat (2 * MAX_HISTORY_TURNS)) rest)
    as Heq.
  { unfold Bridge.truncateConversation. simpl. rewrite Hs. simpl.
    f_equal. fold non_system. rewrite filter_non_system_id by done.
    unfold js_slice.
    assert (((- MAX_HISTORY_TURNS * 2) <? 0)%Z = true) as -> by lia.
    f_equal. lia. }
  split; [done|]. intros Hb. rewrite Heq.
  unfold bounded, turns in Hb. simpl in Hb. rewrite Hs in Hb. simpl in Hb.
  fold non_system in Hb. rewrite filter_non_system_id in Hb by done.
  replace (length rest - Z.to_nat (2 * MAX_HISTORY_TURNS)) with 0 by lia.
  done.
Qed.

Lemma stored_inv (st : state) (user : string) (h : list Message) :
  stored st user = Some h →
  ∃ r, conversationStore st !! user = Some r ∧ heap st !! r = Some h.
Proof.
  unfold stored. destruct (conversationStore st !! user) as [r|]; [|done].
  simpl. intros Hr. by exists r.
Qed.

Lemma deref_mutate (r : nat) (f : list Message → list Message) (st : state)
    (h : list Message) :
  heap st !! r = Some h → heap (mutate r f st) !! r = Some (f h).
Proof. intros Hr. unfold mutate. simpl. by rewrite list_lookup_alter_eq, Hr. Qed.

Lemma heap_set_new (user : string) (arr : list Message) (st : state)
    (r : nat) (h : list Message) :
  heap st !! r = Some h → heap (set_new user arr st).2 !! r = Some h.
Proof. intros Hr. unfold set_new. simpl. by apply lookup_app_l_Some. Qed.

Lemma chat_begin_asks (st : state) (user : string) (message : option string)
    (files : list Attachment) (h : list Message) (r : nat) :
  conversationStore st !! user = Some r → heap st !! r = Some h →
  truthy message = true ∨ files ≠ [] →
  chat_begin user message files st
  = (Asked r (truncateConversation (pushUserMessage h message files)),
     mutate r (λ h, pushUserMessage h message files) st).
Proof.
  intros Hu Hr Hbody. unfold Bridge.chat_begin, getConversation.
  rewrite Hu.
  assert (negb (truthy message) && (length files =? 0) = false) as ->.
  { apply andb_false_iff. destruct Hbody as [Ht|Hf].
    - left. by rewrite Ht.
    - right. apply Nat.eqb_neq. by destruct files. }
  unfold deref.
  by rewrite (deref_mutate r _ st h Hr).
Qed.

(** X16. A completed exchange. With a history stored for the user and a
    request that is not empty, the history sent upstream is the
    truncation of the stored one with the user turn appended; the user
    turn is at once part of the stored history; and on completion the
    stored history is the truncation of that history with the assistant
    turn appended. *)
Theorem exchange_is_recorded (st : state) (user : string)
    (message : option string) (files : list Attachment) (text : string)
    (h : list Message) :
  stored st user = Some h →
  truthy message = true ∨ files ≠ [] →
  ∃ r st1,
    chat_begin user message files st
    = (Asked r (truncateConversation (pushUserMessage h message files)), st1) ∧
    stored st1 user = Some (pushUserMessage h message files) ∧
    stored (chat_end user r (Some text) st1) user
    = Some (truncateConversation
              (pushAssistantMessage (pushUserMessage h message files)
                 (Some text))).
Proof.
  intros (r & Hu & Hr)%stored_inv Hbody.
  exists r, (mutate r (λ h, pushUserMessage h message files) st).
  split; [by apply chat_begin_asks|].
  pose proof (deref_mutate r (λ h, pushUserMessage h message files) st h Hr)
    as Hr1.
  split.
  - unfold stored. simpl. rewrite Hu. simpl. exact Hr1.
  - unfold Bridge.chat_end. rewrite stored_set_new. f_equal. f_equal.
    unfold deref. by rewrite (deref_mutate r _ _ _ Hr1).
Qed.

(** X17. A reset while a stream is under way does not last: the
    completion of the stream stores the history the request started
    from, with its turns, as if the reset had not happened. *)
Theorem reset_is_undone_by_completion (st : state) (user : string)
    (message : option string) (files : list Attachment) (text : string)
    (h : list Message) :
  stored st user = Some h →
  truthy message = true ∨ files ≠ [] →
  ∃ r st1,
    chat_begin user message files st
    = (Asked r (truncateConversation (pushUserMessage h message files)), st1) ∧
    stored (session_reset user st1) user = Some [systemEntry] ∧
    stored (chat_end user r (Some text) (session_reset user st1)) user
    = Some (truncateConversation
              (pushAssistantMessage (pushUserMessage h message files)
                 (Some text))).
Proof.
  intros (r & Hu & Hr)%stored_inv Hbody.
  exists r, (mutate r (λ h, pushUserMessage h message files) st).
  split; [by apply chat_begin_asks|].
  pose proof (deref_mutate r (λ h, pushUserMessage h message files) st h Hr)
    as Hr1.
  split; [apply stored_set_new|].
  unfold Bridge.chat_end. rewrite stored_set_new. f_equal. f_equal.
  unfold deref, Bridge.session_reset.
  by rewrite (deref_mutate r _ _ _ (heap_set_new _ _ _ _ _ Hr1)).
Qed.

(** X18. Two requests of one user under way at once work on the same
    array: the second completion stores both exchanges, the two user
    turns first and the two assistant turns after them. *)
Theorem concurrent_exchanges_interleave (st : state) (user : string)
    (mA mB : option string) (tA tB : string) (h : list Message) :
  stored st user = Some h →
  truthy mA = true → truthy mB = true →
  ∃ r stA stB,
    chat_begin user mA [] st
    = (Asked r (truncateConversation (pushUserMessage h mA [])), stA) ∧
    chat_begin user mB [] stA
    = (Asked r (truncateConversation
                  (pushUserMessage (pushUserMessage h mA []) mB [])), stB) ∧
    stored (chat_end user r (Some tB) (chat_end user r (Some tA) stB)) user
    = Some (truncateConversation
              (pushAssistantMessage
                 (pushAssistantMessage
                    (pushUserMessage (pushUserMessage h mA []) mB [])
                    (Some tA))
                 (Some tB))).
Proof.
  intros (r & Hu & Hr)%stored_inv HA HB.
  set (stA := mutate r (λ h, pushUserMessage h mA []) st).
  set (stB := mutate r (λ h, pushUserMessage h mB []) stA).
  exists r, stA, stB.
  pose proof (deref_mutate r (λ h, pushUserMessage h mA []) st h Hr) as HrA.
  pose proof (deref_mutate r (λ h, pushUserMessage h mB []) stA _ HrA) as HrB.
  split; [apply chat_begin_asks; auto|].
  split; [apply chat_begin_asks; auto|].
  unfold Bridge.chat_end at 1. rewrite stored_set_new. f_equal. f_equal.
  unfold deref.
  pose proof (deref_mutate r (λ h, pushAssistantMessage h (Some tA)) stB _ HrB)
    as HrA'.
  cbv beta in HrA'. unfold Bridge.chat_end at 1.
  rewrite (deref_mutate r (λ h, pushAssistantMessage h (Some tB)) _ _
             (heap_set_new user _ _ r _ HrA')).
  done.
Qed.

(** X19. Resetting twice is resetting once: both times the stored
    history is the system entry alone; and the first request after a
    reset sends upstream the system entry and the new user turn. *)
Theorem reset_then_ask (st : state) (user : string) (message : option string)
    (files : list Attachment) :
  (0 < MAX_HISTORY_TURNS)%Z →
  truthy message = true ∨ files ≠ [] →
  stored (session_reset user st) user = Some [systemEntry] ∧
  stored (session_reset user (session_reset user st)) user
  = Some [systemEntry] ∧
  ∃ r st1,
    chat_begin user message files (session_reset user st)
    = (Asked r [systemEntry; userEntry message files], st1).
Proof.
  intros Hmax Hbody.
  split; [apply stored_set_new|]. split; [apply stored_set_new|].
  destruct (stored_inv _ _ _ (stored_set_new user [systemEntry] st))
    as (r & Hu & Hr).
  eexists r, _. unfold Bridge.session_reset.
  rewrite (chat_begin_asks _ user message files _ r Hu Hr Hbody).
  f_equal. f_equal.
  unfold Bridge.truncateConversation, pushUserMessage, js_slice. simpl.
  assert (((- MAX_HISTORY_TURNS * 2) <? 0)%Z = true) as -> by lia.
  simpl. do 2 f_equal.
  by assert (Z.to_nat ((Z.of_nat 1 + - MAX_HISTORY_TURNS * 2) `max` 0) = 0)
    as -> by lia.
Qed.

End BridgeMore.

(** ** Bridge: the streamed reply *)

Section BridgeStreamFacts.

Import BridgeStream.

Variable MAX_HISTORY_TURNS : Z.
Variable DEFAULT_SYSTEM_PROMPT : string.
Variable parse_delta : string → option string.

Local Abbreviation start :=
  (BridgeStream.start MAX_HISTORY_TURNS DEFAULT_SYSTEM_PROMPT).
Local Abbreviation on_line := (BridgeStream.on_line parse_delta).
Local Abbreviation on_data := (BridgeStream.on_data parse_delta).
Local Abbreviation deliver :=
  (BridgeStream.deliver MAX_HISTORY_TURNS DEFAULT_SYSTEM_PROMPT parse_delta).
Local Abbreviation truncateConversation :=
  (Bridge.truncateConversation MAX_HISTORY_TURNS DEFAULT_SYSTEM_PROMPT).
Local Abbreviation happen :=
  (BridgeStream.happen MAX_HISTORY_TURNS DEFAULT_SYSTEM_PROMPT parse_delta).
Local Abbreviation enter :=
  (BridgeStream.enter MAX_HISTORY_TURNS DEFAULT_SYSTEM_PROMPT).

Lemma bridge_on_line_buffer (r : Reply) (b : string) (line : string) :
  on_line (with_buffer b r) line = with_buffer b (on_line r line).
Proof.
  destruct r. unfold BridgeStream.on_line, with_buffer, write. simpl.
  repeat case_match; simpl; congruence.
Qed.

Lemma bridge_on_lines_buffer (ls : list string) (r : Reply) (b : string) :
  foldl on_line (with_buffer b r) ls = with_buffer b (foldl on_line r ls).
Proof.
  revert r. induction ls as [|l ls IH]; intros r; simpl; [done|].
  by rewrite bridge_on_line_buffer, IH.
Qed.

Lemma with_buffer_twice (a b : string) (r : Reply) :
  with_buffer b (with_buffer a r) = with_buffer b r.
Proof. done. Qed.

Lemma buffer_with_buffer (b : string) (r : Reply) :
  buffer (with_buffer b r) = b.
Proof. done. Qed.

(** X20. The reply of the bridge does not depend on how the upstream
    text is cut into chunks: two chunks delivered one after the other
    leave the request as the two delivered as one chunk would.  (The
    chunks are the texts [chunk.toString('utf8')] gives.) *)
Theorem bridge_stream_rechunking (a b : string) (r : Reply) :
  on_data b (on_data a r) = on_data (a +:+ b) r.
Proof.
  unfold BridgeStream.on_data.
  set (la := split_lf (buffer r +:+ a)).
  rewrite !bridge_on_lines_buffer, buffer_with_buffer.
  rewrite <- (string_app_assoc (buffer r) a b).
  rewrite (split_lf_app (buffer r +:+ a) b). fold la.
  set (lb := split_lf (default EmptyString (last la) +:+ b)).
  pose proof (split_lf_not_empty (default EmptyString (last la) +:+ b))
    as Hlb. fold lb in Hlb.
  assert (last (removelast la ++ lb) = last lb) as ->.
  { rewrite last_app. by destruct (last lb) eqn:Hl; [|apply last_None in Hl]. }
  assert (removelast (removelast la ++ lb) = removelast la ++ removelast lb)
    as -> by (by apply removelast_app).
  by rewrite foldl_app, with_buffer_twice.
Qed.

Lemma terminal_frames_app (xs ys : list Frame) :
  terminal_frames (xs ++ ys) = terminal_frames xs + terminal_frames ys.
Proof. unfold terminal_frames. by rewrite List.filter_app, length_app. Qed.

Lemma chunk_text_app (xs ys : list Frame) :
  chunk_text (xs ++ ys) = chunk_text xs +:+ chunk_text ys.
Proof.
  induction xs as [|[m|d| |] xs IH]; simpl; try done.
  by rewrite IH, string_app_assoc.
Qed.

Lemma string_app_empty (s : string) : s +:+ EmptyString = s.
Proof.
  induction s as [|a s IH]; [done|].
  change (String a (s +:+ EmptyString) = String a s). by rewrite IH.
Qed.

(** What one line leaves alone, and what it adds. *)
Lemma bridge_on_line_keeps (r : Reply) (line : string) :
  let r' := on_line r line in
  userId r' = userId r ∧ history r' = history r ∧ ended r' = ended r ∧
  awaiting r' = awaiting r ∧ listening r' = listening r ∧
  terminal_frames (written r') = terminal_frames (written r) ∧
  (assistantText r = chunk_text (written r) →
   assistantText r' = chunk_text (written r')).
Proof.
  unfold BridgeStream.on_line.
  repeat case_match; simpl; split_and!; try done.
  - rewrite terminal_frames_app. unfold terminal_frames at 2. simpl. lia.
  - intros ->. rewrite chunk_text_app. simpl. by rewrite string_app_empty.
  - rewrite terminal_frames_app. unfold terminal_frames at 2. simpl. lia.
  - intros ->. rewrite chunk_text_app. simpl. by rewrite string_app_empty.
Qed.

Lemma bridge_on_lines_keeps (ls : list string) (r : Reply) :
  let r' := foldl on_line r ls in
  userId r' = userId r ∧ history r' = history r ∧ ended r' = ended r ∧
  awaiting r' = awaiting r ∧ listening r' = listening r ∧
  terminal_frames (written r') = terminal_frames (written r) ∧
  (assistantText r = chunk_text (written r) →
   assistantText r' = chunk_text (written r')).
Proof.
  revert r. induction ls as [|l ls IH]; intros r; simpl; [done|].
  destruct (IH (on_line r l)) as (? & ? & ? & ? & ? & ? & Ht).
  destruct (bridge_on_line_keeps r l) as (? & ? & ? & ? & ? & ? & Ht0).
  split_and!; try congruence. auto.
Qed.

Lemma bridge_on_data_keeps (chunk : string) (r : Reply) :
  let r' := on_data chunk r in
  userId r' = userId r ∧ history r' = history r ∧ ended r' = ended r ∧
  awaiting r' = awaiting r ∧ listening r' = listening r ∧
  terminal_frames (written r') = terminal_frames (written r) ∧
  (assistantText r = chunk_text (written r) →
   assistantText r' = chunk_text (written r')).
Proof.
  unfold BridgeStream.on_data.
  exact (bridge_on_lines_keeps _ (with_buffer _ r)).
Qed.

Lemma closed_once_finish (t : Frame) (r : Reply) :
  frame_is_terminal t = true → ended r = false → closed_once r →
  closed_once (finish [t; Marker] r).
Proof.
  unfold closed_once. intros Ht -> Hr. simpl.
  split_and!; try done. by exists (written r), t.
Qed.

Lemma closed_once_start (user : string) (message : option string)
    (files : list Bridge.Attachment) (st : Bridge.state) :
  closed_once (start user message files st).1.
Proof.
  unfold BridgeStream.start.
  destruct (Bridge.chat_begin _ _ _ _ _ _) as [[|r h] st1]; simpl.
  - by apply closed_once_finish.
  - done.
Qed.

Lemma closed_once_deliver (rs : Reply * Bridge.state) (e : Event) :
  closed_once rs.1 → closed_once (deliver rs e).1.
Proof.
  destruct rs as [r st]. simpl. intros Hr.
  destruct (ended r) eqn:He.
  { (* an ended reply hears nothing *)
    pose proof Hr as Hr'. unfold closed_once in Hr'. rewrite He in Hr'.
    destruct Hr' as (-> & -> & _). by destruct e. }
  destruct e as [m| |chunk| |m|]; simpl.
  - destruct (awaiting r); [|done]. by apply closed_once_finish.
  - destruct (awaiting r); [|done].
    unfold closed_once in *. simpl. by rewrite He in *.
  - destruct (listening r); [|done]. simpl.
    destruct (bridge_on_data_keeps chunk r) as (_ & _ & He' & _ & _ & Ht & _).
    unfold closed_once in *. rewrite He', He in *. by rewrite Ht.
  - destruct (listening r); [|done]. by apply closed_once_finish.
  - destruct (listening r); [|done]. by apply closed_once_finish.
  - destruct (listening r); [|done].
    unfold closed_once in *. simpl. by rewrite He in *.
Qed.

(** X21. Whatever happens to a request of the bridge, in whatever order,
    its reply carries at most one closing frame (an error frame or the
    done frame); a reply that was ended carries exactly one, at its end
    and followed by the marker line only, and a reply that was not ended
    carries none. *)
Theorem reply_is_closed_once (user : string) (message : option string)
    (files : list Bridge.Attachment) (st : Bridge.state) (evs : list Event) :
  let r := (foldl deliver (start user message files st) evs).1 in
  terminal_frames (written r) ≤ 1 ∧
  (ended r = true →
   ∃ pre t, written r = pre ++ [t; Marker] ∧
            frame_is_terminal t = true ∧ terminal_frames pre = 0) ∧
  (ended r = false → terminal_frames (written r) = 0).
Proof.
  assert (closed_once (foldl deliver (start user message files st) evs).1)
    as Hr.
  { induction evs as [|e evs IH] using rev_ind.
    - apply closed_once_start.
    - rewrite foldl_snoc. by apply closed_once_deliver. }
  simpl. unfold closed_once in Hr.
  destruct (ended _).
  - destruct Hr as (_ & _ & pre & t & Hw & Ht & Hpre).
    split_and!; [|by eauto|done].
    rewrite Hw, terminal_frames_app, Hpre. unfold terminal_frames. simpl.
    rewrite Ht. simpl. lia.
  - split_and!; [lia|done|done].
Qed.

(** The chunks of a stream, one after the other. *)
Lemma bridge_chunks_keep (chunks : list string) (r : Reply)
    (st : Bridge.state) :
  listening r = true →
  let out := foldl deliver (r, st) (Data <$> chunks) in
  out.2 = st ∧ userId out.1 = userId r ∧ history out.1 = history r ∧
  ended out.1 = ended r ∧ awaiting out.1 = awaiting r ∧
  listening out.1 = true ∧
  terminal_frames (written out.1) = terminal_frames (written r) ∧
  (assistantText r = chunk_text (written r) →
   assistantText out.1 = chunk_text (written out.1)).
Proof.
  revert r. induction chunks as [|c chunks IH]; intros r Hl; simpl.
  { by split_and!. }
  rewrite Hl. change (list_fmap string Event Data chunks) with (Data <$> chunks).
  destruct (bridge_on_data_keeps c r) as (? & ? & ? & ? & Hl' & ? & Ht).
  destruct (IH (on_data c r)) as (? & ? & ? & ? & ? & ? & ? & Ht');
    [congruence|].
  split_and!; try congruence. auto.
Qed.

Lemma bridge_deaf (r : Reply) (st : Bridge.state) (evs : list Event) :
  awaiting r = false → listening r = false →
  foldl deliver (r, st) evs = (r, st).
Proof.
  intros Ha Hl. induction evs as [|e evs IH]; simpl; [done|].
  rewrite Ha, Hl. by destruct e.
Qed.

Lemma bridge_start_asked (st : Bridge.state) (user : string)
    (message : option string) (files : list Bridge.Attachment)
    (h : list Bridge.Message) :
  Bridge.stored st user = Some h →
  truthy message = true ∨ files ≠ [] →
  ∃ ref st1,
    start user message files st
    = ({| userId := user; history := ref; buffer := EmptyString;
          assistantText := EmptyString; written := []; ended := false;
          awaiting := true; listening := false |}, st1) ∧
    Bridge.stored st1 user = Some (Bridge.pushUserMessage h message files) ∧
    ∀ text,
      Bridge.stored
        (Bridge.chat_end MAX_HISTORY_TURNS DEFAULT_SYSTEM_PROMPT user ref
           (Some text) st1) user
      = Some (truncateConversation
                (Bridge.pushAssistantMessage
                   (Bridge.pushUserMessage h message files) (Some text))).
Proof.
  intros (ref & Hu & Hr)%stored_inv Hbody.
  exists ref, (Bridge.mutate ref (λ h, Bridge.pushUserMessage h message files)
                 st).
  pose proof (deref_mutate ref
                (λ h, Bridge.pushUserMessage h message files) st h Hr) as Hr1.
  split_and!.
  - unfold BridgeStream.start.
    by rewrite (chat_begin_asks MAX_HISTORY_TURNS DEFAULT_SYSTEM_PROMPT
                  st user message files h ref Hu Hr Hbody).
  - unfold Bridge.stored. simpl. rewrite Hu. simpl. exact Hr1.
  - intros text. unfold Bridge.chat_end. rewrite stored_set_new.
    f_equal. f_equal. unfold Bridge.deref.
    by rewrite (deref_mutate ref _ _ _ Hr1).
Qed.

(** X22. A stream that runs to its end.  For a request that is not empty
    of a user with a stored history, once upstream has answered, its
    chunks have come and its stream has ended, the reply is the chunk
    frames followed by the done frame and the marker, and the stored
    history is the truncation of the one the request started from with
    the user turn and, as the assistant turn, the text of exactly the
    chunk frames the client was sent. *)
Theorem streamed_reply_is_stored (st : Bridge.state) (user : string)
    (message : option string) (files : list Bridge.Attachment)
    (h : list Bridge.Message) (chunks : list string) :
  Bridge.stored st user = Some h →
  truthy message = true ∨ files ≠ [] →
  let out := foldl deliver (start user message files st)
               (Resolved :: (Data <$> chunks) ++ [End_]) in
  ∃ frames,
    written out.1 = frames ++ [DoneFrame; Marker] ∧
    terminal_frames frames = 0 ∧
    ended out.1 = true ∧
    Bridge.stored out.2 user
    = Some (truncateConversation
              (Bridge.pushAssistantMessage
                 (Bridge.pushUserMessage h message files)
                 (Some (chunk_text frames)))).
Proof.
  intros Hst Hbody.
  destruct (bridge_start_asked st user message files h Hst Hbody)
    as (ref & st1 & -> & _ & Hend).
  simpl. rewrite foldl_app.
  set (r0 := BridgeStream.on_resolved _).
  destruct (bridge_chunks_keep chunks r0 st1 eq_refl)
    as (Hs & Hu & Hh & _ & _ & Hl & Ht & Htext).
  destruct (foldl deliver (r0, st1) (Data <$> chunks)) as [r st2].
  simpl in *. subst st2. rewrite Hl. simpl.
  exists (written r). split_and!; [done|done|done|].
  rewrite Hu, Hh, (Htext eq_refl). apply Hend.
Qed.

(** When the [close] listener is called during the stream, the upstream
    stream is destroyed and nothing that comes later changes the reply
    or the store: the reply is never ended, and the stored history keeps
    the user turn of the request with no assistant turn after it.  (A
    destroyed stream fires no more events.) *)
Lemma close_listener_drops_reply (st : Bridge.state) (user : string)
    (message : option string) (files : list Bridge.Attachment)
    (h : list Bridge.Message) (chunks : list string) (later : list Event) :
  Bridge.stored st user = Some h →
  truthy message = true ∨ files ≠ [] →
  let heard := foldl deliver (start user message files st)
                 (Resolved :: (Data <$> chunks) ++ [Close]) in
  foldl deliver heard later = heard ∧
  ended heard.1 = false ∧
  terminal_frames (written heard.1) = 0 ∧
  Bridge.stored heard.2 user
  = Some (Bridge.pushUserMessage h message files).
Proof.
  intros Hst Hbody.
  destruct (bridge_start_asked st user message files h Hst Hbody)
    as (ref & st1 & -> & Hstored & _).
  simpl. rewrite foldl_app.
  set (r0 := BridgeStream.on_resolved _).
  destruct (bridge_chunks_keep chunks r0 st1 eq_refl)
    as (Hs & _ & _ & He & Ha & Hl & Ht & _).
  destruct (foldl deliver (r0, st1) (Data <$> chunks)) as [r st2].
  simpl in *. subst st2. rewrite Hl. simpl.
  split_and!; [|done|done|done].
  by apply bridge_deaf.
Qed.

(** A stream that runs to its end, as the event loop delivers it. *)
Lemma bridge_run_to_end (st : Bridge.state) (user : string)
    (message : option string) (files : list Bridge.Attachment)
    (h : list Bridge.Message) (chunks : list string) :
  Bridge.stored st user = Some h →
  truthy message = true ∨ files ≠ [] →
  let out := foldl deliver (start user message files st)
               (Resolved :: (Data <$> chunks) ++ [End_]) in
  ended out.1 = true ∧
  ∃ frames,
    written out.1 = frames ++ [DoneFrame; Marker] ∧
    terminal_frames frames = 0 ∧
    Bridge.stored out.2 user
    = Some (truncateConversation
              (Bridge.pushAssistantMessage
                 (Bridge.pushUserMessage h message files)
                 (Some (chunk_text frames)))).
Proof.
  intros Hst Hbody.
  destruct (bridge_start_asked st user message files h Hst Hbody)
    as (ref & st1 & -> & _ & Hend).
  simpl. rewrite foldl_app.
  set (r0 := BridgeStream.on_resolved _).
  destruct (bridge_chunks_keep chunks r0 st1 eq_refl)
    as (Hs & Hu & Hh & _ & _ & Hl & Ht & Htext).
  destruct (foldl deliver (r0, st1) (Data <$> chunks)) as [r st2].
  simpl in *. subst st2. rewrite Hl. simpl.
  split; [done|]. exists (written r). split_and!; [done|done|].
  rewrite Hu, Hh, (Htext eq_refl). apply Hend.
Qed.

(** What the event loop delivers reaches the handler as it is. *)
Lemma bridge_happen_loop (es : list Event) (k : Conn) :
  Forall (λ e, e ≠ Close) es →
  let k' := foldl happen k (Loop <$> es) in
  request k' = request k ∧
  (reply k', store k') = foldl deliver (reply k, store k) es.
Proof.
  revert k. induction es as [|e es IH]; intros k Hes; [done|].
  apply Forall_cons in Hes as [He Hes].
  rewrite fmap_cons. cbn [foldl].
  assert (request (happen k (Loop e)) = request k ∧
          (reply (happen k (Loop e)), store (happen k (Loop e)))
          = deliver (reply k, store k) e) as [Hr Hd].
  { unfold BridgeStream.happen.
    destruct e; try done;
      by destruct (BridgeStream.deliver _ _ _ _ _). }
  destruct (IH (happen k (Loop e)) Hes) as [Hr' Hd'].
  cbv zeta in *. split; [by rewrite Hr', Hr|]. by rewrite Hd', Hd.
Qed.

Lemma bridge_enter_request (r : Incoming.Request) (user : string)
    (message : option string) (files : list Bridge.Attachment)
    (st : Bridge.state) :
  request (enter r user message files st) = r.
Proof.
  unfold BridgeStream.enter. by destruct (BridgeStream.start _ _ _ _ _ _).
Qed.

Lemma bridge_enter_pair (r : Incoming.Request) (user : string)
    (message : option string) (files : list Bridge.Attachment)
    (st : Bridge.state) :
  (reply (enter r user message files st),
   store (enter r user message files st))
  = start user message files st.
Proof.
  unfold BridgeStream.enter. by destruct (BridgeStream.start _ _ _ _ _ _).
Qed.

(** A request that has emitted [close] emits it no more. *)
Lemma bridge_disconnect_closed (k : Conn) :
  Incoming.closed (request k) = true → happen k Disconnect = k.
Proof.
  destruct k as [[b c] rp st]. simpl. intros ->. reflexivity.
Qed.

Lemma bridge_disconnect_open (k : Conn) :
  Incoming.closed (request k) = false →
  Incoming.closed (request (happen k Disconnect)) = true ∧
  (reply (happen k Disconnect), store (happen k Disconnect))
  = deliver (reply k, store k) Close.
Proof.
  destruct k as [[b c] rp st]. simpl. intros ->. simpl.
  by destruct (listening rp).
Qed.

(** X23. A client that leaves during the stream of the bridge.  On
    Node 16 and later the request has emitted [close] before the
    handler adds its listener, so the listener is never called: the
    stream goes on as if the client were there, the reply is ended, and
    the stored history gets the assistant turn made of all the chunks,
    those that came after the client left included.  Up to Node 14 the
    listener is called: the upstream stream is destroyed, the reply is
    never ended and the history keeps the user turn with no assistant
    turn after it.  (A destroyed stream fires no more events.) *)
Theorem bridge_disconnect_is_not_noticed (st : Bridge.state) (user : string)
    (message : option string) (files : list Bridge.Attachment)
    (h : list Bridge.Message) (chunks1 chunks2 : list string) :
  Bridge.stored st user = Some h →
  truthy message = true ∨ files ≠ [] →
  let hs := (Loop <$> Resolved :: (Data <$> chunks1))
            ++ Disconnect :: (Loop <$> (Data <$> chunks2) ++ [End_]) in
  let out := foldl happen
               (enter (Incoming.parsed Incoming.Node16 false)
                  user message files st) hs in
  let old := foldl happen
               (enter (Incoming.parsed Incoming.Node14 false)
                  user message files st) hs in
  (reply out, store out)
  = foldl deliver (start user message files st)
      (Resolved :: (Data <$> chunks1 ++ chunks2) ++ [End_]) ∧
  ended (reply out) = true ∧
  (∃ frames,
     written (reply out) = frames ++ [DoneFrame; Marker] ∧
     terminal_frames frames = 0 ∧
     Bridge.stored (store out) user
     = Some (truncateConversation
               (Bridge.pushAssistantMessage
                  (Bridge.pushUserMessage h message files)
                  (Some (chunk_text frames))))) ∧
  ended (reply old) = false ∧
  terminal_frames (written (reply old)) = 0 ∧
  Bridge.stored (store old) user
  = Some (Bridge.pushUserMessage h message files).
Proof.
  intros Hst Hbody hs out old.
  assert (Forall (λ e, e ≠ Close) (Resolved :: (Data <$> chunks1))) as H1.
  { constructor; [done|]. apply Forall_fmap, Forall_true. done. }
  assert (Forall (λ e, e ≠ Close) ((Data <$> chunks2) ++ [End_])) as H2.
  { apply Forall_app_2; [apply Forall_fmap, Forall_true; done|].
    by constructor. }
  (* Node 16 *)
  assert ((reply out, store out)
          = foldl deliver (start user message files st)
              (Resolved :: (Data <$> chunks1 ++ chunks2) ++ [End_])) as Hout.
  { unfold out, hs. rewrite foldl_app.
    set (k0 := enter _ user message files st).
    destruct (bridge_happen_loop _ k0 H1) as [Hr1 Hd1].
    set (k1 := foldl happen k0 _) in *.
    cbn [foldl]. rewrite bridge_disconnect_closed
      by (by rewrite Hr1; unfold k0; rewrite bridge_enter_request).
    destruct (bridge_happen_loop _ k1 H2) as [_ Hd2].
    rewrite Hd2, Hd1. unfold k0. rewrite bridge_enter_pair.
    rewrite fmap_app, <- !app_assoc.
    cbn [foldl]. symmetry. apply foldl_app. }
  destruct (bridge_run_to_end st user message files h (chunks1 ++ chunks2)
              Hst Hbody) as (Hend & frames & Hw & Ht & Hstored).
  rewrite <- Hout in Hend, Hw, Hstored. simpl in Hend, Hw, Hstored.
  (* Node 14 *)
  destruct (close_listener_drops_reply st user message files h chunks1
              ((Data <$> chunks2) ++ [End_]) Hst Hbody)
    as (Hdeaf & Hne & Hnt & Hkeep).
  assert ((reply old, store old)
          = foldl deliver (start user message files st)
              (Resolved :: (Data <$> chunks1) ++ [Close])) as Hold.
  { unfold old, hs. rewrite foldl_app.
    set (k0 := enter _ user message files st).
    destruct (bridge_happen_loop _ k0 H1) as [Hr1 Hd1].
    set (k1 := foldl happen k0 _) in *.
    cbn [foldl].
    destruct (bridge_disconnect_open k1) as [Hr2 Hd2].
    { by rewrite Hr1; unfold k0; rewrite bridge_enter_request. }
    destruct (bridge_happen_loop _ (happen k1 Disconnect) H2) as [_ Hd3].
    rewrite Hd3, Hd2, Hd1. unfold k0. rewrite bridge_enter_pair.
    assert (foldl deliver (start user message files st)
              (Resolved :: (Data <$> chunks1) ++ [Close])
            = deliver (foldl deliver (start user message files st)
                         (Resolved :: (Data <$> chunks1))) Close) as Hh.
    { cbn [foldl]. apply foldl_snoc. }
    rewrite <- Hh. exact Hdeaf. }
  rewrite <- Hold in Hne, Hnt, Hkeep.
  split_and!; try done. by exists frames.
Qed.

End BridgeStreamFacts.

Lemma truncate_keeps_newest_witness :
  Bridge.truncateConversation 20 "prompt"
    (Bridge.systemEntry "prompt" :: Bridge.exchanges 21)
  = Bridge.systemEntry "prompt"
    :: drop (length (Bridge.exchanges 21) - Z.to_nat (2 * 20))
         (Bridge.exchanges 21) ∧
  (Bridge.bounded 20 (Bridge.systemEntry "prompt" :: Bridge.exchanges 21) →
   Bridge.truncateConversation 20 "prompt"
     (Bridge.systemEntry "prompt" :: Bridge.exchanges 21)
   = Bridge.systemEntry "prompt" :: Bridge.exchanges 21).
Proof.
  apply (truncate_keeps_newest 20 "prompt").
  - lia.
  - reflexivity.
Defined.

Lemma exchange_is_recorded_witness :
  ∃ r st1,
    Bridge.chat_begin 20 "prompt" "u1" (Some "hi"%string) [] Bridge.full_store
    = (Bridge.Asked r
         (Bridge.truncateConversation 20 "prompt"
            (Bridge.pushUserMessage Bridge.full_history (Some "hi"%string) [])),
       st1) ∧
    Bridge.stored st1 "u1"
    = Some (Bridge.pushUserMessage Bridge.full_history (Some "hi"%string) []) ∧
    Bridge.stored
      (Bridge.chat_end 20 "prompt" "u1" r (Some "fine"%string) st1) "u1"
    = Some (Bridge.truncateConversation 20 "prompt"
              (Bridge.pushAssistantMessage
                 (Bridge.pushUserMessage Bridge.full_history
                    (Some "hi"%string) [])
                 (Some "fine"%string))).
Proof.
  apply (exchange_is_recorded 20 "prompt" Bridge.full_store "u1"
           (Some "hi"%string) [] "fine" Bridge.full_history).
  - reflexivity.
  - left. reflexivity.
Defined.

Lemma reset_is_undone_by_completion_witness :
  ∃ r st1,
    Bridge.chat_begin 20 "prompt" "u1" (Some "hi"%string) [] Bridge.full_store
    = (Bridge.Asked r
         (Bridge.truncateConversation 20 "prompt"
            (Bridge.pushUserMessage Bridge.full_history (Some "hi"%string) [])),
       st1) ∧
    Bridge.stored (Bridge.session_reset "prompt" "u1" st1) "u1"
    = Some [Bridge.systemEntry "prompt"] ∧
    Bridge.stored
      (Bridge.chat_end 20 "prompt" "u1" r (Some "fine"%string)
         (Bridge.session_reset "prompt" "u1" st1)) "u1"
    = Some (Bridge.truncateConversation 20 "prompt"
              (Bridge.pushAssistantMessage
                 (Bridge.pushUserMessage Bridge.full_history
                    (Some "hi"%string) [])
                 (Some "fine"%string))).
Proof.
  apply (reset_is_undone_by_completion 20 "prompt" Bridge.full_store "u1"
           (Some "hi"%string) [] "fine" Bridge.full_history).
  - reflexivity.
  - left. reflexivity.
Defined.

Lemma concurrent_exchanges_interleave_witness :
  ∃ r stA stB,
    Bridge.chat_begin 20 "prompt" "u1" (Some "one"%string) [] Bridge.full_store
    = (Bridge.Asked r
         (Bridge.truncateConversation 20 "prompt"
            (Bridge.pushUserMessage Bridge.full_history
               (Some "one"%string) [])), stA) ∧
    Bridge.chat_begin 20 "prompt" "u1" (Some "two"%string) [] stA
    = (Bridge.Asked r
         (Bridge.truncateConversation 20 "prompt"
            (Bridge.pushUserMessage
               (Bridge.pushUserMessage Bridge.full_history
                  (Some "one"%string) [])
               (Some "two"%string) [])), stB) ∧
    Bridge.stored
      (Bridge.chat_end 20 "prompt" "u1" r (Some "second"%string)
         (Bridge.chat_end 20 "prompt" "u1" r (Some "first"%string) stB)) "u1"
    = Some (Bridge.truncateConversation 20 "prompt"
              (Bridge.pushAssistantMessage
                 (Bridge.pushAssistantMessage
                    (Bridge.pushUserMessage
                       (Bridge.pushUserMessage Bridge.full_history
                          (Some "one"%string) [])
                       (Some "two"%string) [])
                    (Some "first"%string))
                 (Some "second"%string))).
Proof.
  apply (concurrent_exchanges_interleave 20 "prompt" Bridge.full_store "u1"
           (Some "one"%string) (Some "two"%string) "first" "second"
           Bridge.full_history); reflexivity.
Defined.

Lemma reset_then_ask_witness :
  Bridge.stored (Bridge.session_reset "prompt" "u1" Bridge.full_store) "u1"
  = Some [Bridge.systemEntry "prompt"] ∧
  Bridge.stored
    (Bridge.session_reset "prompt" "u1"
       (Bridge.session_reset "prompt" "u1" Bridge.full_store)) "u1"
  = Some [Bridge.systemEntry "prompt"] ∧
  ∃ r st1,
    Bridge.chat_begin 20 "prompt" "u1" (Some "hi"%string) []
      (Bridge.session_reset "prompt" "u1" Bridge.full_store)
    = (Bridge.Asked r [Bridge.systemEntry "prompt";
                       Bridge.userEntry (Some "hi"%string) []], st1).
Proof.
  apply (reset_then_ask 20 "prompt" Bridge.full_store "u1"
           (Some "hi"%string) []).
  - lia.
  - left. reflexivity.
Defined.

Lemma streamed_reply_is_stored_witness :
  let out := foldl (BridgeStream.deliver 20 "prompt" Worker.toy_parse)
               (BridgeStream.start 20 "prompt" "u1" (Some "hi"%string) []
                  Bridge.full_store)
               (BridgeStream.Resolved
                :: (BridgeStream.Data
                      <$> ["data: c=Hel"%string;
                           ("lo" +:+ Bridge.LF +:+ "data: [DONE]"
                            +:+ Bridge.LF)%string])
                   ++ [BridgeStream.End_]) in
  ∃ frames,
    BridgeStream.written out.1
    = frames ++ [BridgeStream.DoneFrame; BridgeStream.Marker] ∧
    BridgeStream.terminal_frames frames = 0 ∧
    BridgeStream.ended out.1 = true ∧
    Bridge.stored out.2 "u1"
    = Some (Bridge.truncateConversation 20 "prompt"
              (Bridge.pushAssistantMessage
                 (Bridge.pushUserMessage Bridge.full_history
                    (Some "hi"%string) [])
                 (Some (BridgeStream.chunk_text frames)))).
Proof.
  apply (streamed_reply_is_stored 20 "prompt" Worker.toy_parse
           Bridge.full_store "u1" (Some "hi"%string) [] Bridge.full_history).
  - reflexivity.
  - left. reflexivity.
Defined.

(** ** The master: its table of workers over time *)

Section MasterFacts.

Import ProcessManager MasterRun.

Lemma map_get_set_ne {V} (k k' : nat) (v : V) (m : list (nat * V)) :
  k ≠ k' → map_get k' (map_set k v m) = map_get k' m.
Proof.
  intros Hne. induction m as [|[k0 v0] m IH]; simpl.
  - by rewrite (proj2 (Nat.eqb_neq k k')).
  - destruct (Nat.eqb k0 k) eqn:Hk; simpl.
    + apply Nat.eqb_eq in Hk as ->. by rewrite (proj2 (Nat.eqb_neq k k')).
    + by rewrite IH.
Qed.

Lemma map_set_twice {V} (k : nat) (v v' : V) (m : list (nat * V)) :
  map_set k v' (map_set k v m) = map_set k v' m.
Proof.
  induction m as [|[k0 v0] m IH]; simpl.
  - by rewrite Nat.eqb_refl.
  - destruct (Nat.eqb k0 k) eqn:Hk; simpl.
    + by rewrite Nat.eqb_refl.
    + by rewrite Hk, IH.
Qed.

Lemma map_get_keys {V} (k : nat) (v : V) (m : list (nat * V)) :
  map_get k m = Some v → k ∈ m.*1.
Proof.
  induction m as [|[k0 v0] m IH]; simpl; [done|].
  destruct (Nat.eqb k0 k) eqn:Hk.
  - apply Nat.eqb_eq in Hk as ->. intros _. apply elem_of_cons. by left.
  - intros Hg. apply elem_of_cons. right. by apply IH.
Qed.

Lemma keys_map_set {V} (x k : nat) (v : V) (m : list (nat * V)) :
  x ∈ (map_set k v m).*1 → x = k ∨ x ∈ m.*1.
Proof.
  induction m as [|[k0 v0] m IH]; simpl.
  - intros Hx%list_elem_of_singleton. by left.
  - destruct (Nat.eqb k0 k) eqn:Hk; simpl.
    + apply Nat.eqb_eq in Hk as ->. by right.
    + intros [->|Hx]%elem_of_cons.
      * right. apply elem_of_cons. by left.
      * destruct (IH Hx) as [->|Hin]; [by left|].
        right. apply elem_of_cons. by right.
Qed.

Lemma keys_map_delete {V} (x k : nat) (m : list (nat * V)) :
  x ∈ (map_delete k m).*1 → x ∈ m.*1.
Proof.
  induction m as [|[k0 v0] m IH]; simpl; [done|].
  destruct (Nat.eqb k0 k) eqn:Hk; simpl.
  - intros Hx. apply elem_of_cons. by right.
  - intros [->|Hx]%elem_of_cons; apply elem_of_cons; [by left|].
    right. by apply IH.
Qed.

Lemma NoDup_map_set {V} (k : nat) (v : V) (m : list (nat * V)) :
  NoDup m.*1 → NoDup (map_set k v m).*1.
Proof.
  induction m as [|[k0 v0] m IH]; simpl.
  - intros _. apply NoDup_singleton.
  - intros [Hk0 Hm]%NoDup_cons.
    destruct (Nat.eqb k0 k) eqn:Hk; simpl.
    + apply Nat.eqb_eq in Hk as ->. by apply NoDup_cons.
    + apply NoDup_cons. split; [|by apply IH].
      intros [->|Hin]%keys_map_set; [|done].
      by rewrite Nat.eqb_refl in Hk.
Qed.

Lemma NoDup_map_delete {V} (k : nat) (m : list (nat * V)) :
  NoDup m.*1 → NoDup (map_delete k m).*1.
Proof.
  induction m as [|[k0 v0] m IH]; simpl; [done|].
  intros [Hk0 Hm]%NoDup_cons.
  destruct (Nat.eqb k0 k) eqn:Hk; simpl; [done|].
  apply NoDup_cons. split; [|by apply IH].
  by intros Hin%keys_map_delete.
Qed.

Lemma map_get_delete_ne {V} (k k' : nat) (m : list (nat * V)) :
  k ≠ k' → map_get k' (map_delete k m) = map_get k' m.
Proof.
  intros Hne. induction m as [|[k0 v0] m IH]; simpl; [done|].
  destruct (Nat.eqb k0 k) eqn:Hk; simpl.
  - apply Nat.eqb_eq in Hk as ->. by rewrite (proj2 (Nat.eqb_neq k k')).
  - by rewrite IH.
Qed.

Lemma map_get_delete_eq {V} (k : nat) (m : list (nat * V)) :
  NoDup m.*1 → map_get k (map_delete k m) = None.
Proof.
  induction m as [|[k0 v0] m IH]; simpl; [done|].
  intros [Hk0 Hm]%NoDup_cons.
  destruct (Nat.eqb k0 k) eqn:Hk; simpl.
  - apply Nat.eqb_eq in Hk as ->.
    destruct (map_get k m) eqn:Hg; [|done].
    by apply map_get_keys in Hg.
  - rewrite Hk. by apply IH.
Qed.

Lemma map_get_delete_Some {V} (k k' : nat) (v : V) (m : list (nat * V)) :
  NoDup m.*1 → map_get k' (map_delete k m) = Some v →
  k ≠ k' ∧ map_get k' m = Some v.
Proof.
  intros Hm Hg. destruct (decide (k = k')) as [->|Hne].
  - by rewrite map_get_delete_eq in Hg.
  - by rewrite map_get_delete_ne in Hg.
Qed.

(** [findWorkerIdByPid] finds an entry, and finds one where there is one. *)
Lemma findIn_Some (p id : nat) (m : list (nat * WorkerInfo)) :
  NoDup m.*1 → findIn p m = Some id →
  ∃ info, map_get id m = Some info ∧ pid info = p.
Proof.
  induction m as [|[k0 v0] m IH]; simpl; [done|].
  intros [Hk0 Hm]%NoDup_cons.
  destruct (Nat.eqb (pid v0) p) eqn:Hp.
  - intros [= <-]. rewrite Nat.eqb_refl. exists v0.
    by apply Nat.eqb_eq in Hp.
  - intros Hf. destruct (IH Hm Hf) as (info & Hg & Hpid).
    exists info. split; [|done].
    destruct (Nat.eqb k0 id) eqn:Hk; [|done].
    apply Nat.eqb_eq in Hk as ->. by apply map_get_keys in Hg.
Qed.

Lemma findIn_is_Some (id : nat) (info : WorkerInfo)
    (m : list (nat * WorkerInfo)) :
  map_get id m = Some info → is_Some (findIn (pid info) m).
Proof.
  induction m as [|[k0 v0] m IH]; simpl; [done|].
  destruct (Nat.eqb (pid v0) (pid info)) eqn:Hp; [by eexists|].
  destruct (Nat.eqb k0 id) eqn:Hk; [|done].
  intros [= ->]. by rewrite Nat.eqb_refl in Hp.
Qed.

Lemma well_tracked_find (st : state) (id : nat) (info : WorkerInfo) :
  well_tracked st → map_get id (workers st) = Some info →
  findWorkerIdByPid (pid info) st = Some id.
Proof.
  intros (Hnd & _ & Hinj) Hg. unfold findWorkerIdByPid.
  destruct (findIn_is_Some id info _ Hg) as [id' Hf]. rewrite Hf.
  destruct (findIn_Some _ _ _ Hnd Hf) as (info' & Hg' & Hp).
  f_equal. by apply (Hinj id' id info' info).
Qed.

Lemma well_tracked_find_None (st : state) (p : nat) :
  well_tracked st → length (processes st) ≤ p →
  findWorkerIdByPid p st = None.
Proof.
  intros (Hnd & Hrange & _) Hp. unfold findWorkerIdByPid.
  destruct (findIn p (workers st)) as [id|] eqn:Hf; [|done].
  destruct (findIn_Some _ _ _ Hnd Hf) as (info & Hg & <-).
  destruct (Hrange _ _ Hg) as (q & Hq%lookup_lt_Some & _). lia.
Qed.

(** Registering a process that has just been forked keeps the table
    sound. *)
Lemma well_tracked_register (st : state) (id : nat) (v : WorkerInfo)
    (s : list (StatsKey * Stats)) :
  well_tracked st → pid v = length (processes st) →
  well_tracked
    {| config := config st;
       workers := map_set id v (workers st);
       stats := s;
       processes := processes st ++
         [{| WORKER_ID := id; WORKER_PORT := basePort (config st) + id - 1;
             dead := false |}] |}.
Proof.
  intros (Hnd & Hrange & Hinj) Hv. split_and!; simpl.
  - by apply NoDup_map_set.
  - intros id' info Hg. destruct (decide (id = id')) as [<-|Hne].
    + rewrite map_get_set in Hg. injection Hg as <-.
      eexists. split.
      { rewrite Hv, lookup_app_r by lia. by rewrite Nat.sub_diag. }
      done.
    + rewrite map_get_set_ne in Hg by done.
      destruct (Hrange _ _ Hg) as (q & Hq & ? & ?).
      exists q. split; [|done]. by apply lookup_app_l_Some.
  - intros i i' info info' Hg Hg' Hp.
    destruct (decide (id = i)) as [<-|Hi], (decide (id = i')) as [<-|Hi'];
      [done| | |].
    + rewrite map_get_set in Hg. injection Hg as <-.
      rewrite map_get_set_ne in Hg' by done.
      destruct (Hrange _ _ Hg') as (q & Hq%lookup_lt_Some & _). lia.
    + rewrite map_get_set in Hg'. injection Hg' as <-.
      rewrite map_get_set_ne in Hg by done.
      destruct (Hrange _ _ Hg) as (q & Hq%lookup_lt_Some & _). lia.
    + rewrite map_get_set_ne in Hg, Hg' by done. by eapply Hinj.
Qed.

Lemma well_tracked_forkWorker (id : nat) (now : Z) (st : state) :
  well_tracked st → well_tracked (forkWorker id now st).
Proof. intros Hst. by apply well_tracked_register. Qed.

Lemma well_tracked_mark_dead (p : nat) (st : state) :
  well_tracked st → well_tracked (mark_dead p st).
Proof.
  intros (Hnd & Hrange & Hinj). split_and!; simpl; [done| |done].
  intros id info Hg. destruct (Hrange _ _ Hg) as (q & Hq & ? & ?).
  destruct (decide (p = pid info)) as [->|Hne].
  - eexists. split; [by rewrite list_lookup_alter_eq, Hq|]. done.
  - exists q. split; [|done]. by rewrite list_lookup_alter_ne.
Qed.

Lemma well_tracked_forget (id : nat) (st : state) :
  well_tracked st →
  well_tracked {| config := config st;
                  workers := map_delete id (workers st);
                  stats := stats_delete (NumberKey id) (stats st);
                  processes := processes st |}.
Proof.
  intros (Hnd & Hrange & Hinj). split_and!; simpl.
  - by apply NoDup_map_delete.
  - intros i info [_ Hg]%map_get_delete_Some; [|done]. by apply Hrange.
  - intros i i' info info' [_ Hg]%map_get_delete_Some
      [_ Hg']%map_get_delete_Some; try done.
    by eapply Hinj.
Qed.

Lemma well_tracked_on_exit (p : nat) (now : Z) (st : state) :
  well_tracked st → well_tracked (on_exit p now st).
Proof.
  intros Hst%(well_tracked_mark_dead p). unfold on_exit.
  destruct (findWorkerIdByPid p (mark_dead p st)) as [[|n]|]; try done.
  by apply well_tracked_forkWorker, well_tracked_forget.
Qed.

Lemma restart_finish_workers (id : nat) (info : WorkerInfo) (now : Z)
    (st : state) :
  restart_finish id info now st
  = {| config := config st;
       workers := map_set id {| pid := length (processes st);
                                startedAt := now;
                                restarts := restarts info + 1 |}
                    (workers st);
       stats := stats st;
       processes := processes st ++
         [{| WORKER_ID := id; WORKER_PORT := basePort (config st) + id - 1;
             dead := false |}] |}.
Proof.
  unfold restart_finish, forkWorker. simpl.
  by rewrite map_get_set, map_set_twice.
Qed.

Lemma well_tracked_restart_finish (id : nat) (info : WorkerInfo) (now : Z)
    (st : state) :
  well_tracked st → well_tracked (restart_finish id info now st).
Proof.
  intros Hst. rewrite restart_finish_workers.
  by apply well_tracked_register.
Qed.

Lemma well_tracked_step (st : state) (cb : Callback) :
  well_tracked st → well_tracked (step st cb).
Proof.
  intros Hst. destruct cb as [p now|id s|info|id info now]; simpl.
  - by apply well_tracked_on_exit.
  - done.
  - unfold restart_timeout. repeat case_match; try done.
    by apply well_tracked_mark_dead.
  - by apply well_tracked_restart_finish.
Qed.

Lemma well_tracked_setupMaster (cfg : Config) (now : Z) :
  well_tracked (setupMaster cfg now).
Proof.
  unfold setupMaster.
  induction (seq 1 (workerCount cfg)) as [|i l IH] using rev_ind.
  - split_and!; simpl; [constructor|done|done].
  - rewrite foldl_snoc. by apply well_tracked_forkWorker.
Qed.

(** X24. At every moment of the master's life, whatever exits, stats
    messages and restarts have come and in whatever order, the table of
    workers holds no id twice, the entry of an id is that of a process
    that was forked with this id and with the port [basePort + id - 1],
    and [findWorkerIdByPid] gives back the id of every registered pid.
    (A pid is the position of the process among those forked: pids are
    not used twice.) *)
Theorem master_table_is_sound (cfg : Config) (now : Z) (cbs : list Callback) :
  let st := foldl step (setupMaster cfg now) cbs in
  NoDup (workers st).*1 ∧
  ∀ id info,
    map_get id (workers st) = Some info →
    (∃ q, processes st !! pid info = Some q ∧ WORKER_ID q = id ∧
          WORKER_PORT q = basePort cfg + id - 1) ∧
    findWorkerIdByPid (pid info) st = Some id.
Proof.
  assert (well_tracked (foldl step (setupMaster cfg now) cbs) ∧
          config (foldl step (setupMaster cfg now) cbs) = cfg) as [Hst Hcfg].
  { induction cbs as [|cb cbs [IH1 IH2]] using rev_ind.
    - split; [apply well_tracked_setupMaster|].
      unfold setupMaster.
      induction (seq 1 (workerCount cfg)) as [|i l IH] using rev_ind;
        [done|]. by rewrite foldl_snoc.
    - rewrite foldl_snoc. split; [by apply well_tracked_step|].
      rewrite <- IH2 at 2.
      destruct cb as [p t|id s|info|id info t]; simpl; try done.
      + unfold on_exit. by repeat case_match.
      + unfold restart_timeout. by repeat case_match.
      + by rewrite restart_finish_workers. }
  simpl. split; [apply Hst|].
  intros id info Hg. split; [|by apply well_tracked_find].
  destruct Hst as (_ & Hrange & _).
  destruct (Hrange _ _ Hg) as (q & Hq & Hid & Hport).
  exists q. by rewrite <- Hcfg at 2.
Qed.

Lemma map_set_fresh {V} (k : nat) (v : V) (m : list (nat * V)) :
  k ∉ m.*1 → map_set k v m = m ++ [(k, v)].
Proof.
  induction m as [|[k0 v0] m IH]; simpl; [done|].
  intros Hk%not_elem_of_cons. destruct Hk as [Hne Hk].
  rewrite (proj2 (Nat.eqb_neq k0 k)) by done. by rewrite IH.
Qed.

Lemma setupMaster_unfold (n : nat) (cfg : Config) (now : Z) :
  foldl (λ st i, forkWorker i now st) (fresh cfg) (seq 1 n)
  = {| config := cfg;
       workers := (λ i, (i, {| pid := i - 1; startedAt := now;
                               restarts := 0 |})) <$> seq 1 n;
       stats := [];
       processes := (λ i, {| WORKER_ID := i;
                             WORKER_PORT := basePort cfg + i - 1;
                             dead := false |}) <$> seq 1 n |}.
Proof.
  induction n as [|n IH]; [done|].
  rewrite seq_S, foldl_snoc, IH. unfold forkWorker. simpl.
  rewrite length_fmap, length_seq, !fmap_app. simpl.
  rewrite Nat.sub_0_r. f_equal.
  rewrite map_set_fresh; [done|].
  rewrite <- list_fmap_compose.
  intros (i & Heq & Hi%elem_of_seq)%list_elem_of_fmap. simpl in Heq. lia.
Qed.

Lemma map_get_seq {V} (g : nat → V) (id start n : nat) :
  map_get id ((λ i, (i, g i)) <$> seq start n)
  = if (start <=? id) && (id <? start + n) then Some (g id) else None.
Proof.
  revert start. induction n as [|n IH]; intros start.
  - simpl. destruct (Nat.leb_spec start id), (Nat.ltb_spec id (start + 0));
      simpl; try done; lia.
  - change (seq start (S n)) with (start :: seq (S start) n).
    rewrite fmap_cons.
    change (map_get id ((start, g start) :: ?m))
      with (if Nat.eqb start id then Some (g start) else map_get id m).
    rewrite IH.
    destruct (Nat.eqb_spec start id) as [Heq|Hne],
      (Nat.leb_spec start id), (Nat.leb_spec (S start) id),
      (Nat.ltb_spec id (S start + n)), (Nat.ltb_spec id (start + S n));
      simpl; subst; try done; lia.
Qed.

(** X25. [setupMaster] forks as many processes as the configuration
    counts workers, and registers exactly the ids from 1 to that count:
    worker [id] is the process forked in place [id], with [WORKER_ID]
    [id], the port [basePort + id - 1], so no port twice, and a restart
    counter of zero. *)
Theorem setupMaster_registers (cfg : Config) (now : Z) :
  let st := setupMaster cfg now in
  length (processes st) = workerCount cfg ∧
  ∀ id,
    registered id st
    = if (1 <=? id) && (id <=? workerCount cfg)
      then Some ({| WORKER_ID := id; WORKER_PORT := basePort cfg + id - 1;
                    dead := false |},
                 {| pid := id - 1; startedAt := now; restarts := 0 |})
      else None.
Proof.
  simpl. unfold setupMaster. rewrite setupMaster_unfold. simpl.
  split; [by rewrite length_fmap, length_seq|].
  intros id. unfold registered. simpl.
  rewrite (map_get_seq (λ i, {| pid := i - 1; startedAt := now;
                                restarts := 0 |})).
  destruct id as [|k]; [done|].
  change (1 <=? S k) with true. cbn [andb].
  destruct (Nat.leb_spec (S k) (workerCount cfg)),
    (Nat.ltb_spec (S k) (1 + workerCount cfg)); try lia; [|done].
  cbn [mbind option_bind pid].
  rewrite list_lookup_fmap, lookup_seq_lt by lia. simpl.
  by rewrite Nat.sub_0_r.
Qed.

(** The exit of a registered process: its entry is deleted and a
    process is forked for its id. *)
Lemma on_exit_tracked (st : state) (p id : nat) (now : Z) :
  findWorkerIdByPid p st = Some id → 0 < id →
  on_exit p now st
  = forkWorker id now
      {| config := config st;
         workers := map_delete id (workers st);
         stats := stats_delete (NumberKey id) (stats st);
         processes := processes (mark_dead p st) |}.
Proof.
  intros Hf Hid. unfold on_exit.
  assert (findWorkerIdByPid p (mark_dead p st) = Some id) as -> by done.
  by destruct id; [lia|].
Qed.

(** The exit of a process that no entry names changes no entry. *)
Lemma on_exit_untracked (st : state) (p : nat) (now : Z) :
  findWorkerIdByPid p st = None → on_exit p now st = mark_dead p st.
Proof.
  intros Hf. unfold on_exit.
  by assert (findWorkerIdByPid p (mark_dead p st) = None) as -> by done.
Qed.

(** X26. A graceful restart in which the worker leaves by itself forks
    two processes for it.  The [exit] listener forks the first, the code
    after the [await] of [restartWorker] forks the second, with the same
    id and the same port; the table names the second only, with the
    counter one up, and no entry names the first, which is not dead. *)
Theorem graceful_restart_forks_twice (st : state) (id : nat)
    (info : WorkerInfo) (t_exit t_fork : Z) :
  well_tracked st →
  map_get id (workers st) = Some info →
  0 < id →
  let st' := graceful_restart id t_exit t_fork st in
  let L := length (processes st) in
  let forked := {| WORKER_ID := id; WORKER_PORT := basePort (config st) + id - 1;
                   dead := false |} in
  length (processes st') = L + 2 ∧
  processes st' !! L = Some forked ∧
  findWorkerIdByPid L st' = None ∧
  registered id st'
  = Some (forked, {| pid := L + 1; startedAt := t_fork;
                     restarts := restarts info + 1 |}).
Proof.
  intros Hst Hg Hid. simpl.
  pose proof (well_tracked_find st id info Hst Hg) as Hf.
  unfold graceful_restart, restart_begin. rewrite Hg.
  pose proof (well_tracked_restart_finish id info t_fork _
                (well_tracked_on_exit (pid info) t_exit st Hst)) as Hst'.
  revert Hst'.
  rewrite restart_finish_workers, (on_exit_tracked st (pid info) id) by done.
  unfold forkWorker, registered. simpl.
  rewrite map_set_twice, !length_app, length_alter. simpl.
  intros Hst'.
  split_and!.
  - lia.
  - rewrite lookup_app_l by (rewrite length_app, length_alter; simpl; lia).
    rewrite lookup_app_r by (rewrite length_alter; lia).
    by rewrite length_alter, Nat.sub_diag.
  - unfold findWorkerIdByPid. simpl.
    match goal with |- ?f = None => destruct f as [id'|] eqn:Hfind end;
      [|done].
    destruct Hst' as (Hnd' & _ & _). simpl in Hnd'.
    destruct (findIn_Some _ _ _ Hnd' Hfind) as (info' & Hg' & Hp).
    destruct (decide (id = id')) as [<-|Hne].
    + rewrite map_get_set in Hg'. injection Hg' as <-. simpl in Hp. lia.
    + rewrite map_get_set_ne in Hg' by done.
      apply map_get_delete_Some in Hg' as [_ Hg']; [|apply Hst].
      destruct Hst as (_ & Hrange & _).
      destruct (Hrange _ _ Hg') as (q & Hq%lookup_lt_Some & _). lia.
  - rewrite map_get_set. simpl.
    rewrite lookup_app_r by (rewrite length_app, length_alter; simpl; lia).
    rewrite length_app, length_alter. simpl.
    by rewrite Nat.sub_diag.
Qed.

(** X27. A graceful restart in which the worker has to be killed forks
    one process for it: the table names it, with the counter one up,
    before the exit of the killed process is heard, and that exit, when
    it comes, changes no entry and forks nothing. *)
Theorem forced_restart_forks_once (st : state) (id : nat)
    (info : WorkerInfo) (q : Process) (t_fork t_exit : Z) :
  well_tracked st →
  map_get id (workers st) = Some info →
  processes st !! pid info = Some q → dead q = false →
  let st' := forced_restart id t_fork t_exit st in
  let L := length (processes st) in
  length (processes st') = L + 1 ∧
  processes st' !! pid info
  = Some {| WORKER_ID := WORKER_ID q; WORKER_PORT := WORKER_PORT q;
            dead := true |} ∧
  registered id st'
  = Some ({| WORKER_ID := id; WORKER_PORT := basePort (config st) + id - 1;
             dead := false |},
          {| pid := L; startedAt := t_fork; restarts := restarts info + 1 |}).
Proof.
  intros Hst Hg Hq Hdead. simpl.
  pose proof (lookup_lt_Some _ _ _ Hq) as Hlt.
  unfold forced_restart, restart_begin. rewrite Hg.
  unfold restart_timeout. rewrite Hq, Hdead.
  pose proof (well_tracked_restart_finish id info t_fork _
                (well_tracked_mark_dead (pid info) st Hst)) as Hst2.
  rewrite on_exit_untracked.
  2:{ unfold findWorkerIdByPid.
      match goal with |- ?f = None => destruct f as [id'|] eqn:Hfind end;
        [|done].
      destruct Hst2 as (Hnd2 & _ & _).
      destruct (findIn_Some _ _ _ Hnd2 Hfind) as (info' & Hg' & Hp).
      rewrite restart_finish_workers in Hg'. simpl in Hg'.
      destruct (decide (id = id')) as [<-|Hne].
      - rewrite map_get_set in Hg'. injection Hg' as <-. simpl in Hp.
        rewrite length_alter in Hp. lia.
      - rewrite map_get_set_ne in Hg' by done.
        destruct Hst as (_ & _ & Hinj).
        destruct Hne. symmetry. by apply (Hinj id' id info' info). }
  rewrite restart_finish_workers. unfold registered, mark_dead. simpl.
  rewrite !length_alter, length_app, !length_alter. simpl.
  split_and!.
  - done.
  - rewrite list_lookup_alter_eq, lookup_app_l by (by rewrite length_alter).
    by rewrite list_lookup_alter_eq, Hq.
  - rewrite map_get_set. simpl.
    rewrite list_lookup_alter_ne by lia.
    rewrite lookup_app_r by (rewrite length_alter; lia).
    by rewrite length_alter, Nat.sub_diag.
Qed.

(** One exit of a master that is shutting down. *)
Lemma draining_exit (L0 p : nat) (rem : list nat) (st : state) (now : Z) :
  draining L0 (p :: rem) st → NoDup (p :: rem) →
  draining L0 rem (on_exit p now st) ∧
  length (processes (on_exit p now st)) = S (length (processes st)) ∧
  (∀ id, is_Some (map_get id (workers (on_exit p now st)))
         ↔ is_Some (map_get id (workers st))).
Proof.
  intros (Hst & HL & Hpos & Hrem & Hent) [Hp Hnd]%NoDup_cons.
  destruct (Hrem p) as [HpL [id Hf]]; [by apply elem_of_cons; left|].
  pose proof Hst as (Hkeys & Hrange & Hinj).
  destruct (findIn_Some _ _ _ Hkeys Hf) as (info & Hg & Hpid).
  pose proof (Hpos _ _ Hg) as Hid.
  pose proof (well_tracked_on_exit p now st Hst) as Hst'.
  revert Hst'. rewrite (on_exit_tracked st p id now Hf Hid).
  unfold forkWorker. simpl. rewrite length_alter. intros Hst'.
  assert (∀ i v, i ≠ id →
            map_get i (map_set id v (map_delete id (workers st)))
            = map_get i (workers st)) as Hother.
  { intros i v Hi.
    by rewrite map_get_set_ne, map_get_delete_ne by done. }
  split_and!.
  - split_and!; simpl.
    + done.
    + rewrite length_app, length_alter. lia.
    + intros i v Hi. destruct (decide (i = id)) as [->|Hne]; [done|].
      rewrite Hother in Hi by done. by eapply Hpos.
    + intros p' Hp'.
      destruct (Hrem p') as [Hp'L [id' Hf']]; [by apply elem_of_cons; right|].
      split; [done|].
      destruct (findIn_Some _ _ _ Hkeys Hf') as (info' & Hg' & Hpid').
      assert (id' ≠ id) as Hne.
      { intros ->. rewrite Hg in Hg'. injection Hg' as <-.
        apply Hp. by rewrite <- Hpid, Hpid'. }
      exists id'. rewrite <- Hpid'.
      apply (well_tracked_find _ id' info' Hst'). simpl.
      by rewrite Hother.
    + intros i v Hi. destruct (decide (i = id)) as [->|Hne].
      * rewrite map_get_set in Hi. injection Hi as <-. simpl.
        right. split; [lia|]. eexists. split.
        { rewrite lookup_app_r by (rewrite length_alter; lia).
          by rewrite length_alter, Nat.sub_diag. }
        done.
      * rewrite Hother in Hi by done.
        destruct (Hent _ _ Hi) as [[Heq|Hin]%elem_of_cons|(Hfresh & q & Hq & Hd)].
        -- destruct Hne. apply (Hinj i id v info); [done|done|]. lia.
        -- by left.
        -- right. split; [done|]. exists q. split; [|done].
           apply lookup_app_l_Some. by rewrite list_lookup_alter_ne by lia.
  - rewrite length_app, length_alter. simpl. lia.
  - intros i. destruct (decide (i = id)) as [->|Hne].
    + rewrite map_get_set, Hg. split; by eexists.
    + by rewrite Hother.
Qed.

Lemma on_worker_exit_counts (p : nat) (t : Z) (st : state) (nt : list nat)
    (k : nat) :
  on_worker_exit p t {| table := st; notified := nt;
                        counters := [Z.of_nat (S k)]; exited := None |}
  = {| table := on_exit p t st; notified := nt;
       counters := [Z.of_nat k];
       exited := match k with 0 => Some 0%Z | S _ => None end |}.
Proof.
  unfold on_worker_exit. cbn [exited counters count_down table notified].
  replace (Z.of_nat (S k) - 1)%Z with (Z.of_nat k) by lia.
  destruct k as [|k]; [done|].
  by assert ((Z.of_nat (S k) =? 0)%Z = false) as -> by (apply Z.eqb_neq; lia).
Qed.

Lemma shutdown_run (L0 : nat) (ps : list (nat * Z)) (st : state)
    (nt : list nat) :
  draining L0 ps.*1 st → NoDup ps.*1 → ps ≠ [] →
  let m' := foldl (λ m e, on_worker_exit e.1 e.2 m)
              {| table := st; notified := nt;
                 counters := [Z.of_nat (length ps)]; exited := None |} ps in
  exited m' = Some 0%Z ∧ notified m' = nt ∧
  draining L0 [] (table m') ∧
  length (processes (table m')) = length (processes st) + length ps ∧
  (∀ id, is_Some (map_get id (workers (table m')))
         ↔ is_Some (map_get id (workers st))).
Proof.
  revert st. induction ps as [|[p t] ps IH]; intros st Hdr Hnd Hne; [done|].
  clear Hne.
  destruct (draining_exit L0 p ps.*1 st t Hdr Hnd) as (Hdr' & Hlen & Hkeys).
  apply NoDup_cons in Hnd as [_ Hnd].
  cbn [foldl length fst snd]. rewrite on_worker_exit_counts.
  destruct ps as [|e ps'].
  - simpl. split_and!; try done. rewrite Hlen. lia.
  - destruct (IH (on_exit p t st) Hdr' Hnd) as (He & Hn & Hd & Hl & Hk);
      [done|].
    change (match length (e :: ps') with 0 => Some 0%Z | S _ => None end)
      with (@None Z).
    revert He Hn Hd Hl Hk.
    generalize (foldl (λ m e0, on_worker_exit e0.1 e0.2 m)
                  {| table := on_exit p t st; notified := nt;
                     counters := [Z.of_nat (length (e :: ps'))];
                     exited := None |} (e :: ps')).
    intros m He Hn Hd Hl Hk.
    split_and!; try done.
    + rewrite Hl, Hlen. simpl. lia.
    + intros id. by rewrite Hk, Hkeys.
Qed.

(** X28. Shutting down forks every worker anew.  After a termination
    signal the master has sent the shutdown message to each worker; as
    the listener of [setupMaster] is still there, each exit that follows
    forks a process for the same id; and when the last of the workers
    has exited, in whatever order they do, the master leaves with code 0
    having forked twice its count of workers, every id registered with a
    process forked after the signal, which is not dead. *)
Theorem shutdown_reforks_every_worker (cfg : Config) (now : Z)
    (ps : list (nat * Z)) :
  0 < workerCount cfg →
  ps.*1 ≡ₚ seq 0 (workerCount cfg) →
  let m' := foldl (λ m e, on_worker_exit e.1 e.2 m)
              (shutdown (boot cfg now)) ps in
  notified m' = seq 0 (workerCount cfg) ∧
  exited m' = Some 0%Z ∧
  length (processes (table m')) = 2 * workerCount cfg ∧
  ∀ id, 1 ≤ id ≤ workerCount cfg →
    ∃ q info, registered id (table m') = Some (q, info) ∧
              workerCount cfg ≤ pid info ∧ dead q = false.
Proof.
  intros Hn Hperm. set (n := workerCount cfg) in *.
  assert (length ps = n) as Hlen.
  { by rewrite <- (length_fmap fst ps), Hperm, length_seq. }
  assert (NoDup ps.*1) as Hnd by (rewrite Hperm; apply NoDup_seq).
  assert (ps ≠ []) as Hne by (intros ->; simpl in Hlen; lia).
  pose proof (setupMaster_unfold n cfg now) as Hsetup.
  change (foldl _ (fresh cfg) (seq 1 n)) with (setupMaster cfg now) in Hsetup.
  assert (∀ id, map_get id (workers (setupMaster cfg now))
                = if (1 <=? id) && (id <? 1 + n)
                  then Some {| pid := id - 1; startedAt := now; restarts := 0 |}
                  else None) as Hget.
  { intros id. rewrite Hsetup. simpl.
    apply (map_get_seq (λ i, {| pid := i - 1; startedAt := now;
                                restarts := 0 |})). }
  assert (draining n ps.*1 (setupMaster cfg now)) as Hdr.
  { split_and!.
    - apply well_tracked_setupMaster.
    - rewrite Hsetup. simpl. by rewrite length_fmap, length_seq.
    - intros id info. rewrite Hget.
      destruct (Nat.leb_spec 1 id); [done|]. by simpl.
    - intros p. rewrite Hperm. intros Hp%elem_of_seq.
      split; [lia|]. exists (S p).
      replace p with (pid {| pid := S p - 1; startedAt := now;
                             restarts := 0 |}) at 1 by (simpl; lia).
      apply well_tracked_find; [apply well_tracked_setupMaster|].
      rewrite Hget.
      destruct (Nat.leb_spec 1 (S p)), (Nat.ltb_spec (S p) (1 + n));
        simpl; try done; lia.
    - intros id info. rewrite Hget.
      destruct (Nat.leb_spec 1 id), (Nat.ltb_spec id (1 + n)); simpl;
        try done.
      intros [= <-]. left. rewrite Hperm. simpl. apply elem_of_seq. lia. }
  unfold shutdown, boot. cbn [exited table notified counters].
  rewrite app_nil_l, app_nil_l.
  assert (length (workers (setupMaster cfg now)) = length ps) as ->.
  { by rewrite Hsetup; simpl; rewrite length_fmap, length_seq. }
  destruct (shutdown_run n ps (setupMaster cfg now)
              (pid <$> (workers (setupMaster cfg now)).*2) Hdr Hnd Hne)
    as (He & Hnt & Hd & Hl & Hk).
  simpl. split_and!.
  - rewrite Hnt, Hsetup. simpl.
    rewrite <- !list_fmap_compose.
    rewrite <- fmap_S_seq, <- list_fmap_compose.
    rewrite <- (list_fmap_id (seq 0 n)) at 2.
    apply list_fmap_ext. intros i x _. simpl. lia.
  - done.
  - rewrite Hl, Hlen, Hsetup. simpl. rewrite length_fmap, length_seq. lia.
  - intros id Hid.
    destruct (proj2 (Hk id)) as [info Hg].
    { rewrite Hget.
      destruct (Nat.leb_spec 1 id), (Nat.ltb_spec id (1 + n)); simpl;
        try done; lia. }
    destruct Hd as (_ & _ & _ & _ & Hent).
    destruct (Hent _ _ Hg) as [Hin|(Hfresh & q & Hq & Hdead)];
      [by apply elem_of_nil in Hin|].
    exists q, info. split; [|done].
    unfold registered. rewrite Hg. simpl. by rewrite Hq.
Qed.

End MasterFacts.

Lemma graceful_restart_forks_twice_witness :
  let st := ProcessManager.setupMaster ProcessManager.four_workers 0 in
  let st' := ProcessManager.graceful_restart 1 500 501 st in
  let forked := {| ProcessManager.WORKER_ID := 1;
                   ProcessManager.WORKER_PORT := 3001 + 1 - 1;
                   ProcessManager.dead := false |} in
  length (ProcessManager.processes st') = 4 + 2 ∧
  ProcessManager.processes st' !! 4 = Some forked ∧
  ProcessManager.findWorkerIdByPid 4 st' = None ∧
  ProcessManager.registered 1 st'
  = Some (forked, {| ProcessManager.pid := 4 + 1;
                     ProcessManager.startedAt := 501;
                     ProcessManager.restarts := 0 + 1 |}).
Proof.
  apply (graceful_restart_forks_twice
           (ProcessManager.setupMaster ProcessManager.four_workers 0) 1
           {| ProcessManager.pid := 0; ProcessManager.startedAt := 0;
              ProcessManager.restarts := 0 |} 500 501).
  - apply well_tracked_setupMaster.
  - reflexivity.
  - lia.
Defined.

Lemma forced_restart_forks_once_witness :
  let st := ProcessManager.setupMaster ProcessManager.four_workers 0 in
  let st' := ProcessManager.forced_restart 1 10500 10501 st in
  length (ProcessManager.processes st') = 4 + 1 ∧
  ProcessManager.processes st' !! 0
  = Some {| ProcessManager.WORKER_ID := 1;
            ProcessManager.WORKER_PORT := 3001;
            ProcessManager.dead := true |} ∧
  ProcessManager.registered 1 st'
  = Some ({| ProcessManager.WORKER_ID := 1;
             ProcessManager.WORKER_PORT := 3001 + 1 - 1;
             ProcessManager.dead := false |},
          {| ProcessManager.pid := 4; ProcessManager.startedAt := 10500;
             ProcessManager.restarts := 0 + 1 |}).
Proof.
  apply (forced_restart_forks_once
           (ProcessManager.setupMaster ProcessManager.four_workers 0) 1
           {| ProcessManager.pid := 0; ProcessManager.startedAt := 0;
              ProcessManager.restarts := 0 |}
           {| ProcessManager.WORKER_ID := 1;
              ProcessManager.WORKER_PORT := 3001;
              ProcessManager.dead := false |} 10500 10501).
  - apply well_tracked_setupMaster.
  - reflexivity.
  - reflexivity.
  - reflexivity.
Defined.

Lemma shutdown_reforks_every_worker_witness :
  let m' := foldl (λ m e, MasterRun.on_worker_exit e.1 e.2 m)
              (MasterRun.shutdown
                 (MasterRun.boot ProcessManager.four_workers 0))
              [(2, 10%Z); (0, 11%Z); (3, 12%Z); (1, 13%Z)] in
  MasterRun.notified m' = seq 0 4 ∧
  MasterRun.exited m' = Some 0%Z ∧
  length (ProcessManager.processes (MasterRun.table m')) = 2 * 4 ∧
  ∀ id, 1 ≤ id ≤ 4 →
    ∃ q info, ProcessManager.registered id (MasterRun.table m')
              = Some (q, info) ∧
              4 ≤ ProcessManager.pid info ∧ ProcessManager.dead q = false.
Proof.
  apply (shutdown_reforks_every_worker ProcessManager.four_workers 0
           [(2, 10%Z); (0, 11%Z); (3, 12%Z); (1, 13%Z)]).
  - simpl. lia.
  - by apply (bool_decide_unpack _).
Defined.

(** ** The supervisor: a second signal *)

Section SupervisorMore.

Import Supervisor.

Lemma loop_exited (fuel : nat) (st : state) :
  exited st = true → loop fuel st = st.
Proof. intros He. destruct fuel; simpl; [done|]. by rewrite He. Qed.

(** X29. A second termination signal that reaches server/start.js
    within the second after the first does not signal the balancer
    again, but does signal every worker a second time, one second after
    it came; the process still exits four seconds after the first
    signal, and the timers left are dropped. *)
Theorem second_signal_spares_balancer (ids : list nat) (now now2 : Z)
    (fuel : nat) :
  (now ≤ now2 < now + 1000)%Z →
  let st := loop (3 + fuel)
              (shutdown now2 (shutdown now (running ServerStart ids))) in
  trace st
  = (now, Kill BalancerProcess "SIGTERM")
    :: map (pair (now + 1000)%Z)
         (map (λ i, Kill (WorkerProcess i) "SIGTERM") ids)
    ++ map (pair (now2 + 1000)%Z)
         (map (λ i, Kill (WorkerProcess i) "SIGTERM") ids)
    ++ [((now + 1000 + 3000)%Z, Exit 0)] ∧
  exited st = true ∧ timers st = [].
Proof.
  intros Hnow. cbv zeta.
  change (3 + fuel) with (S (S (S fuel))).
  unfold shutdown, running, killBalancer, setTimeout, emit.
  cbn [script balancerKilled workers timers trace exited app map].
  cbn [loop next_timer exited timers fst snd].
  assert ((now2 + 1000 <? now + 1000)%Z = false) as -> by lia.
  cbn [loop next_timer exited timers fst snd fire killWorkers emit setTimeout
       script balancerKilled workers trace app].
  assert ((now + 1000 + 3000 <? now2 + 1000)%Z = false) as -> by lia.
  cbn [loop next_timer exited timers fst snd fire killWorkers emit setTimeout
       script balancerKilled workers trace app].
  assert ((now2 + 1000 + 3000 <? now + 1000 + 3000)%Z = false) as -> by lia.
  cbn [fire exit emit script balancerKilled workers trace timers exited map].
  rewrite loop_exited by done. simpl.
  split_and!; try done.
  by rewrite <- !app_assoc.
Qed.

End SupervisorMore.

Lemma second_signal_spares_balancer_witness :
  let st := Supervisor.loop (3 + 0)
              (Supervisor.shutdown 200
                 (Supervisor.shutdown 0
                    (Supervisor.running Supervisor.ServerStart [1; 2]))) in
  Supervisor.trace st
  = (0%Z, Supervisor.Kill Supervisor.BalancerProcess "SIGTERM")
    :: map (pair (0 + 1000)%Z)
         (map (λ i, Supervisor.Kill (Supervisor.WorkerProcess i) "SIGTERM")
            [1; 2])
    ++ map (pair (200 + 1000)%Z)
         (map (λ i, Supervisor.Kill (Supervisor.WorkerProcess i) "SIGTERM")
            [1; 2])
    ++ [((0 + 1000 + 3000)%Z, Supervisor.Exit 0)] ∧
  Supervisor.exited st = true ∧ Supervisor.timers st = [].
Proof.
  apply (second_signal_spares_balancer [1; 2] 0 200 0). lia.
Defined.

Lemma bridge_disconnect_is_not_noticed_witness :
  let chunks1 := [("data: c=Hel" +:+ Bridge.LF)%string] in
  let chunks2 := [("data: c=lo" +:+ Bridge.LF)%string] in
  let hs := (BridgeStream.Loop
               <$> BridgeStream.Resolved :: (BridgeStream.Data <$> chunks1))
            ++ BridgeStream.Disconnect
               :: (BridgeStream.Loop
                     <$> (BridgeStream.Data <$> chunks2)
                         ++ [BridgeStream.End_]) in
  let out := foldl (BridgeStream.happen 20 "prompt" Worker.toy_parse)
               (BridgeStream.enter 20 "prompt"
                  (Incoming.parsed Incoming.Node16 false)
                  "u1" (Some "hi"%string) [] Bridge.full_store) hs in
  let old := foldl (BridgeStream.happen 20 "prompt" Worker.toy_parse)
               (BridgeStream.enter 20 "prompt"
                  (Incoming.parsed Incoming.Node14 false)
                  "u1" (Some "hi"%string) [] Bridge.full_store) hs in
  (BridgeStream.reply out, BridgeStream.store out)
  = foldl (BridgeStream.deliver 20 "prompt" Worker.toy_parse)
      (BridgeStream.start 20 "prompt" "u1" (Some "hi"%string) []
         Bridge.full_store)
      (BridgeStream.Resolved
       :: (BridgeStream.Data <$> chunks1 ++ chunks2)
          ++ [BridgeStream.End_]) ∧
  BridgeStream.ended (BridgeStream.reply out) = true ∧
  (∃ frames,
     BridgeStream.written (BridgeStream.reply out)
     = frames ++ [BridgeStream.DoneFrame; BridgeStream.Marker] ∧
     BridgeStream.terminal_frames frames = 0 ∧
     Bridge.stored (BridgeStream.store out) "u1"
     = Some (Bridge.truncateConversation 20 "prompt"
               (Bridge.pushAssistantMessage
                  (Bridge.pushUserMessage Bridge.full_history
                     (Some "hi"%string) [])
                  (Some (BridgeStream.chunk_text frames))))) ∧
  BridgeStream.ended (BridgeStream.reply old) = false ∧
  BridgeStream.terminal_frames
    (BridgeStream.written (BridgeStream.reply old)) = 0 ∧
  Bridge.stored (BridgeStream.store old) "u1"
  = Some (Bridge.pushUserMessage Bridge.full_history (Some "hi"%string) []).
Proof.
  apply (bridge_disconnect_is_not_noticed 20 "prompt" Worker.toy_parse
           Bridge.full_store "u1" (Some "hi"%string) [] Bridge.full_history).
  - reflexivity.
  - left. reflexivity.
Defined.
